(** * Procedural space-scene builders: a shallow embedding

    The two scripts [space_scene.py] and [grand_flyby.py] drive a host
    3D application through its Python API.  This development embeds the
    host-independent logic of the scripts as Rocq functions and proves the
    properties their specification states about them:

    - the best-effort setters [safe_set] and [set_input];
    - the starfield world recipe [build_starfield_world];
    - the asteroid scatterers [add_asteroid_field] and [create_asteroid_field];
    - the orbit animation of [add_moon];
    - the interpolation helper [apply_interp].

    Python floats are real numbers; in the scatterers, where the claim
    is about the numbers themselves, every operation on them goes through
    the rounding of the platform, which is a parameter ([Arith]).  Objects
    that the scripts mutate in place are threaded through the functions
    explicitly; a Python exception is the left injection of a sum. *)

From Stdlib Require Import ZArith Reals Lra Lia String List.
From Stdlib Require Floats.
From stdpp Require Import gmap strings list fin_maps pretty.

Open Scope string_scope.
Open Scope list_scope.

(* ===================================================================== *)
(** * Python exceptions *)
(* ===================================================================== *)

Module Py.

(** The subclasses of [Exception] that the host raises on the paths the
    scripts exercise. *)
Inductive exn : Type :=
| KeyError (key : string)
| IndexError (index : nat)
| AttributeError (attr : string)
| TypeError
| ReferenceError.

(** A computation either raises or returns. *)
Definition result (A : Type) : Type := (exn + A)%type.

Definition raise {A : Type} (e : exn) : result A := inl e.

Definition ret {A : Type} (a : A) : result A := inr a.

Definition bind {A B : Type} (m : result A) (k : A -> result B) : result B :=
  match m with
  | inl e => inl e
  | inr a => k a
  end.

(** [try: body except Exception: handler]. *)
Definition try_except {A : Type} (body : result A) (handler : exn -> result A)
  : result A :=
  match body with
  | inl e => handler e
  | inr a => inr a
  end.

(** The computation returned normally. *)
Definition returns {A : Type} (m : result A) : Prop := exists a, m = inr a.

End Py.

Export Py.

(* ===================================================================== *)
(** * The host data the scripts touch *)
(* ===================================================================== *)

Module Bpy.

(** Values assigned to attributes and socket defaults. *)
Inductive value : Type :=
| VNone
| VBool (b : bool)
| VFloat (x : R)
| VStr (s : string)
| VTuple (xs : list R)
| VObject (name : string).

(** An attribute of a host struct: its current value and the host's check
    of an assigned value (a value of the wrong type is refused; a read-only
    attribute refuses every value). *)
Record Attr : Type := mkAttr {
  attr_value : value;
  attr_accepts : value -> bool
}.

(** A host struct is the finite map of its attributes. *)
Abbreviation Struct := (gmap string Attr).

Definition hasattr (obj : Struct) (prop : string) : bool :=
  match obj !! prop with
  | Some _ => true
  | None => false
  end.

(** [setattr(obj, prop, value)]: raises when the attribute is missing or
    the host refuses the value; the struct is unchanged in that case. *)
Definition setattr (obj : Struct) (prop : string) (v : value) : result Struct :=
  match obj !! prop with
  | None => raise (AttributeError prop)
  | Some a =>
      if attr_accepts a v
      then ret (<[prop := mkAttr v (attr_accepts a)]> obj)
      else raise TypeError
  end.

(** An input socket of a node. *)
Record Socket : Type := mkSocket {
  sock_name : string;
  default_value : value;
  sock_accepts : value -> bool
}.

(** [sock.default_value = v]. *)
Definition set_default_value (sock : Socket) (v : value) : result Socket :=
  if sock_accepts sock v
  then ret (mkSocket (sock_name sock) v (sock_accepts sock))
  else raise TypeError.

(** A stop of a colour ramp. *)
Record RampElement : Type := mkRampElement {
  position : R;
  color : list R
}.

(** A shader node.  [inputs] is ordered and may repeat a name (the two
    shader inputs of a mix node are both called "Shader"), so it is a list
    and not a map. *)
Record Node : Type := mkNode {
  bl_idname : string;
  attrs : gmap string Attr;
  inputs : list Socket;
  outputs : list string;
  color_ramp : option (list RampElement)
}.

Definition with_inputs (node : Node) (socks : list Socket) : Node :=
  mkNode (bl_idname node) (attrs node) socks (outputs node) (color_ramp node).

Definition with_attrs (node : Node) (a : gmap string Attr) : Node :=
  mkNode (bl_idname node) a (inputs node) (outputs node) (color_ramp node).

Definition with_color_ramp (node : Node) (r : option (list RampElement)) : Node :=
  mkNode (bl_idname node) (attrs node) (inputs node) (outputs node) r.

(** [node.inputs.get(name)]: the first socket of that name with its
    position, or [None]. *)
Definition inputs_get (node : Node) (name : string) : option (nat * Socket) :=
  list_find (fun s => sock_name s = name) (inputs node).

(** A link joins an output socket to an input socket; sockets are named by
    their node's handle and their position on it. *)
Record Link : Type := mkLink {
  from_node : nat;
  from_socket : nat;
  to_node : nat;
  to_socket : nat
}.

(** A node tree.  A node's handle is its position in [nodes]. *)
Record NodeTree : Type := mkNodeTree {
  nodes : list Node;
  links : list Link
}.

(** A keyframe point of an animation curve: its frame and value, and how
    the curve is interpolated after it. *)
Record KeyframePoint : Type := mkKeyframePoint {
  co : Z * R;
  interpolation : string
}.

(** The curve of one component of an animated property. *)
Record FCurve : Type := mkFCurve {
  data_path : string;
  array_index : nat;
  keyframe_points : list KeyframePoint
}.

Record Action : Type := mkAction {
  fcurves : list FCurve
}.

(** A point or an Euler rotation. *)
Definition Vec : Type := (R * R * R)%type.

Definition vx (v : Vec) : R := fst (fst v).
Definition vy (v : Vec) : R := snd (fst v).
Definition vz (v : Vec) : R := snd v.

(** What an object was created as. *)
Inductive Primitive : Type :=
| Empty
| UVSphere (segments ring_count : nat) (radius : R)
| IcoSphere (subdivisions : nat) (radius : R).

Inductive Shading : Type := Flat | Smooth.

(** A scene object.  Handles of objects and materials are positions in
    the lists of [Data]. *)
Record Object : Type := mkObject {
  name : string;
  primitive : Primitive;
  location : Vec;
  rotation_euler : Vec;
  parent : option nat;
  material_slots : list nat;
  shading : Shading;
  displacement : list (string * R);
  animation_data : option Action
}.

Record Material : Type := mkMaterial {
  material_name : string;
  use_nodes : bool;
  node_tree : NodeTree
}.

(** The state the scripts mutate: the data blocks of the file, the active
    object of the context, and the outputs that [random.random()] is still
    to deliver. *)
Record Data : Type := mkData {
  objects : list Object;
  materials : list Material;
  textures : list string;
  active_object : option nat;
  entropy : nat -> R
}.

(** What the scripts ask of the host and cannot know in advance: the
    sockets and attributes of a freshly created node, the identifiers of
    the interpolation enum (reading them may raise), and the interpolation
    the host gives a newly inserted keyframe. *)
Record Host : Type := mkHost {
  new_node : string -> Node;
  interpolation_enum : result (list string);
  default_interpolation : string
}.

End Bpy.

Export Bpy.
(* ===================================================================== *)
(** * Helpers shared by both scripts *)
(* ===================================================================== *)

Module Helpers.

(** [safe_set(obj, prop, value)] of both scripts. *)
Definition safe_set (obj : Struct) (prop : string) (v : value) : result Struct :=
  if hasattr obj prop
  then try_except (setattr obj prop v) (fun _ => ret obj)
  else ret obj.

(** The body of the [try] in [set_input]: assign the default of the socket
    found at position [i]. *)
Definition assign_default (node : Node) (i : nat) (sock : Socket) (v : value)
  : result Node :=
  bind (set_default_value sock v)
       (fun sock' => ret (with_inputs node (<[i := sock']> (inputs node)))).

(** [set_input(node, names, value)] of [space_scene.py]: the loop returns
    at the first name that [node.inputs.get] finds, whether or not the
    assignment went through. *)
Fixpoint set_input (node : Node) (names : list string) (v : value)
  : result Node :=
  match names with
  | [] => ret node
  | name :: names' =>
      match inputs_get node name with
      | Some (i, sock) =>
          try_except (assign_default node i sock v) (fun _ => ret node)
      | None => set_input node names' v
      end
  end.

(** The name at which the loop of [set_input] stops. *)
Fixpoint resolve (node : Node) (names : list string) : option string :=
  match names with
  | [] => None
  | name :: names' =>
      match inputs_get node name with
      | Some _ => Some name
      | None => resolve node names'
      end
  end.

(** The alias resolution as the specification words it: the first
    candidate that belongs to the set of available names. *)
Definition resolve_spec (available : gset string) (candidates : list string)
  : option string :=
  snd <$> list_find (fun name => name ∈ available) candidates.

(** The names a node offers to [inputs.get]. *)
Definition input_names (node : Node) : gset string :=
  list_to_set (sock_name <$> inputs node).

End Helpers.

Export Helpers.

(* ===================================================================== *)
(** * Statements over a mutable state *)
(* ===================================================================== *)

Module State.

(** A statement reads and updates a state and may raise. *)
Definition St (T A : Type) : Type := T -> result (A * T).

Definition sret {T A : Type} (a : A) : St T A := fun s => inr (a, s).

Definition sraise {T A : Type} (e : exn) : St T A := fun _ => inl e.

Definition sbind {T A B : Type} (m : St T A) (k : A -> St T B) : St T B :=
  fun s =>
    match m s with
    | inl e => inl e
    | inr (a, s') => k a s'
    end.

(** A computation that does not touch the state. *)
Definition lift {T A : Type} (r : result A) : St T A :=
  fun s =>
    match r with
    | inl e => inl e
    | inr a => inr (a, s)
    end.

(** [for x in xs: body(x)]. *)
Fixpoint for_each {T A : Type} (xs : list A) (body : A -> St T unit)
  : St T unit :=
  match xs with
  | [] => sret tt
  | x :: xs' => sbind (body x) (fun _ => for_each xs' body)
  end.

(** A loop that also carries a local variable of the function. *)
Fixpoint fold_each {T A B : Type} (xs : list A) (acc : B)
  (body : A -> B -> St T B) : St T B :=
  match xs with
  | [] => sret acc
  | x :: xs' => sbind (body x acc) (fun acc' => fold_each xs' acc' body)
  end.

(** [range(n)]. *)
Definition range (n : nat) : list nat := seq 0 n.

Declare Scope stmt_scope.
Delimit Scope stmt_scope with stmt.
Bind Scope stmt_scope with St.

Notation "x <- m ;; k" := (sbind m (fun x => k))
  (at level 100, m at next level, right associativity) : stmt_scope.
Notation "m ;; k" := (sbind m (fun _ => k))
  (at level 100, right associativity) : stmt_scope.

End State.

Export State.

Open Scope stmt_scope.

(* ===================================================================== *)
(** * Building a node tree *)
(* ===================================================================== *)

Module Tree.

(** Statements on the node tree under construction. *)
Definition M (A : Type) : Type := St NodeTree A.

(** A reference to a socket: the node's handle and the socket's position. *)
Definition SocketRef : Type := (nat * nat)%type.

(** [nodes.new(type)]: the host appends a fresh node. *)
Definition nodes_new (h : Host) (type : string) : M nat :=
  fun t => inr (length (nodes t),
                mkNodeTree (nodes t ++ [new_node h type]) (links t)).

(** [nodes.clear()], and the loop that removes every node: a removed node
    takes its links with it. *)
Definition nodes_clear : M unit :=
  fun _ => inr (tt, mkNodeTree [] []).

Definition get_node (n : nat) : M Node :=
  fun t =>
    match nodes t !! n with
    | Some node => inr (node, t)
    | None => inl ReferenceError
    end.

Definition put_node (n : nat) (node : Node) : M unit :=
  fun t => inr (tt, mkNodeTree (<[n := node]> (nodes t)) (links t)).

(** [node.inputs[name]]. *)
Definition input_named (n : nat) (name : string) : M SocketRef :=
  node <- get_node n ;;
  match inputs_get node name with
  | Some (i, _) => sret (n, i)
  | None => sraise (KeyError name)
  end.

(** [node.inputs[i]]. *)
Definition input_at (n i : nat) : M SocketRef :=
  node <- get_node n ;;
  match inputs node !! i with
  | Some _ => sret (n, i)
  | None => sraise (IndexError i)
  end.

(** [node.outputs[name]]. *)
Definition output_named (n : nat) (name : string) : M SocketRef :=
  node <- get_node n ;;
  match list_find (fun o => o = name) (outputs node) with
  | Some (i, _) => sret (n, i)
  | None => sraise (KeyError name)
  end.

(** [socket.default_value = v] on a socket of the tree. *)
Definition set_default (s : SocketRef) (v : value) : M unit :=
  node <- get_node (fst s) ;;
  match inputs node !! snd s with
  | None => sraise ReferenceError
  | Some sock =>
      sock' <- lift (set_default_value sock v) ;;
      put_node (fst s) (with_inputs node (<[snd s := sock']> (inputs node)))
  end.

(** [node.name = v] for a plain attribute of a node. *)
Definition set_node_attr (n : nat) (name : string) (v : value) : M unit :=
  node <- get_node n ;;
  a <- lift (setattr (attrs node) name v) ;;
  put_node n (with_attrs node a).

(** [node.color_ramp.elements[i]] updated by [f]. *)
Definition set_ramp_element (n i : nat) (f : RampElement -> RampElement)
  : M unit :=
  node <- get_node n ;;
  match color_ramp node with
  | None => sraise (AttributeError "color_ramp")
  | Some elements =>
      match elements !! i with
      | None => sraise (IndexError i)
      | Some e => put_node n (with_color_ramp node (Some (<[i := f e]> elements)))
      end
  end.

Definition set_position (x : R) (e : RampElement) : RampElement :=
  mkRampElement x (color e).

Definition set_color (c : list R) (e : RampElement) : RampElement :=
  mkRampElement (position e) c.

(** [links.new(from_socket, to_socket)]: the request is appended to the
    tree's links. *)
Definition links_new (src dst : SocketRef) : M unit :=
  fun t => inr (tt, mkNodeTree (nodes t)
                      (links t ++ [mkLink (fst src) (snd src) (fst dst) (snd dst)])).

(** The tree [clean_scene] leaves behind: every node removed. *)
Definition clean_tree : NodeTree := mkNodeTree [] [].

(** Links that enter node [n]. *)
Definition incoming (t : NodeTree) (n : nat) : list Link :=
  filter (fun l => to_node l = n) (links t).

(** The input sockets that the links of a tree feed. *)
Definition link_targets (t : NodeTree) : list SocketRef :=
  (fun l => (to_node l, to_socket l)) <$> links t.

End Tree.

Export Tree.

(* ===================================================================== *)
(** * Operators and data blocks *)
(* ===================================================================== *)

Module Ops.

(** Statements on the data of the file. *)
Definition Op (A : Type) : Type := St Data A.

Definition with_objects (d : Data) (os : list Object) : Data :=
  mkData os (materials d) (textures d) (active_object d) (entropy d).

Definition with_materials (d : Data) (ms : list Material) : Data :=
  mkData (objects d) ms (textures d) (active_object d) (entropy d).

(** An operator that adds an object appends it and makes it the active
    one. *)
Definition add_object (o : Object) : Op unit :=
  fun d => inr (tt, mkData (objects d ++ [o]) (materials d) (textures d)
                           (Some (length (objects d))) (entropy d)).

Definition origin : Vec := (0, 0, 0)%R.

(** [bpy.ops.object.empty_add(type='PLAIN_AXES', location=...)]. *)
Definition empty_add (loc : Vec) : Op unit :=
  add_object (mkObject "Empty" Empty loc origin None [] Flat [] None).

(** [bpy.ops.mesh.primitive_uv_sphere_add(...)]. *)
Definition primitive_uv_sphere_add (segments ring_count : nat) (radius : R)
  (loc : Vec) : Op unit :=
  add_object (mkObject "Sphere" (UVSphere segments ring_count radius) loc origin
                       None [] Flat [] None).

(** [bpy.ops.mesh.primitive_ico_sphere_add(...)]. *)
Definition primitive_ico_sphere_add (subdivisions : nat) (radius : R)
  (loc : Vec) : Op unit :=
  add_object (mkObject "Icosphere" (IcoSphere subdivisions radius) loc origin
                       None [] Flat [] None).

(** [bpy.context.active_object], to be dereferenced at once. *)
Definition context_active_object : Op nat :=
  fun d =>
    match active_object d with
    | Some o => inr (o, d)
    | None => inl (AttributeError "active_object")
    end.

Definition get_object (o : nat) : Op Object :=
  fun d =>
    match objects d !! o with
    | Some ob => inr (ob, d)
    | None => inl ReferenceError
    end.

Definition update_object (o : nat) (f : Object -> Object) : Op unit :=
  ob <- get_object o ;;
  fun d => inr (tt, with_objects d (<[o := f ob]> (objects d))).

Definition set_name (s : string) (ob : Object) : Object :=
  mkObject s (primitive ob) (location ob) (rotation_euler ob) (parent ob)
           (material_slots ob) (shading ob) (displacement ob) (animation_data ob).

Definition set_rotation_euler (r : Vec) (ob : Object) : Object :=
  mkObject (name ob) (primitive ob) (location ob) r (parent ob)
           (material_slots ob) (shading ob) (displacement ob) (animation_data ob).

(** [ob.rotation_euler.z = z]. *)
Definition set_rotation_z (z : R) (ob : Object) : Object :=
  set_rotation_euler (vx (rotation_euler ob), vy (rotation_euler ob), z) ob.

Definition set_parent (p : nat) (ob : Object) : Object :=
  mkObject (name ob) (primitive ob) (location ob) (rotation_euler ob) (Some p)
           (material_slots ob) (shading ob) (displacement ob) (animation_data ob).

(** [ob.data.materials.append(mat)]. *)
Definition append_material (m : nat) (ob : Object) : Object :=
  mkObject (name ob) (primitive ob) (location ob) (rotation_euler ob) (parent ob)
           (material_slots ob ++ [m]) (shading ob) (displacement ob)
           (animation_data ob).

Definition set_shading (sh : Shading) (ob : Object) : Object :=
  mkObject (name ob) (primitive ob) (location ob) (rotation_euler ob) (parent ob)
           (material_slots ob) sh (displacement ob) (animation_data ob).

(** A displace modifier that has been applied: its texture and strength. *)
Definition add_displacement (texture : string) (strength : R) (ob : Object)
  : Object :=
  mkObject (name ob) (primitive ob) (location ob) (rotation_euler ob) (parent ob)
           (material_slots ob) (shading ob) (displacement ob ++ [(texture, strength)])
           (animation_data ob).

Definition set_animation_data (a : option Action) (ob : Object) : Object :=
  mkObject (name ob) (primitive ob) (location ob) (rotation_euler ob) (parent ob)
           (material_slots ob) (shading ob) (displacement ob) a.

(** [bpy.ops.object.shade_smooth()] and [shade_flat()] act on the object
    just added. *)
Definition shade_smooth : Op unit :=
  o <- context_active_object ;; update_object o (set_shading Smooth).

Definition shade_flat : Op unit :=
  o <- context_active_object ;; update_object o (set_shading Flat).

(** [bpy.context.view_layer.objects.active = ob]. *)
Definition set_active (o : nat) : Op unit :=
  fun d => inr (tt, mkData (objects d) (materials d) (textures d) (Some o)
                           (entropy d)).

(** [bpy.data.materials.new(name)]. *)
Definition materials_new (s : string) : Op nat :=
  fun d => inr (length (materials d),
                with_materials d (materials d ++ [mkMaterial s false (mkNodeTree [] [])])).

(** A material handle dereferenced: a removed material raises. *)
Definition get_material (m : nat) : Op Material :=
  fun d =>
    match materials d !! m with
    | Some mat => inr (mat, d)
    | None => inl ReferenceError
    end.

(** [bpy.data.textures.new(name, 'CLOUDS')]. *)
Definition textures_new (s : string) : Op string :=
  fun d => inr (s, mkData (objects d) (materials d) (textures d ++ [s])
                          (active_object d) (entropy d)).

(** Run statements on the node tree of material [m] ([mat.use_nodes = True]
    has given it one). *)
Definition on_node_tree {A : Type} (m : nat) (body : M A) : Op A :=
  fun d =>
    match materials d !! m with
    | None => inl ReferenceError
    | Some mat =>
        match body (node_tree mat) with
        | inl e => inl e
        | inr (a, t) =>
            inr (a, with_materials d
                      (<[m := mkMaterial (material_name mat) true t]> (materials d)))
        end
    end.

(** [random.random()]: the next output of the generator, in [0, 1). *)
Definition random : Op R :=
  fun d => inr (entropy d 0%nat,
                mkData (objects d) (materials d) (textures d) (active_object d)
                       (fun i => entropy d (S i))).

(** The arithmetic that the interpreter and the host decide: a real
    result rounded to a Python float, a Python float stored in a
    single-precision property of the host, [math.cos], [math.sin] and
    [math.pi].  Numbers are the reals they denote. *)
Record Arith : Type := mkArith {
  rnd : R -> R;
  single : R -> R;
  fcos : R -> R;
  fsin : R -> R;
  fpi : R
}.

(** [x + y], [x - y] and [x * y] on Python floats. *)
Definition fadd (ar : Arith) (x y : R) : R := rnd ar (x + y).
Definition fsub (ar : Arith) (x y : R) : R := rnd ar (x - y).
Definition fmul (ar : Arith) (x y : R) : R := rnd ar (x * y).

(** [random.uniform(a, b)] is [a + (b - a) * random()]. *)
Definition uniform (ar : Arith) (a b : R) : Op R :=
  u <- random ;; sret (fadd ar a (fmul ar (fsub ar b a) u)).

(** [math.radians(deg)]. *)
Definition radians (deg : R) : R := (deg * PI / 180)%R.

(** The components of the property that a data path names. *)
Definition path_resolve (ob : Object) (path : string) : result (list R) :=
  if String.eqb path "rotation_euler" then
    ret [vx (rotation_euler ob); vy (rotation_euler ob); vz (rotation_euler ob)]
  else if String.eqb path "location" then
    ret [vx (location ob); vy (location ob); vz (location ob)]
  else raise TypeError.

(** A keyframe enters a curve at its place in time and replaces a keyframe
    already on its frame. *)
Fixpoint insert_point (kp : KeyframePoint) (kps : list KeyframePoint)
  : list KeyframePoint :=
  match kps with
  | [] => [kp]
  | k :: rest =>
      if (fst (co kp) <? fst (co k))%Z then kp :: k :: rest
      else if (fst (co kp) =? fst (co k))%Z then kp :: rest
      else k :: insert_point kp rest
  end.

(** Key one component into the curve of ([path], [index]), which is created
    when the action has none. *)
Fixpoint key_component (path : string) (index : nat) (kp : KeyframePoint)
  (fcus : list FCurve) : list FCurve :=
  match fcus with
  | [] => [mkFCurve path index [kp]]
  | fcu :: rest =>
      if String.eqb (data_path fcu) path && Nat.eqb (array_index fcu) index
      then mkFCurve path index (insert_point kp (keyframe_points fcu)) :: rest
      else fcu :: key_component path index kp rest
  end.

(** Key the components [xs], numbered from [index] on. *)
Fixpoint key_components (h : Host) (path : string) (frame : Z) (index : nat)
  (xs : list R) (fcus : list FCurve) : list FCurve :=
  match xs with
  | [] => fcus
  | x :: xs' =>
      key_components h path frame (S index) xs'
        (key_component path index
           (mkKeyframePoint (frame, x) (default_interpolation h)) fcus)
  end.

(** [ob.keyframe_insert(data_path, frame=frame)]: the current value of
    the property is keyed, component by component, into the object's
    action, which is created on first use. *)
Definition keyframe_insert (h : Host) (o : nat) (path : string) (frame : Z)
  : Op unit :=
  ob <- get_object o ;;
  xs <- lift (path_resolve ob path) ;;
  let curves :=
    match animation_data ob with
    | Some a => fcurves a
    | None => []
    end in
  update_object o
    (set_animation_data (Some (mkAction (key_components h path frame 0 xs curves)))).

End Ops.

Export Ops.

(* ===================================================================== *)
(** * grand_flyby.py *)
(* ===================================================================== *)

Module GrandFlyby.

Definition FRAME_START : Z := 1.
Definition FRAME_END : Z := 600.

Definition ASTEROID_COUNT : nat := 250.

Definition STAR_SCALE : R := 600.0.
Definition STAR_SPREAD : R := 0.003.

(** [build_starfield_world(world, star_scale, star_spread)]. *)
Definition build_starfield_world (h : Host) (star_scale star_spread : R)
  : M unit :=
  out <- nodes_new h "ShaderNodeOutputWorld" ;;
  bg_black <- nodes_new h "ShaderNodeBackground" ;;
  (s <- input_named bg_black "Color" ;; set_default s (VTuple [0; 0; 0; 1]%R)) ;;
  (s <- input_named bg_black "Strength" ;; set_default s (VFloat 1.0)) ;;

  mix <- nodes_new h "ShaderNodeMixShader" ;;
  emission <- nodes_new h "ShaderNodeEmission" ;;
  (s <- input_named emission "Color" ;; set_default s (VTuple [1; 1; 1; 1]%R)) ;;
  (s <- input_named emission "Strength" ;; set_default s (VFloat 4.0)) ;;

  vor <- nodes_new h "ShaderNodeTexVoronoi" ;;
  set_node_attr vor "feature" (VStr "F1") ;;
  set_node_attr vor "distance" (VStr "EUCLIDEAN") ;;
  (s <- input_named vor "Scale" ;; set_default s (VFloat star_scale)) ;;

  cramp <- nodes_new h "ShaderNodeValToRGB" ;;
  set_ramp_element cramp 0 (set_position star_spread) ;;
  set_ramp_element cramp 0 (set_color [0; 0; 0; 1]%R) ;;
  set_ramp_element cramp 1 (set_position (star_spread + 0.015)%R) ;;
  set_ramp_element cramp 1 (set_color [1; 1; 1; 1]%R) ;;

  texcoord <- nodes_new h "ShaderNodeTexCoord" ;;
  power <- nodes_new h "ShaderNodeMath" ;;
  set_node_attr power "operation" (VStr "POWER") ;;
  (s <- input_at power 1 ;; set_default s (VFloat 6.5)) ;;

  (a <- output_named texcoord "Generated" ;; b <- input_named vor "Vector" ;;
   links_new a b) ;;
  (a <- output_named vor "Distance" ;; b <- input_named cramp "Fac" ;;
   links_new a b) ;;
  (a <- output_named cramp "Color" ;; b <- input_at power 0 ;;
   links_new a b) ;;
  (a <- output_named power "Value" ;; b <- input_named mix "Fac" ;;
   links_new a b) ;;
  (a <- output_named bg_black "Background" ;; b <- input_at mix 1 ;;
   links_new a b) ;;
  (a <- output_named emission "Emission" ;; b <- input_at mix 2 ;;
   links_new a b) ;;
  (a <- output_named mix "Shader" ;; b <- input_named out "Surface" ;;
   links_new a b).

(** [asteroid_material()]. *)
Definition asteroid_material (h : Host) : Op nat :=
  mat <- materials_new "Asteroid" ;;
  on_node_tree mat
    (nodes_clear ;;
     out <- nodes_new h "ShaderNodeOutputMaterial" ;;
     princ <- nodes_new h "ShaderNodeBsdfPrincipled" ;;
     (s <- input_named princ "Base Color" ;;
      set_default s (VTuple [0.2; 0.2; 0.22; 1]%R)) ;;
     (s <- input_named princ "Roughness" ;; set_default s (VFloat 1.0)) ;;
     (a <- output_named princ "BSDF" ;; b <- input_named out "Surface" ;;
      links_new a b)) ;;
  sret mat.

(** One pass of the loop of [add_asteroid_field]; the position goes
    through a [Vector] into the location of the new object, both in single
    precision. *)
Definition add_asteroid (ar : Arith) (mat : nat) (inner outer : R) (i : nat)
  : Op unit :=
  r <- uniform ar inner outer ;;
  ang <- uniform ar 0 (fmul ar 2 (fpi ar)) ;;
  z <- uniform ar (-5) 5 ;;
  let loc := (single ar (fmul ar r (fcos ar ang)),
              single ar (fmul ar r (fsin ar ang)),
              single ar z) in
  size <- uniform ar (rnd ar 0.2) (rnd ar 0.8) ;;
  primitive_ico_sphere_add 1 size loc ;;
  rock <- context_active_object ;;
  update_object rock (append_material mat) ;;
  shade_flat.

(** [add_asteroid_field(count, inner, outer)]. *)
Definition add_asteroid_field (ar : Arith) (h : Host) (count : nat)
  (inner outer : R) : Op unit :=
  mat <- asteroid_material h ;;
  for_each (range count) (add_asteroid ar mat inner outer).

End GrandFlyby.

(* ===================================================================== *)
(** * space_scene.py *)
(* ===================================================================== *)

Module SpaceScene.

Definition FRAME_START : Z := 1.
Definition FRAME_END : Z := 300.
Definition FPS : Z := 24.

Definition PLANET_LOC : Vec := (0, 0, 0)%R.

Definition ASTEROID_COUNT : nat := 300.
Definition ASTEROID_INNER : R := 10.0.
Definition ASTEROID_OUTER : R := 18.0.
Definition ASTEROID_Z : R := 1.5.

Definition STAR_SCALE : R := 300.0.
Definition STAR_SPREAD : R := 0.005.

(** The settings the script gives the scene before it builds anything. *)
Record Scene : Type := mkScene {
  frame_start : Z;
  frame_end : Z;
  fps : Z
}.

Definition scene : Scene := mkScene FRAME_START FRAME_END FPS.

(** [set_input(node, names, value)] on a node of the tree. *)
Definition set_input_of (n : nat) (names : list string) (v : value) : M unit :=
  node <- get_node n ;;
  node' <- lift (set_input node names v) ;;
  put_node n node'.

(** [build_starfield_world(world, star_scale, star_spread)]. *)
Definition build_starfield_world (h : Host) (star_scale star_spread : R)
  : M unit :=
  out <- nodes_new h "ShaderNodeOutputWorld" ;;
  bg_black <- nodes_new h "ShaderNodeBackground" ;;
  (s <- input_named bg_black "Color" ;; set_default s (VTuple [0; 0; 0; 1]%R)) ;;
  (s <- input_named bg_black "Strength" ;; set_default s (VFloat 1.0)) ;;

  mix <- nodes_new h "ShaderNodeMixShader" ;;
  emission <- nodes_new h "ShaderNodeEmission" ;;
  (s <- input_named emission "Color" ;; set_default s (VTuple [1; 1; 1; 1]%R)) ;;
  (s <- input_named emission "Strength" ;; set_default s (VFloat 3.0)) ;;

  vor <- nodes_new h "ShaderNodeTexVoronoi" ;;
  set_node_attr vor "feature" (VStr "F1") ;;
  set_node_attr vor "distance" (VStr "EUCLIDEAN") ;;
  (s <- input_named vor "Scale" ;; set_default s (VFloat star_scale)) ;;

  cramp <- nodes_new h "ShaderNodeValToRGB" ;;
  set_ramp_element cramp 0 (set_position star_spread) ;;
  set_ramp_element cramp 0 (set_color [0; 0; 0; 1]%R) ;;
  set_ramp_element cramp 1 (set_position (star_spread + 0.02)%R) ;;
  set_ramp_element cramp 1 (set_color [1; 1; 1; 1]%R) ;;

  texcoord <- nodes_new h "ShaderNodeTexCoord" ;;
  power <- nodes_new h "ShaderNodeMath" ;;
  set_node_attr power "operation" (VStr "POWER") ;;
  (s <- input_at power 1 ;; set_default s (VFloat 6.0)) ;;

  (a <- output_named texcoord "Generated" ;; b <- input_named vor "Vector" ;;
   links_new a b) ;;
  (a <- output_named vor "Distance" ;; b <- input_named cramp "Fac" ;;
   links_new a b) ;;
  (a <- output_named cramp "Color" ;; b <- input_at power 0 ;;
   links_new a b) ;;
  (a <- output_named power "Value" ;; b <- input_named mix "Fac" ;;
   links_new a b) ;;
  (a <- output_named bg_black "Background" ;; b <- input_at mix 1 ;;
   links_new a b) ;;
  (a <- output_named emission "Emission" ;; b <- input_at mix 2 ;;
   links_new a b) ;;
  (a <- output_named mix "Shader" ;; b <- input_named out "Surface" ;;
   links_new a b).

(** [moon_material()]. *)
Definition moon_material (h : Host) : Op nat :=
  mat <- materials_new "MoonMaterial" ;;
  on_node_tree mat
    (nodes_clear ;;
     out <- nodes_new h "ShaderNodeOutputMaterial" ;;
     princ <- nodes_new h "ShaderNodeBsdfPrincipled" ;;
     set_input_of princ ["Base Color"] (VTuple [0.4; 0.4; 0.42; 1]%R) ;;
     set_input_of princ ["Roughness"] (VFloat 0.9) ;;
     noise <- nodes_new h "ShaderNodeTexNoise" ;;
     (s <- input_named noise "Scale" ;; set_default s (VFloat 25.0)) ;;
     bump <- nodes_new h "ShaderNodeBump" ;;
     (s <- input_named bump "Strength" ;; set_default s (VFloat 0.4)) ;;
     (a <- output_named noise "Fac" ;; b <- input_named bump "Height" ;;
      links_new a b) ;;
     (a <- output_named bump "Normal" ;; b <- input_named princ "Normal" ;;
      links_new a b) ;;
     (a <- output_named princ "BSDF" ;; b <- input_named out "Surface" ;;
      links_new a b)) ;;
  sret mat.

(** [add_moon(parent, radius, distance)]. *)
Definition add_moon (h : Host) (parent : nat) (radius distance : R) : Op nat :=
  p <- get_object parent ;;
  empty_add (location p) ;;
  pivot <- context_active_object ;;
  update_object pivot (set_name "MoonPivot") ;;
  p <- get_object parent ;;
  primitive_uv_sphere_add 64 32 radius
    (vx (location p) + distance, vy (location p), vz (location p))%R ;;
  moon <- context_active_object ;;
  update_object moon (set_name "Moon") ;;
  shade_smooth ;;
  mat <- moon_material h ;;
  update_object moon (append_material mat) ;;
  update_object moon (set_parent pivot) ;;
  update_object pivot (set_parent parent) ;;
  update_object pivot (set_rotation_euler (0, 0, 0)%R) ;;
  keyframe_insert h pivot "rotation_euler" FRAME_START ;;
  update_object pivot (set_rotation_z (radians 360)) ;;
  keyframe_insert h pivot "rotation_euler" FRAME_END ;;
  sret moon.

(** [asteroid_material()]. *)
Definition asteroid_material (h : Host) : Op nat :=
  mat <- materials_new "AsteroidMaterial" ;;
  on_node_tree mat
    (nodes_clear ;;
     out <- nodes_new h "ShaderNodeOutputMaterial" ;;
     princ <- nodes_new h "ShaderNodeBsdfPrincipled" ;;
     set_input_of princ ["Base Color"] (VTuple [0.25; 0.2; 0.15; 1]%R) ;;
     set_input_of princ ["Roughness"] (VFloat 0.95) ;;
     noise <- nodes_new h "ShaderNodeTexNoise" ;;
     (s <- input_named noise "Scale" ;; set_default s (VFloat 40.0)) ;;
     bump <- nodes_new h "ShaderNodeBump" ;;
     (s <- input_named bump "Strength" ;; set_default s (VFloat 0.35)) ;;
     (a <- output_named noise "Fac" ;; b <- input_named bump "Height" ;;
      links_new a b) ;;
     (a <- output_named bump "Normal" ;; b <- input_named princ "Normal" ;;
      links_new a b) ;;
     (a <- output_named princ "BSDF" ;; b <- input_named out "Surface" ;;
      links_new a b)) ;;
  sret mat.

(** [f"{i:03d}"]. *)
Definition pad3 (i : nat) : string :=
  let digits := pretty i in
  match String.length digits with
  | 1 => "00" +:+ digits
  | 2 => "0" +:+ digits
  | _ => digits
  end.

(** One pass of the loop of [create_asteroid_field]; [asteroid_mat] is the
    module-level material, dereferenced when it is appended. *)
Definition create_asteroid (ar : Arith) (asteroid_mat : nat)
  (inner outer zrange : R) (i : nat) (asteroids : list nat) : Op (list nat) :=
  ang <- uniform ar 0 (fmul ar 2 (fpi ar)) ;;
  rad <- uniform ar inner outer ;;
  let x := fadd ar (vx PLANET_LOC) (fmul ar rad (fcos ar ang)) in
  let y := fadd ar (vy PLANET_LOC) (fmul ar rad (fsin ar ang)) in
  dz <- uniform ar (- zrange) zrange ;;
  let z := fadd ar (vz PLANET_LOC) dz in
  scale <- uniform ar (rnd ar 0.1) (rnd ar 0.4) ;;
  primitive_ico_sphere_add 2 scale (single ar x, single ar y, single ar z) ;;
  ast <- context_active_object ;;
  update_object ast (set_name ("Asteroid_" +:+ pad3 i)) ;;
  shade_smooth ;;
  tex <- textures_new ("AstTex_" +:+ pretty i) ;;
  set_active ast ;;
  update_object ast (add_displacement tex (single ar (fmul ar scale 0.5))) ;;
  get_material asteroid_mat ;;
  update_object ast (append_material asteroid_mat) ;;
  sret (asteroids ++ [ast]).

(** [create_asteroid_field(count, inner, outer, zrange)]. *)
Definition create_asteroid_field (ar : Arith) (asteroid_mat : nat) (count : nat)
  (inner outer zrange : R) : Op (list nat) :=
  fold_each (range count) [] (create_asteroid ar asteroid_mat inner outer zrange).

(** The probe of [apply_interp]: the enum of the first keyframe found. *)
Fixpoint probe_allowed (h : Host) (fcus : list FCurve) : result (gset string) :=
  match fcus with
  | [] => ret ∅
  | fcu :: rest =>
      match keyframe_points fcu with
      | [] => probe_allowed h rest
      | kfp :: _ =>
          bind (interpolation_enum h) (fun items => ret (list_to_set items))
      end
  end.

(** [allowed] after the [try]: the empty set when the probe raised. *)
Definition allowed_modes (h : Host) (action : Action) : gset string :=
  match probe_allowed h (fcurves action) with
  | inr allowed => allowed
  | inl _ => ∅
  end.

(** The conditional expression that [apply_interp] binds to [use]. *)
Definition use_mode (desired : string) (allowed : gset string) : string :=
  if decide (desired ∈ allowed) then desired
  else if decide ("BEZIER" ∈ allowed) then "BEZIER"
  else "LINEAR".

Definition set_interpolation (mode : string) (kp : KeyframePoint)
  : KeyframePoint :=
  mkKeyframePoint (co kp) mode.

(** [apply_interp(action, desired)]. *)
Definition apply_interp (h : Host) (action : Action) (desired : string)
  : Action :=
  let allowed := allowed_modes h action in
  let use := use_mode desired allowed in
  mkAction
    ((fun fcu =>
        mkFCurve (data_path fcu) (array_index fcu)
                 (set_interpolation use <$> keyframe_points fcu))
       <$> fcurves action).

(** The negotiation as the specification words it: the first mode of the
    chain that the host supports, and the last resort when none is. *)
Definition negotiate_spec (chain : list string) (last_resort : string)
  (supported : gset string) : string :=
  match list_find (fun mode => mode ∈ supported) chain with
  | Some (_, mode) => mode
  | None => last_resort
  end.

End SpaceScene.

(* ===================================================================== *)
(** * A host to evaluate the recipes on *)
(* ===================================================================== *)

Module ReferenceHost.

(** The checks the host applies to an assigned socket default. *)
Definition is_float (v : value) : bool :=
  match v with
  | VFloat _ => true
  | _ => false
  end.

Definition is_tuple (n : nat) (v : value) : bool :=
  match v with
  | VTuple xs => Nat.eqb (length xs) n
  | _ => false
  end.

Definition float_socket (name : string) (x : R) : Socket :=
  mkSocket name (VFloat x) is_float.

Definition color_socket (name : string) (c : list R) : Socket :=
  mkSocket name (VTuple c) (is_tuple 4).

Definition vector_socket (name : string) : Socket :=
  mkSocket name (VTuple [0; 0; 0]%R) (is_tuple 3).

(** A shader socket carries no default value. *)
Definition shader_socket (name : string) : Socket :=
  mkSocket name VNone (fun _ => false).

Definition enum_attr (current : string) (items : list string) : Attr :=
  mkAttr (VStr current)
         (fun v => match v with
                   | VStr s => bool_decide (s ∈ items)
                   | _ => false
                   end).

(** The sockets, attributes and colour ramps of the node types that the
    modelled recipes create, as the 4.x series of the host declares them
    (for the principled shader, the sockets that the scripts name); any
    other type yields a node without sockets. *)
Definition reference_node (type : string) : Node :=
  if String.eqb type "ShaderNodeOutputWorld" then
    mkNode type ∅ [shader_socket "Surface"; shader_socket "Volume"] [] None
  else if String.eqb type "ShaderNodeBackground" then
    mkNode type ∅
      [color_socket "Color" [0.8; 0.8; 0.8; 1]%R; float_socket "Strength" 1]
      ["Background"] None
  else if String.eqb type "ShaderNodeMixShader" then
    mkNode type ∅
      [float_socket "Fac" 0.5; shader_socket "Shader"; shader_socket "Shader"]
      ["Shader"] None
  else if String.eqb type "ShaderNodeEmission" then
    mkNode type ∅
      [color_socket "Color" [1; 1; 1; 1]%R; float_socket "Strength" 1]
      ["Emission"] None
  else if String.eqb type "ShaderNodeTexVoronoi" then
    mkNode type
      (<["feature" := enum_attr "F1"
           ["F1"; "F2"; "SMOOTH_F1"; "DISTANCE_TO_EDGE"; "N_SPHERE_RADIUS"]]>
       (<["distance" := enum_attr "EUCLIDEAN"
           ["EUCLIDEAN"; "MANHATTAN"; "CHEBYCHEV"; "MINKOWSKI"]]> ∅))
      [vector_socket "Vector"; float_socket "W" 0; float_socket "Scale" 5;
       float_socket "Detail" 0; float_socket "Roughness" 0.5;
       float_socket "Lacunarity" 2; float_socket "Smoothness" 1;
       float_socket "Exponent" 0.5; float_socket "Randomness" 1]
      ["Distance"; "Color"; "Position"; "W"; "Radius"] None
  else if String.eqb type "ShaderNodeValToRGB" then
    mkNode type ∅ [float_socket "Fac" 0.5] ["Color"; "Alpha"]
      (Some [mkRampElement 0 [0; 0; 0; 1]%R; mkRampElement 1 [1; 1; 1; 1]%R])
  else if String.eqb type "ShaderNodeTexCoord" then
    mkNode type ∅ []
      ["Generated"; "Normal"; "UV"; "Object"; "Camera"; "Window"; "Reflection"]
      None
  else if String.eqb type "ShaderNodeMath" then
    mkNode type
      (<["operation" := enum_attr "ADD"
           ["ADD"; "SUBTRACT"; "MULTIPLY"; "DIVIDE"; "POWER"]]> ∅)
      [float_socket "Value" 0.5; float_socket "Value" 0.5; float_socket "Value" 0.5]
      ["Value"] None
  else if String.eqb type "ShaderNodeOutputMaterial" then
    mkNode type ∅
      [shader_socket "Surface"; shader_socket "Volume";
       vector_socket "Displacement"] [] None
  else if String.eqb type "ShaderNodeBsdfPrincipled" then
    mkNode type ∅
      [color_socket "Base Color" [0.8; 0.8; 0.8; 1]%R; float_socket "Metallic" 0;
       float_socket "Roughness" 0.5; float_socket "IOR" 1.5;
       float_socket "Alpha" 1; vector_socket "Normal";
       float_socket "Specular IOR Level" 0.5]
      ["BSDF"] None
  else if String.eqb type "ShaderNodeTexNoise" then
    mkNode type ∅
      [vector_socket "Vector"; float_socket "W" 0; float_socket "Scale" 5;
       float_socket "Detail" 2; float_socket "Roughness" 0.5;
       float_socket "Lacunarity" 2; float_socket "Distortion" 0]
      ["Fac"; "Color"] None
  else if String.eqb type "ShaderNodeBump" then
    mkNode type ∅
      [float_socket "Strength" 1; float_socket "Distance" 1;
       float_socket "Height" 1; vector_socket "Normal"]
      ["Normal"] None
  else mkNode type ∅ [] [] None.

Definition reference_host : Host :=
  mkHost reference_node
         (ret ["CONSTANT"; "LINEAR"; "BEZIER"; "SINE"; "QUAD"; "CUBIC"; "QUART";
               "QUINT"; "EXPO"; "CIRC"; "BACK"; "BOUNCE"; "ELASTIC"])
         "BEZIER".

(** A file that holds one sphere at the origin, nothing selected, and a
    generator that keeps returning one half. *)
Definition reference_data : Data :=
  mkData [mkObject "Planet" (UVSphere 128 64 2) (0, 0, 0)%R (0, 0, 0)%R None []
                   Smooth [] None]
         [] [] None (fun _ => (1 / 2)%R).

End ReferenceHost.

Export ReferenceHost.

(* ===================================================================== *)
(** * The vocabulary of the statements *)
(* ===================================================================== *)

(** A principled shader of the 4.x series as far as the example of the
    specification goes: it has "Roughness" and neither spelling of
    "Specular". *)
Definition roughness_only : Node :=
  mkNode "ShaderNodeBsdfPrincipled" ∅ [float_socket "Roughness" 0.5] ["BSDF"] None.

(** A read-only attribute, and a struct that has just that one. *)
Definition read_only (v : value) : Attr := mkAttr v (fun _ => false).

Definition locked_struct : Struct := {["use_bloom" := read_only (VBool false)]}.

(** What distinguishes a node after [set_input] from the node before: at
    most the default value of the socket at position [i]. *)
Definition differs_at_most_at (i : nat) (node node' : Node) : Prop :=
  bl_idname node' = bl_idname node /\
  attrs node' = attrs node /\
  outputs node' = outputs node /\
  color_ramp node' = color_ramp node /\
  length (inputs node') = length (inputs node) /\
  sock_name <$> inputs node' = sock_name <$> inputs node /\
  forall j, j <> i -> inputs node' !! j = inputs node !! j.

(** A host whose interpolation enum cannot be read. *)
Definition opaque_host : Host :=
  mkHost reference_node (inl (AttributeError "bl_rna")) "BEZIER".

(** An action with one curve of two keyframes. *)
Definition two_key_action : Action :=
  mkAction [mkFCurve "location" 0
              [mkKeyframePoint (1%Z, 0%R) "BEZIER";
               mkKeyframePoint (300%Z, 1.5%R) "BEZIER"]].

(** The two ends of every link of a tree, in the order of the requests. *)
Definition wiring (t : NodeTree) : list (nat * nat) :=
  (fun l => (from_node l, to_node l)) <$> links t.

(** The types of the nodes of a tree, in the order of their creation. *)
Definition kinds (t : NodeTree) : list string := bl_idname <$> nodes t.

(** The node types that the starfield recipe asks the host for. *)
Definition starfield_types : list string :=
  ["ShaderNodeOutputWorld"; "ShaderNodeBackground"; "ShaderNodeMixShader";
   "ShaderNodeEmission"; "ShaderNodeTexVoronoi"; "ShaderNodeValToRGB";
   "ShaderNodeTexCoord"; "ShaderNodeMath"].

(** The wiring that the starfield recipe adds to a tree of [n] nodes. *)
Definition starfield_wiring (n : nat) : list (nat * nat) :=
  [(n + 6, n + 4); (n + 4, n + 5); (n + 5, n + 7); (n + 7, n + 2);
   (n + 1, n + 2); (n + 3, n + 2); (n + 2, n)].

(** What the recipe adds to a tree, whatever the tree held before. *)
Definition starfield_added (h : Host) (t t' : NodeTree) : Prop :=
  length (nodes t') = length (nodes t) + 8 /\
  kinds t' = kinds t ++ ((fun type => bl_idname (new_node h type)) <$> starfield_types) /\
  wiring t' = wiring t ++ starfield_wiring (length (nodes t)).

(** What both versions of the recipe leave in a tree that was clean: the
    eight nodes that the host made of [starfield_types], seven links wired
    as [starfield_wiring] says, and one of them into the output node, which
    is the first node created. *)
Definition starfield_topology (h : Host) (t : NodeTree) : Prop :=
  length (nodes t) = 8 /\ length (links t) = 7 /\
  kinds t = (fun type => bl_idname (new_node h type)) <$> starfield_types /\
  wiring t = starfield_wiring 0 /\ length (incoming t 0) = 1.

(** Key the rotation of an object at [frame]. *)
Definition key_rotation (h : Host) (frame : Z) (ob : Object) : Object :=
  set_animation_data
    (Some (mkAction
             (key_components h "rotation_euler" frame 0
                [vx (rotation_euler ob); vy (rotation_euler ob);
                 vz (rotation_euler ob)]
                match animation_data ob with
                | Some a => fcurves a
                | None => []
                end))) ob.

(** The curve of one component of the pivot's rotation: a keyframe of
    value 0 at the first frame of the scene and one of value [last] at the
    last frame. *)
Definition orbit_curve (h : Host) (index : nat) (last : R) : FCurve :=
  mkFCurve "rotation_euler" index
    [mkKeyframePoint (SpaceScene.frame_start SpaceScene.scene, 0%R)
                     (default_interpolation h);
     mkKeyframePoint (SpaceScene.frame_end SpaceScene.scene, last)
                     (default_interpolation h)].

(** The distance of a point from the axis through [axis], parallel to z. *)
Definition planar_radius (axis p : Vec) : R :=
  sqrt ((vx p - vx axis) * (vx p - vx axis) + (vy p - vy axis) * (vy p - vy axis)).

(** The value [random.uniform(a, b)] makes of the output [u]. *)
Definition uniform_value (ar : Arith) (a b u : R) : R :=
  fadd ar a (fmul ar (fsub ar b a) u).

(** What the arithmetic of the IEEE formats and of the C library
    guarantees, as far as the scatterers need it: rounding to a Python
    float is monotone, idempotent, exact on the integers up to 2^53 and
    within half a unit in the last place; storing in single precision is
    monotone and within half a unit in the last place of that format;
    cosine and sine are within 2^-52 of the true value; and twice
    [math.pi] lies between 0 and 8. *)
Definition conforming (ar : Arith) : Prop :=
  (forall x y, (x <= y)%R -> (rnd ar x <= rnd ar y)%R) /\
  (forall x, rnd ar (rnd ar x) = rnd ar x) /\
  (forall n : Z, (Z.abs n <= 2 ^ 53)%Z -> rnd ar (IZR n) = IZR n) /\
  (forall x, (Rabs x <= 2 ^ 20)%R ->
             (Rabs (rnd ar x - x) <= Rabs x / 2 ^ 53 + / 2 ^ 149)%R) /\
  (forall x y, (x <= y)%R -> (single ar x <= single ar y)%R) /\
  (forall x, (Rabs x <= 2 ^ 20)%R ->
             (Rabs (single ar x - x) <= Rabs x / 2 ^ 24 + / 2 ^ 149)%R) /\
  (forall a, (0 <= a <= 8)%R ->
             (Rabs (fcos ar a - cos a) <= / 2 ^ 52)%R /\
             (Rabs (fsin ar a - sin a) <= / 2 ^ 52)%R) /\
  (0 <= fmul ar 2 (fpi ar) <= 8)%R.

(** Arithmetic without rounding: the real numbers themselves. *)
Definition exact_arith : Arith :=
  mkArith (fun x => x) (fun x => x) cos sin PI.

(** A function given by a table at finitely many arguments, and by
    [other] elsewhere. *)
Fixpoint table (entries : list (R * R)) (other : R -> R) (x : R) : R :=
  match entries with
  | [] => other x
  | (k, v) :: rest => if Req_dec_T x k then v else table rest other x
  end.

(** The numbers of one pass of [add_asteroid_field] in the binary64
    arithmetic of the interpreter: [math.pi], a quarter of it, the cosine
    and the sine of that angle as the C library returns them, the two
    products with the radius 30 rounded to binary64, what single
    precision makes of both products, and the literals 0.2 and 0.8 with
    their difference. *)
Definition pi64 : R := 884279719003555 / 2 ^ 48.
Definition quarter_pi64 : R := 884279719003555 / 2 ^ 50.
Definition cos64 : R := 6369051672525773 / 2 ^ 53.
Definition sin64 : R := 6369051672525772 / 2 ^ 53.
Definition x64 : R := 5970985942992912 / 2 ^ 48.
Definition y64 : R := 5970985942992911 / 2 ^ 48.
Definition xy32 : R := 2780457 / 2 ^ 17.
Definition lit02 : R := 7205759403792794 / 2 ^ 55.
Definition lit08 : R := 7205759403792794 / 2 ^ 53.
Definition diff0802 : R := 5404319552844596 / 2 ^ 53.

(** The arithmetic of the interpreter and the host at the numbers of that
    pass; every other result of the pass is exact in binary64 and in single
    precision. *)
Definition sample_arith : Arith :=
  mkArith
    (table [(0.2, lit02); (0.8, lit08); (lit08 - lit02, diff0802);
            (30 * cos64, x64); (30 * sin64, y64)]%R (fun x => x))
    (table [(x64, xy32); (y64, xy32)] (fun x => x))
    (table [(quarter_pi64, cos64)] cos)
    (table [(quarter_pi64, sin64)] sin)
    pi64.

(** The same numbers in the binary formats themselves: the binary64
    number of mantissa [m] and exponent [e], what single precision makes
    of a binary64 number, rounding to nearest even, and the real number
    that a finite number of either format stands for. *)
Definition binary64 (m : positive) (e : Z) : PrimFloat.float :=
  FloatOps.SF2Prim (SpecFloat.S754_finite false m e).

Definition to_binary32 (f : PrimFloat.float) : SpecFloat.spec_float :=
  match FloatOps.Prim2SF f with
  | SpecFloat.S754_finite s m e =>
      SpecFloat.binary_normalize 24 128 (SpecFloat.cond_Zopp s (Zpos m)) e s
  | x => x
  end.

Definition float_value (x : SpecFloat.spec_float) : R :=
  match x with
  | SpecFloat.S754_finite s m e =>
      (IZR (SpecFloat.cond_Zopp s (Zpos m)) * powerRZ 2 e)%R
  | _ => 0%R
  end.

(** A generator whose second output of every four is an eighth and whose
    other outputs are 0, and the reference file with that generator. *)
Definition sample_draws (j : nat) : R :=
  if Nat.eqb (j mod 4) 1 then (/ 8)%R else 0%R.

Definition sample_data : Data :=
  mkData (objects reference_data) (materials reference_data)
         (textures reference_data) (active_object reference_data) sample_draws.

(** An object without its name, which the host decides. *)
Definition anonymous (ob : Object) : Object := set_name "" ob.

(** The placement record of an object: where it is and what it is. *)
Definition placement (ob : Object) : Vec * Primitive :=
  (location ob, primitive ob).

(** The rock that one pass of [add_asteroid_field] makes of the next four
    outputs of the generator, without its name. *)
Definition flyby_rock (ar : Arith) (mat : nat) (inner outer : R) (e : nat -> R)
  : Object :=
  let r := uniform_value ar inner outer (e 0) in
  let ang := uniform_value ar 0 (fmul ar 2 (fpi ar)) (e 1) in
  let z := uniform_value ar (-5) 5 (e 2) in
  let size := uniform_value ar (rnd ar 0.2) (rnd ar 0.8) (e 3) in
  mkObject "" (IcoSphere 1 size)
           (single ar (fmul ar r (fcos ar ang)),
            single ar (fmul ar r (fsin ar ang)),
            single ar z)
           origin None [mat] Flat [] None.

(** The asteroid that one pass of [create_asteroid_field] makes of the
    next four outputs of the generator, with the texture [tex] and without
    its name. *)
Definition scene_asteroid (ar : Arith) (mat : nat) (inner outer zrange : R)
  (tex : string) (e : nat -> R) : Object :=
  let ang := uniform_value ar 0 (fmul ar 2 (fpi ar)) (e 0) in
  let rad := uniform_value ar inner outer (e 1) in
  let dz := uniform_value ar (- zrange) zrange (e 2) in
  let scale := uniform_value ar (rnd ar 0.1) (rnd ar 0.4) (e 3) in
  mkObject "" (IcoSphere 2 scale)
           (single ar (fadd ar (vx SpaceScene.PLANET_LOC) (fmul ar rad (fcos ar ang))),
            single ar (fadd ar (vy SpaceScene.PLANET_LOC) (fmul ar rad (fsin ar ang))),
            single ar (fadd ar (vz SpaceScene.PLANET_LOC) dz))
           origin None [mat] Smooth [(tex, single ar (fmul ar scale 0.5))] None.

(** The objects that [count] passes make, pass [i] from its own four
    outputs. *)
Fixpoint scatter (record : nat -> (nat -> R) -> Object) (start count : nat)
  (e : nat -> R) : list Object :=
  match count with
  | O => []
  | S count' =>
      record start e :: scatter record (S start) count' (fun j => e (4 + j))
  end.

(** The state after one call of [random.random()]. *)
Definition advance (d : Data) : Data :=
  mkData (objects d) (materials d) (textures d) (active_object d)
         (fun i => entropy d (S i)).

(** What the scatterers promise of one record: a radius, an angle, a
    height and a size drawn inside their ranges; the position is the polar
    point of radius and angle, computed in Python floats and stored in
    single precision, so its distance from the axis is the radius up to
    the rounding of those steps. *)
Definition drawn (ar : Arith) (axis : Vec) (inner outer hlo hhi slo shi : R)
  (ob : Object) : Prop :=
  exists r ang z size subdivisions,
    (inner <= r <= outer)%R /\ (0 <= ang <= fmul ar 2 (fpi ar))%R /\
    (hlo <= z <= hhi)%R /\ (slo <= size <= shi)%R /\
    location ob = (single ar (fmul ar r (fcos ar ang)),
                   single ar (fmul ar r (fsin ar ang)),
                   single ar z) /\
    primitive ob = IcoSphere subdivisions size /\
    (Rabs (planar_radius axis (location ob) - r) <= r / 2 ^ 22)%R.

(** What a scatterer leaves in the file: [count] new objects after the
    ones that were there, each drawn as above and so inside the annulus up
    to rounding, the placement of record [k] made of the outputs [4 * k] to
    [4 * k + 3] of the generator and of nothing else, and the generator
    advanced by [4 * count] outputs. *)
Definition scattered (ar : Arith) (axis : Vec)
  (inner outer hlo hhi slo shi : R) (count : nat) (e : nat -> R)
  (record : (nat -> R) -> Vec * Primitive) (before : list Object) (d' : Data)
  : Prop :=
  exists made,
    objects d' = before ++ made /\
    length made = count /\
    Forall (fun ob =>
              (inner * (1 - / 2 ^ 22) <= planar_radius axis (location ob)
               <= outer * (1 + / 2 ^ 22))%R) made /\
    Forall (drawn ar axis inner outer hlo hhi slo shi) made /\
    (forall k, k < count ->
       exists e_k ob, (forall j, e_k j = e (4 * k + j)) /\
                      made !! k = Some ob /\ placement ob = record e_k) /\
    (forall j, entropy d' j = e (4 * count + j)).

(* ===================================================================== *)
(** * space_scene.py: the remaining recipes and helpers *)
(* ===================================================================== *)

Module SceneRecipes.

Definition NEBULA_SIZE : R := 120.0.
Definition SUN_TEMP_K : R := 5800.

(** [node.color_ramp.elements[i]], kept for a later assignment. *)
Definition ramp_element (n i : nat) : M (nat * nat) :=
  node <- get_node n ;;
  match color_ramp node with
  | None => sraise (AttributeError "color_ramp")
  | Some elements =>
      match elements !! i with
      | None => sraise (IndexError i)
      | Some _ => sret (n, i)
      end
  end.

(** [add_uv_sphere(name, radius, location)]. *)
Definition add_uv_sphere (s : string) (radius : R) (loc : Vec) : Op nat :=
  primitive_uv_sphere_add 128 64 radius loc ;;
  obj <- context_active_object ;;
  update_object obj (set_name s) ;;
  shade_smooth ;;
  sret obj.



(** [gas_giant_material()]. *)
Definition gas_giant_material (h : Host) : Op nat :=
  mat <- materials_new "GasGiantMaterial" ;;
  on_node_tree mat
    (nodes_clear ;;
     out <- nodes_new h "ShaderNodeOutputMaterial" ;;
     princ <- nodes_new h "ShaderNodeBsdfPrincipled" ;;
     SpaceScene.set_input_of princ ["Specular"; "Specular IOR Level"] (VFloat 0.1) ;;
     SpaceScene.set_input_of princ ["Roughness"] (VFloat 0.7) ;;

     texcoord <- nodes_new h "ShaderNodeTexCoord" ;;
     mapping <- nodes_new h "ShaderNodeMapping" ;;
     (s <- input_named mapping "Rotation" ;;
      set_default s (VTuple [0; 0; radians 90]%R)) ;;
     wave <- nodes_new h "ShaderNodeTexWave" ;;
     set_node_attr wave "wave_type" (VStr "BANDS") ;;
     set_node_attr wave "bands_direction" (VStr "Z") ;;
     (s <- input_named wave "Scale" ;; set_default s (VFloat 2.5)) ;;
     (s <- input_named wave "Distortion" ;; set_default s (VFloat 0.4)) ;;

     ramp <- nodes_new h "ShaderNodeValToRGB" ;;
     c0 <- ramp_element ramp 0 ;;
     c1 <- ramp_element ramp 1 ;;
     set_ramp_element (fst c0) (snd c0) (set_color [0.8; 0.6; 0.4; 1]%R) ;;
     set_ramp_element (fst c1) (snd c1) (set_color [0.4; 0.3; 0.2; 1]%R) ;;

     (a <- output_named texcoord "Object" ;; b <- input_named mapping "Vector" ;;
      links_new a b) ;;
     (a <- output_named mapping "Vector" ;; b <- input_named wave "Vector" ;;
      links_new a b) ;;
     (a <- output_named wave "Color" ;; b <- input_named ramp "Fac" ;;
      links_new a b) ;;
     (a <- output_named ramp "Color" ;; b <- input_named princ "Base Color" ;;
      links_new a b) ;;
     (a <- output_named princ "BSDF" ;; b <- input_named out "Surface" ;;
      links_new a b)) ;;
  sret mat.

(** [add_sun(name, radius, location, kelvin)]. *)
Definition add_sun (h : Host) (s : string) (radius : R) (loc : Vec) (kelvin : R)
  : Op nat :=
  primitive_uv_sphere_add 96 48 radius loc ;;
  sun <- context_active_object ;;
  update_object sun (set_name s) ;;
  shade_smooth ;;

  mat <- materials_new (s +:+ "_Mat") ;;
  on_node_tree mat
    (nodes_clear ;;
     out <- nodes_new h "ShaderNodeOutputMaterial" ;;
     emit <- nodes_new h "ShaderNodeEmission" ;;
     bb <- nodes_new h "ShaderNodeBlackbody" ;;
     (s <- input_named bb "Temperature" ;; set_default s (VFloat kelvin)) ;;
     (s <- input_named emit "Strength" ;; set_default s (VFloat 10.0)) ;;

     (a <- output_named bb "Color" ;; b <- input_named emit "Color" ;;
      links_new a b) ;;
     (a <- output_named emit "Emission" ;; b <- input_named out "Surface" ;;
      links_new a b)) ;;
  update_object sun (append_material mat) ;;
  sret sun.

Definition set_location (v : Vec) (ob : Object) : Object :=
  mkObject (name ob) (primitive ob) v (rotation_euler ob) (parent ob)
           (material_slots ob) (shading ob) (displacement ob) (animation_data ob).

(** [setattr(obj, attr, vec)] for the two vector properties of an object
    that the model carries; the host knows no other attribute here. *)
Definition object_setattr (attr : string) (vec : Vec) (ob : Object)
  : result Object :=
  if String.eqb attr "location" then ret (set_location vec ob)
  else if String.eqb attr "rotation_euler" then ret (set_rotation_euler vec ob)
  else raise (AttributeError attr).

(** [keyframe_vec(obj, attr, frame, vec)]. *)
Definition keyframe_vec (h : Host) (obj : nat) (attr : string) (frame : Z)
  (vec : Vec) : Op unit :=
  (ob <- get_object obj ;;
   ob' <- lift (object_setattr attr vec ob) ;;
   update_object obj (fun _ => ob')) ;;
  keyframe_insert h obj attr frame.

(** The engine identifier that the script prefers among the ones the
    host offers. *)
Definition eevee_id (engine_items : gset string) : option string :=
  if decide ("BLENDER_EEVEE_NEXT" ∈ engine_items) then Some "BLENDER_EEVEE_NEXT"
  else if decide ("BLENDER_EEVEE" ∈ engine_items) then Some "BLENDER_EEVEE"
  else None.

(** The settings structs that the engine block writes to. *)
Record RenderState : Type := mkRenderState {
  render : Struct;
  eevee : Struct;
  cycles : Struct
}.

(** The engine block of the script: [if USE_EEVEE and EEVEE_ID: ... else:
    ...]. *)
Definition select_engine (use_eevee : bool) (engine_items : gset string)
  (s : RenderState) : result RenderState :=
  match (if use_eevee then eevee_id engine_items else None) with
  | Some id =>
      bind (setattr (render s) "engine" (VStr id)) (fun r =>
      bind (safe_set (eevee s) "use_bloom" (VBool true)) (fun ee =>
      bind (safe_set ee "bloom_intensity" (VFloat 0.04)) (fun ee =>
      bind (safe_set ee "use_gtao" (VBool true)) (fun ee =>
      bind (safe_set ee "volumetric_end" (VFloat (NEBULA_SIZE * 1.2))) (fun ee =>
      bind (safe_set ee "volumetric_start" (VFloat 0.1)) (fun ee =>
      ret (mkRenderState r ee (cycles s))))))))
  | None =>
      bind (setattr (render s) "engine" (VStr "CYCLES")) (fun r =>
      bind (safe_set (cycles s) "samples" (VFloat 128)) (fun cy =>
      bind (safe_set cy "use_adaptive_sampling" (VBool true)) (fun cy =>
      ret (mkRenderState r (eevee s) cy))))
  end.

End SceneRecipes.

(* ===================================================================== *)
(** * grand_flyby.py: the remaining recipes and helpers *)
(* ===================================================================== *)

Module FlybyRecipes.

Definition NEBULA_SIZE : R := 600.0.

(** [add_uv_sphere(name, radius, location)]. *)
Definition add_uv_sphere (s : string) (radius : R) (loc : Vec) : Op nat :=
  primitive_uv_sphere_add 128 64 radius loc ;;
  obj <- context_active_object ;;
  update_object obj (set_name s) ;;
  shade_smooth ;;
  sret obj.

(** [gas_giant_material()]. *)
Definition gas_giant_material (h : Host) : Op nat :=
  mat <- materials_new "GasGiant" ;;
  on_node_tree mat
    (nodes_clear ;;
     out <- nodes_new h "ShaderNodeOutputMaterial" ;;
     princ <- nodes_new h "ShaderNodeBsdfPrincipled" ;;
     texcoord <- nodes_new h "ShaderNodeTexCoord" ;;
     mapping <- nodes_new h "ShaderNodeMapping" ;;
     noise <- nodes_new h "ShaderNodeTexNoise" ;;
     (s <- input_named noise "Scale" ;; set_default s (VFloat 3.0)) ;;
     ramp <- nodes_new h "ShaderNodeValToRGB" ;;
     set_ramp_element ramp 0 (set_color [0.6; 0.3; 0.1; 1]%R) ;;
     set_ramp_element ramp 1 (set_color [0.9; 0.6; 0.2; 1]%R) ;;
     (a <- output_named texcoord "Object" ;; b <- input_named mapping "Vector" ;;
      links_new a b) ;;
     (a <- output_named mapping "Vector" ;; b <- input_named noise "Vector" ;;
      links_new a b) ;;
     (a <- output_named noise "Fac" ;; b <- input_named ramp "Fac" ;;
      links_new a b) ;;
     (a <- output_named ramp "Color" ;; b <- input_named princ "Base Color" ;;
      links_new a b) ;;
     (a <- output_named princ "BSDF" ;; b <- input_named out "Surface" ;;
      links_new a b)) ;;
  sret mat.


(** [add_sun(name, radius, location, kelvin)]. *)
Definition add_sun (h : Host) (s : string) (radius : R) (loc : Vec) (kelvin : R)
  : Op nat :=
  primitive_uv_sphere_add 96 48 radius loc ;;
  sun <- context_active_object ;;
  update_object sun (set_name s) ;;
  shade_smooth ;;
  mat <- materials_new (s +:+ "_Mat") ;;
  on_node_tree mat
    (nodes_clear ;;
     out <- nodes_new h "ShaderNodeOutputMaterial" ;;
     emit <- nodes_new h "ShaderNodeEmission" ;;
     bb <- nodes_new h "ShaderNodeBlackbody" ;;
     (s <- input_named bb "Temperature" ;; set_default s (VFloat kelvin)) ;;
     (s <- input_named emit "Strength" ;; set_default s (VFloat 15.0)) ;;
     (a <- output_named bb "Color" ;; b <- input_named emit "Color" ;;
      links_new a b) ;;
     (a <- output_named emit "Emission" ;; b <- input_named out "Surface" ;;
      links_new a b)) ;;
  update_object sun (append_material mat) ;;
  sret sun.

(** The engine block of the script. *)
Definition select_engine (use_eevee : bool) (engine_items : gset string)
  (s : SceneRecipes.RenderState) : result SceneRecipes.RenderState :=
  match (if use_eevee then SceneRecipes.eevee_id engine_items else None) with
  | Some id =>
      bind (setattr (SceneRecipes.render s) "engine" (VStr id)) (fun r =>
      bind (safe_set (SceneRecipes.eevee s) "use_bloom" (VBool true)) (fun ee =>
      bind (safe_set ee "bloom_intensity" (VFloat 0.05)) (fun ee =>
      bind (safe_set ee "volumetric_end" (VFloat (NEBULA_SIZE * 1.5))) (fun ee =>
      ret (SceneRecipes.mkRenderState r ee (SceneRecipes.cycles s))))))
  | None =>
      bind (setattr (SceneRecipes.render s) "engine" (VStr "CYCLES")) (fun r =>
      ret (SceneRecipes.mkRenderState r (SceneRecipes.eevee s)
                                      (SceneRecipes.cycles s)))
  end.

End FlybyRecipes.

(* ===================================================================== *)
(** * The world of the scene, and the camera path *)
(* ===================================================================== *)

Module WorldSetup.

(** A world data block. *)
Record World : Type := mkWorld {
  world_use_nodes : bool;
  world_tree : NodeTree
}.

(** The file as [clean_scene] sees it: the data of [Data], the worlds by
    name, and the world of the scene. *)
Record Blend : Type := mkBlend {
  blend_data : Data;
  worlds : gmap string World;
  scene_world : option string
}.

(** [select_all(action='SELECT')] followed by [delete(...)]: the host
    decides which objects these operators reach and what they leave of the
    data, and it may refuse them; [purge] is what it does. *)
Definition delete_selected (purge : Data -> result Data) : St Blend unit :=
  fun b =>
    match purge (blend_data b) with
    | inl e => inl e
    | inr d => inr (tt, mkBlend d (worlds b) (scene_world b))
    end.

(** [bpy.data.worlds.get(name)]. *)
Definition worlds_get (s : string) : St Blend (option string) :=
  fun b =>
    match worlds b !! s with
    | Some _ => inr (Some s, b)
    | None => inr (None, b)
    end.

(** [bpy.data.worlds.new(name)], called when no world has that name. *)
Definition worlds_new (s : string) : St Blend string :=
  fun b =>
    inr (s, mkBlend (blend_data b)
                    (<[s := mkWorld false (mkNodeTree [] [])]> (worlds b))
                    (scene_world b)).

Definition set_scene_world (w : string) : St Blend unit :=
  fun b => inr (tt, mkBlend (blend_data b) (worlds b) (Some w)).

(** Run statements on the node tree of world [w], which [use_nodes = True]
    has given one. *)
Definition on_world_tree {A : Type} (w : string) (body : M A) : St Blend A :=
  fun b =>
    match worlds b !! w with
    | None => inl ReferenceError
    | Some world =>
        match body (world_tree world) with
        | inl e => inl e
        | inr (a, t) =>
            inr (a, mkBlend (blend_data b) (<[w := mkWorld true t]> (worlds b))
                            (scene_world b))
        end
    end.

(** [clean_scene()] of both scripts. *)
Definition clean_scene (purge : Data -> result Data) : St Blend unit :=
  delete_selected purge ;;
  found <- worlds_get "World" ;;
  w <- match found with
       | Some w => sret w
       | None => worlds_new "World"
       end ;;
  set_scene_world w ;;
  on_world_tree w nodes_clear.

(** [build(scene.world)]. *)
Definition on_scene_world (build : M unit) : St Blend unit :=
  fun b =>
    match scene_world b with
    | None => inl (AttributeError "node_tree")
    | Some w => on_world_tree w build b
    end.

(** The opening of grand_flyby.py: [clean_scene()], then
    [build_starfield_world(scene.world)]. *)
Definition flyby_world (purge : Data -> result Data) (h : Host)
  : St Blend unit :=
  clean_scene purge ;;
  on_scene_world
    (GrandFlyby.build_starfield_world h GrandFlyby.STAR_SCALE GrandFlyby.STAR_SPREAD).

(** The same two steps of space_scene.py. *)
Definition scene_world_setup (purge : Data -> result Data) (h : Host)
  : St Blend unit :=
  clean_scene purge ;;
  on_scene_world
    (SpaceScene.build_starfield_world h SpaceScene.STAR_SCALE SpaceScene.STAR_SPREAD).

End WorldSetup.

Module CameraPath.

(** A control point of a Bezier spline. *)
Record BezierPoint : Type := mkBezierPoint {
  bp_co : Vec;
  handle_left_type : string;
  handle_right_type : string
}.

(** A curve object with its data. *)
Record Curve : Type := mkCurve {
  curve_name : string;
  curve_location : Vec;
  splines : list (list BezierPoint);
  resolution_u : Z;
  use_path : bool;
  path_duration : Z
}.

(** What the host decides: the curve that
    [primitive_bezier_curve_add(location=...)] creates, and the point that
    [bezier_points.add(1)] appends. *)
Record CurveHost : Type := mkCurveHost {
  primitive_bezier_curve : Vec -> Curve;
  fresh_point : BezierPoint
}.

(** [spline.bezier_points[i]] updated by [f]. *)
Definition set_point (i : nat) (f : BezierPoint -> BezierPoint)
  (pts : list BezierPoint) : result (list BezierPoint) :=
  match pts !! i with
  | Some p => ret (<[i := f p]> pts)
  | None => raise (IndexError i)
  end.

Definition set_co (v : Vec) (p : BezierPoint) : BezierPoint :=
  mkBezierPoint v (handle_left_type p) (handle_right_type p).

Definition set_handle_left (s : string) (p : BezierPoint) : BezierPoint :=
  mkBezierPoint (bp_co p) s (handle_right_type p).

Definition set_handle_right (s : string) (p : BezierPoint) : BezierPoint :=
  mkBezierPoint (bp_co p) (handle_left_type p) s.

(** [spline.bezier_points.add(1)]. *)
Definition points_add (ch : CurveHost) (pts : list BezierPoint)
  : list BezierPoint :=
  pts ++ [fresh_point ch].

(** [build_camera_path(start, mid, end)] of grand_flyby.py. *)
Definition build_camera_path (ch : CurveHost) (start mid end_ : Vec)
  : result Curve :=
  let path := primitive_bezier_curve ch start in
  match splines path !! 0 with
  | None => raise (IndexError 0)
  | Some spline =>
      bind (set_point 0 (set_co start) spline) (fun spline =>
      bind (set_point 0 (set_handle_left "AUTO") spline) (fun spline =>
      bind (set_point 0 (set_handle_right "AUTO") spline) (fun spline =>
      let spline := points_add ch spline in
      bind (set_point 1 (set_co mid) spline) (fun spline =>
      bind (set_point 1 (set_handle_left "AUTO") spline) (fun spline =>
      bind (set_point 1 (set_handle_right "AUTO") spline) (fun spline =>
      let spline := points_add ch spline in
      bind (set_point 2 (set_co end_) spline) (fun spline =>
      bind (set_point 2 (set_handle_left "AUTO") spline) (fun spline =>
      bind (set_point 2 (set_handle_right "AUTO") spline) (fun spline =>
      ret (mkCurve "FlyPath" (curve_location path)
                   (<[0 := spline]> (splines path))
                   64 true GrandFlyby.FRAME_END))))))))))
  end.

End CameraPath.

(* ===================================================================== *)
(** * A host for the remaining recipes *)
(* ===================================================================== *)

Module FullHost.

(** The node types that the remaining recipes create and
    [reference_node] does not know, as the 4.x series of the host declares
    them. *)
Definition full_node (type : string) : Node :=
  if String.eqb type "ShaderNodeMapping" then
    mkNode type ∅
      [vector_socket "Vector"; vector_socket "Location"; vector_socket "Rotation";
       vector_socket "Scale"]
      ["Vector"] None
  else if String.eqb type "ShaderNodeTexWave" then
    mkNode type
      (<["wave_type" := enum_attr "BANDS" ["BANDS"; "RINGS"]]>
       (<["bands_direction" := enum_attr "X" ["X"; "Y"; "Z"; "DIAGONAL"]]>
        (<["rings_direction" := enum_attr "X" ["X"; "Y"; "Z"; "SPHERICAL"]]> ∅)))
      [vector_socket "Vector"; float_socket "Scale" 5; float_socket "Distortion" 0;
       float_socket "Detail" 2; float_socket "Detail Scale" 1;
       float_socket "Detail Roughness" 0.5; float_socket "Phase Offset" 0]
      ["Color"; "Fac"] None
  else if String.eqb type "ShaderNodeMixRGB" then
    mkNode type
      (<["blend_type" := enum_attr "MIX" ["MIX"; "ADD"; "MULTIPLY"; "SUBTRACT"]]> ∅)
      [float_socket "Fac" 0.5; color_socket "Color1" [0.5; 0.5; 0.5; 1]%R;
       color_socket "Color2" [0.5; 0.5; 0.5; 1]%R]
      ["Color"] None
  else if String.eqb type "ShaderNodeBsdfTransparent" then
    mkNode type ∅ [color_socket "Color" [1; 1; 1; 1]%R] ["BSDF"] None
  else if String.eqb type "ShaderNodeBlackbody" then
    mkNode type ∅ [float_socket "Temperature" 1500] ["Color"] None
  else reference_node type.

Definition full_host : Host :=
  mkHost full_node (interpolation_enum reference_host)
         (default_interpolation reference_host).

(** The bezier primitive of the host: one spline of two points, one unit
    left and right of the object's origin. *)
Definition reference_curve_host : CameraPath.CurveHost :=
  CameraPath.mkCurveHost
    (fun loc =>
       CameraPath.mkCurve "BezierCurve" loc
         [[CameraPath.mkBezierPoint (-1, 0, 0)%R "ALIGNED" "ALIGNED";
           CameraPath.mkBezierPoint (1, 0, 0)%R "ALIGNED" "ALIGNED"]]
         12 false 100)
    (CameraPath.mkBezierPoint (0, 0, 0)%R "FREE" "FREE").

End FullHost.

(* ===================================================================== *)
(** * The vocabulary of the further statements *)
(* ===================================================================== *)

(** A path of one or more links in a wiring. *)
Inductive linked (w : list (nat * nat)) : nat -> nat -> Prop :=
| linked_once a b : (a, b) ∈ w -> linked w a b
| linked_more a b c : (a, b) ∈ w -> linked w b c -> linked w a c.

(** What makes the wiring of [n] nodes a sound material graph with output
    node 0: every link joins two nodes of the graph, no node feeds itself,
    every node feeds the output, exactly one link enters the output and
    none leaves it. *)
Definition sound_graph (n : nat) (w : list (nat * nat)) : Prop :=
  Forall (fun e => fst e < n /\ snd e < n) w /\
  (forall a, ~ linked w a a) /\
  (forall a, a < n -> a = 0 \/ linked w a 0) /\
  (exists a, filter (fun e => snd e = 0) w = [(a, 0)]) /\
  filter (fun e => fst e = 0) w = [].

(** The tree that a recipe makes of the node types [types], wired as [w]. *)
Definition recipe_tree (h : Host) (types : list string) (w : list (nat * nat))
  (t : NodeTree) : Prop :=
  kinds t = (fun type => bl_idname (new_node h type)) <$> types /\
  length (nodes t) = length types /\
  wiring t = w /\ length (links t) = length w.

(** The file [d'] is the file [d] with one more material, of name [s] and
    tree [t], and nothing else changed. *)
Definition adds_material (s : string) (t : NodeTree) (d d' : Data) : Prop :=
  objects d' = objects d /\
  materials d' = materials d ++ [mkMaterial s true t] /\
  textures d' = textures d /\ active_object d' = active_object d /\
  entropy d' = entropy d.

(** Node [b] is reached from [a] over at most [fuel] further links. *)
Fixpoint reach (fuel : nat) (w : list (nat * nat)) (a b : nat) : bool :=
  existsb (fun e => if Nat.eqb (fst e) a
                    then if Nat.eqb (snd e) b then true
                         else match fuel with
                              | O => false
                              | S fuel' => reach fuel' w (snd e) b
                              end
                    else false) w.

(** A test of [sound_graph] by the ranks [ranks] of the nodes. *)
Definition check_graph (n : nat) (ranks : list nat) (w : list (nat * nat)) : bool :=
  forallb (fun e => Nat.ltb (fst e) n && Nat.ltb (snd e) n) w &&
  forallb (fun e => match ranks !! fst e, ranks !! snd e with
                    | Some x, Some y => Nat.ltb x y
                    | _, _ => false
                    end) w &&
  forallb (fun a => Nat.eqb a 0 || reach n w a 0) (seq 0 n) &&
  Nat.eqb (length (filter (fun e => snd e = 0) w)) 1 &&
  Nat.eqb (length (filter (fun e => fst e = 0) w)) 0.













Definition sun_types : list string :=
  ["ShaderNodeOutputMaterial"; "ShaderNodeEmission"; "ShaderNodeBlackbody"].

Definition sun_wiring : list (nat * nat) := [(2, 1); (1, 0)].

(** The sphere that [add_uv_sphere] and [add_sun] leave in the file. *)
Definition new_sphere (s : string) (segments ring_count : nat) (radius : R)
  (loc : Vec) (slots : list nat) : Object :=
  mkObject s (UVSphere segments ring_count radius) loc origin None slots Smooth
           [] None.



(* ===================================================================== *)
(** * More vocabulary: what the remaining helpers leave in the file *)
(* ===================================================================== *)

(** The handle that is active after [count] objects were added. *)
Definition active_after (d : Data) (count : nat) : option nat :=
  match count with
  | O => active_object d
  | S c => Some (length (objects d) + c)
  end.



(** Key the location of an object at [frame]. *)
Definition key_location (h : Host) (frame : Z) (ob : Object) : Object :=
  set_animation_data
    (Some (mkAction
             (key_components h "location" frame 0
                [vx (location ob); vy (location ob); vz (location ob)]
                match animation_data ob with
                | Some a => fcurves a
                | None => []
                end))) ob.

(** The curve of component [index] of a location with the keyframes
    [keys], frame and value. *)
Definition location_curve (h : Host) (index : nat) (keys : list (Z * R))
  : FCurve :=
  mkFCurve "location" index
    ((fun k => mkKeyframePoint k (default_interpolation h)) <$> keys).

(** An object that was moved to [v1] and keyed at [f1], then moved to [v2]
    and keyed at [f2]. *)
Definition travels (h : Host) (f1 f2 : Z) (v1 v2 : Vec) (ob : Object) : Object :=
  set_animation_data
    (Some (mkAction [location_curve h 0 [(f1, vx v1); (f2, vx v2)];
                     location_curve h 1 [(f1, vy v1); (f2, vy v2)];
                     location_curve h 2 [(f1, vz v1); (f2, vz v2)]]))
    (SceneRecipes.set_location v2 ob).

(** An object that was moved and keyed twice at the same frame [f]: the
    second keyframe has replaced the first. *)
Definition rekeyed (h : Host) (f : Z) (v2 : Vec) (ob : Object) : Object :=
  set_animation_data
    (Some (mkAction [location_curve h 0 [(f, vx v2)];
                     location_curve h 1 [(f, vy v2)];
                     location_curve h 2 [(f, vz v2)]]))
    (SceneRecipes.set_location v2 ob).


(** The engine that the engine block of the scripts goes for: the
    preferred Eevee when the script wants Eevee and the host offers one,
    Cycles otherwise. *)
Definition engine_pick (use_eevee : bool) (engine_items : gset string) : string :=
  match (if use_eevee then SceneRecipes.eevee_id engine_items else None) with
  | Some id => id
  | None => "CYCLES"
  end.

(** What an engine block [out] owes the render settings [s], given
    whether the host's setter accepts the engine the block goes for: when
    it does, the engine is set to it, no other render attribute changes,
    the settings of the engine not chosen are untouched and the settings of
    the chosen one keep their attributes; when it does not, the block fails
    with the setter's type error. *)
Definition selects (use_eevee : bool) (engine_items : gset string)
  (s : SceneRecipes.RenderState) (accepted : bool)
  (out : result SceneRecipes.RenderState) : Prop :=
  let id := engine_pick use_eevee engine_items in
  if accepted then
    exists s',
      out = inr s' /\
      attr_value <$> SceneRecipes.render s' !! "engine" = Some (VStr id) /\
      (forall k, k <> "engine" ->
                 SceneRecipes.render s' !! k = SceneRecipes.render s !! k) /\
      dom (SceneRecipes.eevee s') = dom (SceneRecipes.eevee s) /\
      dom (SceneRecipes.cycles s') = dom (SceneRecipes.cycles s) /\
      (id = "CYCLES" -> SceneRecipes.eevee s' = SceneRecipes.eevee s) /\
      (id <> "CYCLES" -> SceneRecipes.cycles s' = SceneRecipes.cycles s)
  else out = inl TypeError.

(** The engine attribute of a host whose setter accepts the identifiers
    [accepted], and render settings with that attribute and the engine
    settings [ee] and [cy]. *)
Definition engine_attr (accepted : list string) (current : string) : Attr :=
  mkAttr (VStr current)
         (fun v => match v with
                   | VStr s => bool_decide (s ∈ accepted)
                   | _ => false
                   end).

Definition render_settings (accepted : list string) (current : string)
  (ee cy : Struct) : SceneRecipes.RenderState :=
  SceneRecipes.mkRenderState {["engine" := engine_attr accepted current]} ee cy.

(** A control point at [v] with automatic handles. *)
Definition auto_point (v : Vec) : CameraPath.BezierPoint :=
  CameraPath.mkBezierPoint v "AUTO" "AUTO".

(** The file with no world, holding the reference data. *)
Definition reference_blend : WorldSetup.Blend :=
  WorldSetup.mkBlend reference_data ∅ None.

(** A host on which [select_all] and [delete] reach every object. *)
Definition reference_purge (d : Data) : result Data :=
  inr (mkData [] (materials d) (textures d) None (entropy d)).

(* ===================================================================== *)
(** * grand_flyby.py: the bodies of the scene *)
(* ===================================================================== *)

Module FlybyScript.

Definition SUN_TEMP_K : R := 6500.




End FlybyScript.

(* ===================================================================== *)
(** * The best-effort setters *)
(* ===================================================================== *)

Module HelpersFacts.

Lemma inputs_get_None (node : Node) (name : string) :
  inputs_get node name = None <-> name ∉ input_names node.
Proof.
  unfold inputs_get, input_names. rewrite list_find_None, Forall_forall.
  rewrite elem_of_list_to_set, list_elem_of_fmap. split.
  - intros H [s [-> Hs]]. by apply (H s).
  - intros H s Hs Heq. apply H. by exists s.
Qed.

Lemma inputs_get_Some (node : Node) (name : string) (i : nat) (sock : Socket) :
  inputs_get node name = Some (i, sock) ->
  inputs node !! i = Some sock /\ sock_name sock = name /\
  name ∈ input_names node /\
  forall j s, inputs node !! j = Some s -> j < i -> sock_name s <> name.
Proof.
  unfold inputs_get. intros H. apply list_find_Some in H as (Hi & Hn & Hmin).
  repeat split; try done.
  unfold input_names. rewrite elem_of_list_to_set, list_elem_of_fmap.
  exists sock. split; [done|]. by eapply list_elem_of_lookup_2.
Qed.

(** The loop of [set_input] acts on the resolved name alone. *)
Lemma set_input_resolve (node : Node) (names : list string) (v : value) :
  set_input node names v =
  match resolve node names with
  | None => ret node
  | Some name => set_input node [name] v
  end.
Proof.
  induction names as [|name names IH]; simpl; [done|].
  destruct (inputs_get node name) as [[i sock]|] eqn:E; simpl.
  - by rewrite E.
  - apply IH.
Qed.

Lemma resolve_refines_spec (node : Node) (names : list string) :
  resolve node names = resolve_spec (input_names node) names.
Proof.
  unfold resolve_spec. induction names as [|name names IH]; simpl; [done|].
  destruct (inputs_get node name) as [p|] eqn:E.
  - destruct p as [i sock]. apply inputs_get_Some in E as (_ & _ & Hin & _).
    by rewrite decide_True.
  - apply inputs_get_None in E. rewrite decide_False by done.
    rewrite IH. by destruct (list_find _ names) as [[? ?]|].
Qed.

Lemma resolve_Some (node : Node) (names : list string) (name : string) :
  resolve node names = Some name <->
  exists before after,
    names = before ++ name :: after /\ name ∈ input_names node /\
    Forall (fun n => n ∉ input_names node) before.
Proof.
  induction names as [|n names IH]; simpl.
  - split; [done|]. intros (before & after & H & _). by destruct before.
  - destruct (inputs_get node n) as [p|] eqn:E.
    + destruct p as [i sock]. apply inputs_get_Some in E as (_ & _ & Hin & _).
      split.
      * intros [= <-]. by exists [], names.
      * intros (before & after & H & Hname & Hbefore).
        destruct before as [|b before]; simpl in H.
        -- by injection H as -> _.
        -- injection H as -> _. by apply Forall_cons in Hbefore as [? _].
    + apply inputs_get_None in E. rewrite IH. split.
      * intros (before & after & -> & Hname & Hbefore).
        exists (n :: before), after. by repeat split; [|constructor].
      * intros (before & after & H & Hname & Hbefore).
        destruct before as [|b before]; simpl in H.
        -- by injection H as -> _.
        -- injection H as -> ->. apply Forall_cons in Hbefore as [_ ?].
           by exists before, after.
Qed.

Lemma resolve_None (node : Node) (names : list string) :
  resolve node names = None <-> Forall (fun n => n ∉ input_names node) names.
Proof.
  induction names as [|n names IH]; simpl.
  - split; [constructor|done].
  - destruct (inputs_get node n) as [p|] eqn:E.
    + destruct p as [i sock]. apply inputs_get_Some in E as (_ & _ & Hin & _).
      split; [done|]. intros H. by apply Forall_cons in H as [? _].
    + apply inputs_get_None in E. rewrite IH. split.
      * by constructor.
      * intros H. by apply Forall_cons in H as [_ ?].
Qed.

Lemma safe_set_returns (obj : Struct) (prop : string) (v : value) :
  returns (safe_set obj prop v).
Proof.
  unfold safe_set, returns. destruct (hasattr obj prop); [|by eexists].
  unfold try_except. destruct (setattr obj prop v); by eexists.
Qed.

Lemma set_input_returns (node : Node) (names : list string) (v : value) :
  returns (set_input node names v).
Proof.
  unfold returns. induction names as [|name names IH]; simpl; [by eexists|].
  destruct (inputs_get node name) as [[i sock]|]; [|done].
  unfold try_except. destruct (assign_default node i sock v); by eexists.
Qed.

(** What [set_input] does once a name has resolved to the socket at
    position [i]. *)
Lemma set_input_at (node : Node) (name : string) (i : nat) (sock : Socket)
  (v : value) :
  inputs_get node name = Some (i, sock) ->
  set_input node [name] v =
  inr (if sock_accepts sock v
       then with_inputs node
              (<[i := mkSocket (sock_name sock) v (sock_accepts sock)]> (inputs node))
       else node).
Proof.
  intros E. simpl. rewrite E. unfold assign_default, set_default_value.
  by destruct (sock_accepts sock v).
Qed.

End HelpersFacts.

Import HelpersFacts.

(** C5: the best-effort setters never propagate a failure.  [safe_set] and
    [set_input] return normally for every target, candidate list and value;
    when no candidate is present, or the host refuses the assignment to the
    resolved name, they return the target as it was.  Resolving the aliases
    of "Specular" against a target that only has "Roughness" finds nothing
    and raises nothing. *)
Theorem C5_setters_never_raise :
  (forall (obj : Struct) prop v, returns (safe_set obj prop v)) /\
  (forall node names v, returns (set_input node names v)) /\
  (forall (obj : Struct) prop v,
     hasattr obj prop = false -> safe_set obj prop v = inr obj) /\
  (forall (obj : Struct) prop v e,
     setattr obj prop v = inl e -> safe_set obj prop v = inr obj) /\
  (forall node names v,
     resolve node names = None -> set_input node names v = inr node) /\
  (forall node names v name i sock,
     resolve node names = Some name ->
     inputs_get node name = Some (i, sock) ->
     forall e, set_default_value sock v = inl e ->
     set_input node names v = inr node) /\
  resolve_spec {["Roughness"]} ["Specular"; "Specular IOR Level"] = None /\
  resolve roughness_only ["Specular"; "Specular IOR Level"] = None /\
  (forall v, set_input roughness_only ["Specular"; "Specular IOR Level"] v
             = inr roughness_only).
Proof.
  split; [exact safe_set_returns|].
  split; [exact set_input_returns|].
  split.
  { intros obj prop v H. unfold safe_set. by rewrite H. }
  split.
  { intros obj prop v e H. unfold safe_set. rewrite H.
    by destruct (hasattr obj prop). }
  split.
  { intros node names v H. by rewrite set_input_resolve, H. }
  split.
  { intros node names v name i sock Hres Hget e Hset.
    rewrite set_input_resolve, Hres. simpl. rewrite Hget.
    unfold assign_default. by rewrite Hset. }
  split; [reflexivity|]. split; [reflexivity|].
  intros v. reflexivity.
Qed.

(** C5 at a struct whose only attribute is read-only, and at the example
    of the specification. *)
Lemma C5_setters_never_raise_witness :
  safe_set locked_struct "use_bloom" (VBool true) = inr locked_struct /\
  safe_set locked_struct "use_gtao" (VBool true) = inr locked_struct /\
  set_input roughness_only ["Specular"; "Specular IOR Level"] (VFloat 0.35)
  = inr roughness_only /\
  set_input roughness_only ["Roughness"] (VStr "rough") = inr roughness_only.
Proof.
  destruct C5_setters_never_raise as (_ & _ & Habsent & Hrefused & Hnone & Hfail & _).
  split; [apply (Hrefused locked_struct "use_bloom" (VBool true) TypeError); reflexivity|].
  split; [apply (Habsent locked_struct "use_gtao" (VBool true)); reflexivity|].
  split; [apply (Hnone roughness_only); reflexivity|].
  apply (Hfail roughness_only ["Roughness"] (VStr "rough") "Roughness" 0
               (float_socket "Roughness" 0.5) eq_refl eq_refl TypeError).
  reflexivity.
Defined.

(** C6: alias resolution returns the first candidate, in list order, that
    the target offers, and nothing when the target offers none.  The loop
    of [set_input] stops at the name that the resolution of the
    specification picks among the names of the node's inputs, and acts on
    that name alone; the guard of [safe_set] is the resolution of a single
    candidate. *)
Theorem C6_first_present_alias (node : Node) (names : list string) :
  resolve node names = resolve_spec (input_names node) names /\
  (forall name,
     resolve node names = Some name <->
     exists before after,
       names = before ++ name :: after /\ name ∈ input_names node /\
       Forall (fun n => n ∉ input_names node) before) /\
  (resolve node names = None <->
   Forall (fun n => n ∉ input_names node) names) /\
  (forall v,
     set_input node names v =
     match resolve node names with
     | None => ret node
     | Some name => set_input node [name] v
     end) /\
  (forall (obj : Struct) prop,
     resolve_spec (dom obj) [prop] = if hasattr obj prop then Some prop else None).
Proof.
  split; [apply resolve_refines_spec|].
  split; [intros name; apply resolve_Some|].
  split; [apply resolve_None|].
  split; [intros v; apply set_input_resolve|].
  intros obj prop. unfold resolve_spec, hasattr. simpl.
  destruct (obj !! prop) as [a|] eqn:E.
  - rewrite decide_True; [done|]. apply elem_of_dom. by exists a.
  - rewrite decide_False; [done|]. by apply not_elem_of_dom.
Qed.

Lemma differs_at_most_at_refl (i : nat) (node : Node) :
  differs_at_most_at i node node.
Proof. by repeat split. Qed.

Lemma safe_set_frame (obj obj' : Struct) (prop : string) (v : value) :
  safe_set obj prop v = inr obj' ->
  dom obj' = dom obj /\ forall k, k <> prop -> obj' !! k = obj !! k.
Proof.
  unfold safe_set, hasattr, setattr.
  destruct (obj !! prop) as [a|] eqn:E; [|by intros [= <-]].
  destruct (attr_accepts a v); simpl; intros [= <-]; [|done].
  split.
  - rewrite dom_insert_L. apply (elem_of_dom_2 (D := gset string)) in E.
    apply subseteq_union_1_L. by apply singleton_subseteq_l.
  - intros k Hk. by rewrite lookup_insert_ne.
Qed.

(** C9: the frame of the best-effort setters.  When the target has no
    attribute of a candidate's name the setter returns the target itself;
    when a candidate is present, every attribute other than the resolved
    one keeps its value: [safe_set] leaves every other key of the struct
    alone, and [set_input] changes at most the default value of the one
    socket that the name resolved to. *)
Theorem C9_setters_frame :
  (forall (obj : Struct) prop v,
     prop ∉ dom obj -> safe_set obj prop v = inr obj) /\
  (forall (obj obj' : Struct) prop v,
     safe_set obj prop v = inr obj' ->
     dom obj' = dom obj /\ forall k, k <> prop -> obj' !! k = obj !! k) /\
  (forall node names v,
     Forall (fun n => n ∉ input_names node) names ->
     set_input node names v = inr node) /\
  (forall node names v name,
     resolve node names = Some name ->
     exists i sock node',
       inputs_get node name = Some (i, sock) /\
       set_input node names v = inr node' /\
       differs_at_most_at i node node').
Proof.
  split.
  { intros obj prop v H. apply not_elem_of_dom in H.
    unfold safe_set, hasattr. by rewrite H. }
  split; [exact safe_set_frame|].
  split.
  { intros node names v H. apply resolve_None in H.
    by rewrite set_input_resolve, H. }
  intros node names v name Hres.
  assert (exists i sock, inputs_get node name = Some (i, sock)) as (i & sock & Hget).
  { apply resolve_Some in Hres as (_ & _ & _ & Hin & _).
    destruct (inputs_get node name) as [[i sock]|] eqn:E; [by eauto|].
    by apply inputs_get_None in E. }
  exists i, sock. eexists. split; [done|].
  rewrite set_input_resolve, Hres, (set_input_at _ _ _ _ _ Hget).
  split; [done|].
  destruct (sock_accepts sock v); [|apply differs_at_most_at_refl].
  apply inputs_get_Some in Hget as (Hi & Hname & _).
  unfold differs_at_most_at, with_inputs; simpl.
  repeat split.
  - by rewrite length_insert.
  - rewrite list_fmap_insert. simpl. apply list_insert_id.
    by rewrite list_lookup_fmap, Hi.
  - intros j Hj. by rewrite list_lookup_insert_ne.
Qed.

(** C9 at the example of the specification and at a present socket. *)
Lemma C9_setters_frame_witness :
  safe_set locked_struct "use_gtao" (VBool true) = inr locked_struct /\
  set_input roughness_only ["Specular"; "Specular IOR Level"] (VFloat 0.35)
  = inr roughness_only /\
  exists i sock node',
    inputs_get roughness_only "Roughness" = Some (i, sock) /\
    set_input roughness_only ["Specular"; "Roughness"] (VFloat 0.6) = inr node' /\
    differs_at_most_at i roughness_only node'.
Proof.
  destruct C9_setters_frame as (Habsent & _ & Hnone & Hsome).
  split.
  { apply Habsent. unfold locked_struct. rewrite dom_singleton_L.
    by apply not_elem_of_singleton. }
  split.
  { apply Hnone. unfold input_names, roughness_only; simpl.
    repeat constructor; compute_done. }
  apply (Hsome roughness_only ["Specular"; "Roughness"] (VFloat 0.6) "Roughness").
  reflexivity.
Defined.

(* ===================================================================== *)
(** * Interpolation *)
(* ===================================================================== *)

Module InterpFacts.

Import SpaceScene.

Lemma use_mode_desired (desired : string) (allowed : gset string) :
  desired ∈ allowed -> use_mode desired allowed = desired.
Proof. intros H. unfold use_mode. by rewrite decide_True. Qed.

Lemma use_mode_bezier (desired : string) (allowed : gset string) :
  desired ∉ allowed -> "BEZIER" ∈ allowed -> use_mode desired allowed = "BEZIER".
Proof.
  intros H1 H2. unfold use_mode. by rewrite decide_False, decide_True.
Qed.

Lemma use_mode_linear (desired : string) (allowed : gset string) :
  desired ∉ allowed -> "BEZIER" ∉ allowed -> use_mode desired allowed = "LINEAR".
Proof.
  intros H1 H2. unfold use_mode. by rewrite !decide_False.
Qed.

Lemma use_mode_refines_spec (desired : string) (allowed : gset string) :
  use_mode desired allowed = negotiate_spec [desired; "BEZIER"] "LINEAR" allowed.
Proof.
  unfold use_mode, negotiate_spec. simpl.
  destruct (decide (desired ∈ allowed)); [done|].
  by destruct (decide ("BEZIER" ∈ allowed)).
Qed.

Lemma probe_allowed_no_keyframes (h : Host) (fcus : list FCurve) :
  Forall (fun fcu => keyframe_points fcu = []) fcus ->
  probe_allowed h fcus = inr ∅.
Proof.
  induction 1 as [|fcu fcus Hfcu _ IH]; simpl; [done|]. by rewrite Hfcu.
Qed.

Lemma probe_allowed_raises (h : Host) (fcus : list FCurve) (e : exn) :
  interpolation_enum h = inl e ->
  probe_allowed h fcus = inr ∅ \/ probe_allowed h fcus = inl e.
Proof.
  intros He. induction fcus as [|fcu fcus IH]; simpl; [by left|].
  destruct (keyframe_points fcu); [done|]. right. by rewrite He.
Qed.

Lemma allowed_modes_probe_raises (h : Host) (action : Action) (e : exn) :
  interpolation_enum h = inl e -> allowed_modes h action = ∅.
Proof.
  intros He. unfold allowed_modes.
  by destruct (probe_allowed_raises h (fcurves action) e He) as [-> | ->].
Qed.

End InterpFacts.

Import InterpFacts.

(** C3: the negotiation follows the chain desired, then BEZIER, then
    LINEAR.  The expression that [apply_interp] binds to [use] is a total
    function; it is the desired mode when the host supports that, BEZIER
    when the host supports BEZIER and not the desired mode, and LINEAR
    otherwise, which is what the chain of the specification picks. *)
Theorem C3_negotiation_chain (desired : string) (allowed : gset string) :
  SpaceScene.use_mode desired allowed
  = SpaceScene.negotiate_spec [desired; "BEZIER"] "LINEAR" allowed /\
  (desired ∈ allowed -> SpaceScene.use_mode desired allowed = desired) /\
  (desired ∉ allowed -> "BEZIER" ∈ allowed ->
   SpaceScene.use_mode desired allowed = "BEZIER") /\
  (desired ∉ allowed -> "BEZIER" ∉ allowed ->
   SpaceScene.use_mode desired allowed = "LINEAR") /\
  SpaceScene.use_mode "LINEAR" {["LINEAR"; "BEZIER"]} = "LINEAR" /\
  SpaceScene.use_mode "LINEAR" {["BEZIER"]} = "BEZIER".
Proof.
  split; [apply use_mode_refines_spec|].
  split; [apply use_mode_desired|].
  split; [apply use_mode_bezier|].
  split; [apply use_mode_linear|].
  split; reflexivity.
Qed.

(** C3 at a host that offers BEZIER and CONSTANT when SINE is desired, and
    at one that offers CONSTANT alone. *)
Lemma C3_negotiation_chain_witness :
  SpaceScene.use_mode "SINE" {["BEZIER"; "CONSTANT"]} = "BEZIER" /\
  SpaceScene.use_mode "SINE" {["CONSTANT"]} = "LINEAR" /\
  SpaceScene.use_mode "SINE" {["SINE"; "BEZIER"]} = "SINE".
Proof.
  split; [|split].
  - apply (C3_negotiation_chain "SINE" {["BEZIER"; "CONSTANT"]}); compute_done.
  - apply (C3_negotiation_chain "SINE" {["CONSTANT"]}); compute_done.
  - apply (C3_negotiation_chain "SINE" {["SINE"; "BEZIER"]}); compute_done.
Defined.

(** C4, as stated, fails: with nothing known about the host's modes the
    desired mode SINE is not kept. *)
Lemma C4_desired_mode_not_kept :
  SpaceScene.use_mode "SINE" ∅ <> "SINE" /\
  SpaceScene.allowed_modes opaque_host two_key_action = ∅ /\
  SpaceScene.apply_interp opaque_host two_key_action "SINE"
  = mkAction [mkFCurve "location" 0
                [mkKeyframePoint (1%Z, 0%R) "LINEAR";
                 mkKeyframePoint (300%Z, 1.5%R) "LINEAR"]].
Proof. split; [discriminate|]. split; reflexivity. Qed.

(** C4, amended: when the supported set cannot be determined, because
    reading the enum raised or because no curve has a keyframe to read it
    from, the set is empty and the negotiation returns LINEAR whatever mode
    was desired. *)
Theorem C4_undetermined_support_gives_linear (desired : string) :
  SpaceScene.use_mode desired ∅ = "LINEAR" /\
  (forall h action e,
     interpolation_enum h = inl e ->
     SpaceScene.allowed_modes h action = ∅ /\
     SpaceScene.use_mode desired (SpaceScene.allowed_modes h action) = "LINEAR") /\
  (forall h action,
     Forall (fun fcu => keyframe_points fcu = []) (fcurves action) ->
     SpaceScene.allowed_modes h action = ∅ /\
     SpaceScene.use_mode desired (SpaceScene.allowed_modes h action) = "LINEAR").
Proof.
  assert (SpaceScene.use_mode desired ∅ = "LINEAR") as Hempty.
  { apply use_mode_linear; apply not_elem_of_empty. }
  split; [done|]. split.
  - intros h action e He. rewrite (allowed_modes_probe_raises h action e He).
    by split.
  - intros h action Hno. unfold SpaceScene.allowed_modes at 1 2.
    rewrite (probe_allowed_no_keyframes h _ Hno). by split.
Qed.

(** C4 amended, at the host whose enum cannot be read and at an action
    without curves. *)
Lemma C4_undetermined_support_gives_linear_witness :
  SpaceScene.use_mode "SINE" (SpaceScene.allowed_modes opaque_host two_key_action)
  = "LINEAR" /\
  SpaceScene.use_mode "SINE" (SpaceScene.allowed_modes reference_host (mkAction []))
  = "LINEAR".
Proof.
  destruct (C4_undetermined_support_gives_linear "SINE") as (_ & Hraise & Hnone).
  split.
  - apply (Hraise opaque_host two_key_action (AttributeError "bl_rna")).
    reflexivity.
  - apply (Hnone reference_host (mkAction [])). constructor.
Defined.

(** C10: after [apply_interp] every keyframe point of every curve of the
    action carries one and the same interpolation mode, the negotiated
    one; the curves, their keyframes and the keyframes' coordinates are
    otherwise as they were. *)
Theorem C10_uniform_interpolation (h : Host) (action : Action) (desired : string) :
  let use := SpaceScene.use_mode desired (SpaceScene.allowed_modes h action) in
  let action' := SpaceScene.apply_interp h action desired in
  Forall (fun fcu => Forall (fun kp => interpolation kp = use) (keyframe_points fcu))
         (fcurves action') /\
  (fun fcu => (data_path fcu, array_index fcu, co <$> keyframe_points fcu))
    <$> fcurves action'
  = (fun fcu => (data_path fcu, array_index fcu, co <$> keyframe_points fcu))
    <$> fcurves action.
Proof.
  intros use action'. subst action'. unfold SpaceScene.apply_interp.
  fold use. simpl. split.
  - apply Forall_fmap, Forall_true. intros fcu. simpl.
    apply Forall_fmap, Forall_true. by intros kp.
  - rewrite <- list_fmap_compose. apply list_fmap_ext. intros _ fcu _. simpl.
    f_equal. rewrite <- list_fmap_compose. by apply list_fmap_ext.
Qed.

(* ===================================================================== *)
(** * The starfield recipe *)
(* ===================================================================== *)

Module TreeFacts.

Import HelpersFacts.

Lemma sbind_inr {T A B : Type} (m : St T A) (k : A -> St T B) (s : T)
  (r : B * T) :
  sbind m k s = inr r -> exists a s1, m s = inr (a, s1) /\ k a s1 = inr r.
Proof.
  unfold sbind. destruct (m s) as [e|[a s1]]; [done|]. by exists a, s1.
Qed.

Lemma sret_inr {T A : Type} (a b : A) (s s' : T) :
  sret a s = inr (b, s') -> b = a /\ s' = s.
Proof. by intros [= <- <-]. Qed.

Lemma lift_inr {T A : Type} (r : result A) (a : A) (s s' : T) :
  lift r s = inr (a, s') -> r = inr a /\ s' = s.
Proof. unfold lift. destruct r; [done|]. by intros [= <- <-]. Qed.

Lemma nodes_new_inv (h : Host) (type : string) (t t' : NodeTree) (n : nat) :
  nodes_new h type t = inr (n, t') ->
  n = length (nodes t) /\ length (nodes t') = S (length (nodes t)) /\
  kinds t' = kinds t ++ [bl_idname (new_node h type)] /\
  wiring t' = wiring t.
Proof.
  intros [= <- <-]. unfold kinds. simpl. rewrite length_app, fmap_app. simpl.
  repeat split. lia.
Qed.

Lemma get_node_inv (n : nat) (t t' : NodeTree) (node : Node) :
  get_node n t = inr (node, t') -> t' = t /\ nodes t !! n = Some node.
Proof.
  unfold get_node. destruct (nodes t !! n); [|done]. by intros [= <- <-].
Qed.

(** Writing back a node of the same type leaves the shape of the tree as
    it was. *)
Lemma put_node_inv (n : nat) (node old : Node) (t t' : NodeTree) (u : unit) :
  nodes t !! n = Some old -> bl_idname node = bl_idname old ->
  put_node n node t = inr (u, t') ->
  length (nodes t') = length (nodes t) /\ kinds t' = kinds t /\
  wiring t' = wiring t.
Proof.
  intros Hold Hid [= _ <-]. split; [apply length_insert|]. split; [|done].
  unfold kinds. simpl. rewrite list_fmap_insert, Hid.
  apply list_insert_id. by rewrite list_lookup_fmap, Hold.
Qed.

Lemma input_named_inv (n : nat) (name : string) (t t' : NodeTree) (s : SocketRef) :
  input_named n name t = inr (s, t') -> t' = t /\ fst s = n.
Proof.
  unfold input_named. intros H. apply sbind_inr in H as (node & t1 & Hn & H).
  apply get_node_inv in Hn as [-> _].
  destruct (inputs_get node name) as [[i sock]|]; [|done].
  by apply sret_inr in H as [-> ->].
Qed.

Lemma input_at_inv (n i : nat) (t t' : NodeTree) (s : SocketRef) :
  input_at n i t = inr (s, t') -> t' = t /\ fst s = n.
Proof.
  unfold input_at. intros H. apply sbind_inr in H as (node & t1 & Hn & H).
  apply get_node_inv in Hn as [-> _].
  destruct (inputs node !! i); [|done]. by apply sret_inr in H as [-> ->].
Qed.

Lemma output_named_inv (n : nat) (name : string) (t t' : NodeTree) (s : SocketRef) :
  output_named n name t = inr (s, t') -> t' = t /\ fst s = n.
Proof.
  unfold output_named. intros H. apply sbind_inr in H as (node & t1 & Hn & H).
  apply get_node_inv in Hn as [-> _].
  destruct (list_find _ (outputs node)) as [[i o]|]; [|done].
  by apply sret_inr in H as [-> ->].
Qed.

Lemma set_default_inv (s : SocketRef) (v : value) (t t' : NodeTree) (u : unit) :
  set_default s v t = inr (u, t') ->
  length (nodes t') = length (nodes t) /\ kinds t' = kinds t /\
  wiring t' = wiring t.
Proof.
  unfold set_default. intros H. apply sbind_inr in H as (node & t1 & Hn & H).
  apply get_node_inv in Hn as [-> Hnode].
  destruct (inputs node !! snd s); [|done].
  apply sbind_inr in H as (sock' & t1 & Hs & H).
  apply lift_inr in Hs as [_ ->]. by eapply put_node_inv in H.
Qed.

Lemma set_node_attr_inv (n : nat) (name : string) (v : value) (t t' : NodeTree)
  (u : unit) :
  set_node_attr n name v t = inr (u, t') ->
  length (nodes t') = length (nodes t) /\ kinds t' = kinds t /\
  wiring t' = wiring t.
Proof.
  unfold set_node_attr. intros H. apply sbind_inr in H as (node & t1 & Hn & H).
  apply get_node_inv in Hn as [-> Hnode].
  apply sbind_inr in H as (a & t1 & Hs & H).
  apply lift_inr in Hs as [_ ->]. by eapply put_node_inv in H.
Qed.

Lemma set_ramp_element_inv (n i : nat) (f : RampElement -> RampElement)
  (t t' : NodeTree) (u : unit) :
  set_ramp_element n i f t = inr (u, t') ->
  length (nodes t') = length (nodes t) /\ kinds t' = kinds t /\
  wiring t' = wiring t.
Proof.
  unfold set_ramp_element. intros H.
  apply sbind_inr in H as (node & t1 & Hn & H).
  apply get_node_inv in Hn as [-> Hnode].
  destruct (color_ramp node) as [elements|]; [|done].
  destruct (elements !! i); [|done]. by eapply put_node_inv in H.
Qed.

Lemma set_input_bl_idname (node node' : Node) (names : list string) (v : value) :
  set_input node names v = inr node' -> bl_idname node' = bl_idname node.
Proof.
  rewrite set_input_resolve. destruct (resolve node names) as [name|].
  - simpl. destruct (inputs_get node name) as [[i sock]|]; [|by intros [= <-]].
    unfold assign_default, set_default_value.
    destruct (sock_accepts sock v); simpl; by intros [= <-].
  - by intros [= <-].
Qed.

Lemma set_input_of_inv (n : nat) (names : list string) (v : value)
  (t t' : NodeTree) (u : unit) :
  SpaceScene.set_input_of n names v t = inr (u, t') ->
  length (nodes t') = length (nodes t) /\ kinds t' = kinds t /\
  wiring t' = wiring t.
Proof.
  unfold SpaceScene.set_input_of. intros H.
  apply sbind_inr in H as (node & t1 & Hn & H).
  apply get_node_inv in Hn as [-> Hnode].
  apply sbind_inr in H as (a & t1 & Hs & H).
  apply lift_inr in Hs as [Hs ->]. apply set_input_bl_idname in Hs.
  by eapply put_node_inv in H.
Qed.

Lemma links_new_inv (a b : SocketRef) (t t' : NodeTree) (u : unit) :
  links_new a b t = inr (u, t') ->
  length (nodes t') = length (nodes t) /\ kinds t' = kinds t /\
  wiring t' = wiring t ++ [(fst a, fst b)].
Proof.
  intros [= _ <-]. unfold wiring. simpl. by rewrite fmap_app.
Qed.

(** Take a run of statements apart, one statement at a time. *)
Ltac invert_stmt H :=
  lazymatch type of H with
  | sbind _ _ _ = inr _ =>
      let a := fresh "a" in
      let t := fresh "t" in
      let E := fresh "E" in
      apply sbind_inr in H as (a & t & E & H);
      invert_stmt E; cbv beta in H; invert_stmt H
  | nodes_new _ _ _ = inr _ => apply nodes_new_inv in H as (-> & ? & ? & ?)
  | input_named _ _ _ = inr _ => apply input_named_inv in H as (-> & ?)
  | input_at _ _ _ = inr _ => apply input_at_inv in H as (-> & ?)
  | output_named _ _ _ = inr _ => apply output_named_inv in H as (-> & ?)
  | set_default _ _ _ = inr _ => apply set_default_inv in H as (? & ? & ?)
  | set_node_attr _ _ _ _ = inr _ =>
      apply set_node_attr_inv in H as (? & ? & ?)
  | set_ramp_element _ _ _ _ = inr _ =>
      apply set_ramp_element_inv in H as (? & ? & ?)
  | SpaceScene.set_input_of _ _ _ _ = inr _ =>
      apply set_input_of_inv in H as (? & ? & ?)
  | links_new _ _ _ = inr _ => apply links_new_inv in H as (? & ? & ?)
  end.

(** Fold the facts that [invert_stmt] leaves behind into the goal. *)
Ltac chain_facts :=
  repeat match goal with
         | H : fst ?s = _ |- _ => rewrite H in *; clear H
         end;
  repeat match goal with
         | H : wiring ?t = _ |- _ => rewrite H in *; clear H
         end;
  repeat match goal with
         | H : kinds ?t = _ |- _ => rewrite H in *; clear H
         end;
  repeat match goal with
         | H : length (nodes ?t) = _ |- _ => rewrite H in *; clear H
         end.

Lemma starfield_shape_flyby (h : Host) (scale spread : R) (t t' : NodeTree)
  (u : unit) :
  GrandFlyby.build_starfield_world h scale spread t = inr (u, t') ->
  starfield_added h t t'.
Proof.
  unfold GrandFlyby.build_starfield_world, starfield_added. intros H.
  invert_stmt H. chain_facts. split; [lia|]. rewrite <- !app_assoc. simpl.
  split; [done|]. unfold starfield_wiring. repeat f_equal; lia.
Qed.

Lemma starfield_shape_scene (h : Host) (scale spread : R) (t t' : NodeTree)
  (u : unit) :
  SpaceScene.build_starfield_world h scale spread t = inr (u, t') ->
  starfield_added h t t'.
Proof.
  unfold SpaceScene.build_starfield_world, starfield_added. intros H.
  invert_stmt H. chain_facts. split; [lia|]. rewrite <- !app_assoc. simpl.
  split; [done|]. unfold starfield_wiring. repeat f_equal; lia.
Qed.

Lemma incoming_wiring (t : NodeTree) (n : nat) :
  length (incoming t n) = length (filter (fun w => snd w = n) (wiring t)).
Proof.
  unfold incoming, wiring. induction (links t) as [|l ls IH]; [done|].
  rewrite fmap_cons, !filter_cons. simpl.
  destruct (decide (to_node l = n)); simpl; by rewrite IH.
Qed.

Lemma wiring_length (t : NodeTree) : length (wiring t) = length (links t).
Proof. unfold wiring. apply length_fmap. Qed.

End TreeFacts.

Import TreeFacts.

Lemma starfield_incoming (n : nat) :
  filter (fun w : nat * nat => snd w = n) (starfield_wiring n) = [(n + 2, n)].
Proof.
  unfold starfield_wiring, filter. cbn.
  repeat case_decide; first [lia | done].
Qed.

Lemma starfield_topology_of_added (h : Host) (t : NodeTree) :
  starfield_added h clean_tree t -> starfield_topology h t.
Proof.
  unfold starfield_added. simpl. intros (Hn & Hk & Hw). unfold starfield_topology.
  split; [done|]. split; [by rewrite <- wiring_length, Hw|]. split; [done|].
  split; [done|]. by rewrite incoming_wiring, Hw, (starfield_incoming 0).
Qed.

(** C1, as stated, fails: the recipe creates eight nodes, not seven. *)
Lemma C1_node_count_is_not_seven :
  (exists t,
     GrandFlyby.build_starfield_world reference_host 600 0.003 clean_tree
     = inr (tt, t) /\ length (nodes t) = 8 /\ length (links t) = 7) /\
  ~ (exists t,
       GrandFlyby.build_starfield_world reference_host 600 0.003 clean_tree
       = inr (tt, t) /\
       length (incoming t 0) = 1 /\ length (nodes t) = 7 /\ length (links t) = 7).
Proof.
  split.
  - eexists. split; [vm_compute; reflexivity|]. split; reflexivity.
  - intros (t & H & _ & Hn & _).
    apply starfield_shape_flyby in H as [H _]. simpl in H. lia.
Qed.

(** C1, amended: built with scale 600 and spread 0.003 in a clean world
    tree, the starfield graph has exactly eight nodes and seven links, and
    its output node has exactly one incoming link.  This holds on every
    host on which the recipe runs to its end, for both versions of the
    recipe and for every scale and spread; on the reference host it does
    run to its end, and no two links enter the same input socket. *)
Theorem C1_starfield_topology :
  (forall h scale spread t,
     GrandFlyby.build_starfield_world h scale spread clean_tree = inr (tt, t) \/
     SpaceScene.build_starfield_world h scale spread clean_tree = inr (tt, t) ->
     starfield_topology h t) /\
  (exists t,
     GrandFlyby.build_starfield_world reference_host 600 0.003 clean_tree
     = inr (tt, t) /\ starfield_topology reference_host t /\
     kinds t = starfield_types /\ NoDup (link_targets t)) /\
  (exists t,
     SpaceScene.build_starfield_world reference_host 600 0.003 clean_tree
     = inr (tt, t) /\ starfield_topology reference_host t /\
     kinds t = starfield_types /\ NoDup (link_targets t)).
Proof.
  assert (forall h scale spread t,
     GrandFlyby.build_starfield_world h scale spread clean_tree = inr (tt, t) \/
     SpaceScene.build_starfield_world h scale spread clean_tree = inr (tt, t) ->
     starfield_topology h t) as Hall.
  { intros h scale spread t [H | H]; apply starfield_topology_of_added.
    - by apply starfield_shape_flyby in H.
    - by apply starfield_shape_scene in H. }
  split; [exact Hall|]. split.
  - destruct (GrandFlyby.build_starfield_world reference_host 600 0.003 clean_tree)
      as [e | [[] t]] eqn:E; [by vm_compute in E|].
    assert (GrandFlyby.build_starfield_world reference_host 600 0.003 clean_tree
            = inr (tt, t) \/
            SpaceScene.build_starfield_world reference_host 600 0.003 clean_tree
            = inr (tt, t)) as Hrun by (by left).
    exists t. split; [done|]. split; [by apply (Hall reference_host 600%R 0.003%R)|].
    split; [by rewrite (proj1 (proj2 (proj2 (Hall _ _ _ _ Hrun))))|].
    assert (link_targets t = [(4, 0); (5, 0); (7, 0); (2, 0); (2, 1); (2, 2); (0, 0)])
      as ->.
    { vm_compute in E. injection E as <-. reflexivity. }
    compute_done.
  - destruct (SpaceScene.build_starfield_world reference_host 600 0.003 clean_tree)
      as [e | [[] t]] eqn:E; [by vm_compute in E|].
    assert (GrandFlyby.build_starfield_world reference_host 600 0.003 clean_tree
            = inr (tt, t) \/
            SpaceScene.build_starfield_world reference_host 600 0.003 clean_tree
            = inr (tt, t)) as Hrun by (by right).
    exists t. split; [done|]. split; [by apply (Hall reference_host 600%R 0.003%R)|].
    split; [by rewrite (proj1 (proj2 (proj2 (Hall _ _ _ _ Hrun))))|].
    assert (link_targets t = [(4, 0); (5, 0); (7, 0); (2, 0); (2, 1); (2, 2); (0, 0)])
      as ->.
    { vm_compute in E. injection E as <-. reflexivity. }
    compute_done.
Qed.

(** C1 amended, at the reference host with scale 600 and spread 0.003. *)
Lemma C1_starfield_topology_witness :
  exists t,
    GrandFlyby.build_starfield_world reference_host 600 0.003 clean_tree
    = inr (tt, t) /\ starfield_topology reference_host t.
Proof.
  destruct (GrandFlyby.build_starfield_world reference_host 600 0.003 clean_tree)
    as [e | [[] t]] eqn:E; [by vm_compute in E|].
  exists t. split; [reflexivity|].
  apply (proj1 C1_starfield_topology reference_host 600%R 0.003%R t).
  left. exact E.
Defined.

(* ===================================================================== *)
(** * Links into an input that is already fed *)
(* ===================================================================== *)

Lemma starfield_incoming_other (n : nat) :
  n <> 2 ->
  length (filter (fun w : nat * nat => snd w = n) (starfield_wiring 0)) <= 1.
Proof.
  intros Hn. unfold starfield_wiring, filter. cbn.
  repeat case_decide; simpl in *; lia.
Qed.

Lemma starfield_links_apart (h : Host) (scale spread : R) (t : NodeTree) :
  GrandFlyby.build_starfield_world h scale spread clean_tree = inr (tt, t) \/
  SpaceScene.build_starfield_world h scale spread clean_tree = inr (tt, t) ->
  forall n, n <> 2 -> length (incoming t n) <= 1.
Proof.
  intros H n Hn.
  assert (starfield_added h clean_tree t) as (_ & _ & Hw).
  { destruct H as [H | H].
    - by apply starfield_shape_flyby in H.
    - by apply starfield_shape_scene in H. }
  rewrite incoming_wiring, Hw. simpl. by apply starfield_incoming_other.
Qed.

(** C7, as stated, fails: the scripts have no [connect]; they wire their
    graphs with the host's [links.new], and a second [links.new] into an
    input that already holds a link returns normally.  Here the output
    node's "Surface", fed by the mix shader, is fed again from the
    emission node. *)
Lemma C7_second_link_accepted :
  exists t,
    GrandFlyby.build_starfield_world reference_host 600 0.003 clean_tree
    = inr (tt, t) /\
    input_named 0 "Surface" t = inr ((0, 0), t) /\
    (0, 0) ∈ link_targets t /\
    exists t',
      (a <- output_named 3 "Emission" ;; b <- input_named 0 "Surface" ;;
       links_new a b) t = inr (tt, t').
Proof.
  destruct (GrandFlyby.build_starfield_world reference_host 600 0.003 clean_tree)
    as [e | [[] t]] eqn:E; [by vm_compute in E|].
  exists t. split; [reflexivity|].
  vm_compute in E. injection E as <-.
  split; [vm_compute; reflexivity|]. split.
  - unfold link_targets. cbn. set_solver.
  - eexists. vm_compute. reflexivity.
Qed.

(** C7, amended: [links.new] never fails, whatever its two sockets and
    whatever the tree holds; in the starfield graph that either script
    builds in a clean world tree, for every scale and spread, no two links
    target the same input socket on the reference host, and on every host
    on which the recipe runs to its end every node other than the mix
    shader, the third node created, receives at most one link. *)
Theorem C7_one_link_per_input :
  (forall src dst t, exists t', links_new src dst t = inr (tt, t')) /\
  (forall scale spread,
     (exists t,
        GrandFlyby.build_starfield_world reference_host scale spread clean_tree
        = inr (tt, t) /\ NoDup (link_targets t)) /\
     (exists t,
        SpaceScene.build_starfield_world reference_host scale spread clean_tree
        = inr (tt, t) /\ NoDup (link_targets t))) /\
  (forall h scale spread t,
     GrandFlyby.build_starfield_world h scale spread clean_tree = inr (tt, t) \/
     SpaceScene.build_starfield_world h scale spread clean_tree = inr (tt, t) ->
     forall n, n <> 2 -> length (incoming t n) <= 1).
Proof.
  split; [by eexists|]. split; [|exact starfield_links_apart].
  intros scale spread. split.
  - destruct (GrandFlyby.build_starfield_world reference_host scale spread
                clean_tree) as [e | [[] t]] eqn:E; [by vm_compute in E|].
    exists t. split; [reflexivity|].
    assert (link_targets t = [(4, 0); (5, 0); (7, 0); (2, 0); (2, 1); (2, 2); (0, 0)])
      as ->.
    { vm_compute in E. injection E as <-. reflexivity. }
    compute_done.
  - destruct (SpaceScene.build_starfield_world reference_host scale spread
                clean_tree) as [e | [[] t]] eqn:E; [by vm_compute in E|].
    exists t. split; [reflexivity|].
    assert (link_targets t = [(4, 0); (5, 0); (7, 0); (2, 0); (2, 1); (2, 2); (0, 0)])
      as ->.
    { vm_compute in E. injection E as <-. reflexivity. }
    compute_done.
Qed.

(** C7 amended, at the reference host with the scale and spread of the
    flyby: the output node, the first created, receives one link at
    most. *)
Lemma C7_one_link_per_input_witness :
  exists t,
    GrandFlyby.build_starfield_world reference_host 600 0.003 clean_tree
    = inr (tt, t) /\ length (incoming t 0) <= 1.
Proof.
  destruct (GrandFlyby.build_starfield_world reference_host 600 0.003 clean_tree)
    as [e | [[] t]] eqn:E; [by vm_compute in E|].
  exists t. split; [reflexivity|].
  apply (proj2 (proj2 C7_one_link_per_input) reference_host 600%R 0.003%R t).
  - left. exact E.
  - lia.
Defined.

(* ===================================================================== *)
(** * The orbit of the moon *)
(* ===================================================================== *)

Module OpsFacts.

Lemma add_object_inv (o : Object) (d d' : Data) (u : unit) :
  add_object o d = inr (u, d') ->
  objects d' = objects d ++ [o] /\ active_object d' = Some (length (objects d)).
Proof. by intros [= _ <-]. Qed.

Lemma context_active_object_inv (o : nat) (d d' : Data) :
  context_active_object d = inr (o, d') -> d' = d /\ active_object d = Some o.
Proof.
  unfold context_active_object. destruct (active_object d); [|done].
  by intros [= <- <-].
Qed.

Lemma get_object_inv (o : nat) (ob : Object) (d d' : Data) :
  get_object o d = inr (ob, d') -> d' = d /\ objects d !! o = Some ob.
Proof.
  unfold get_object. destruct (objects d !! o); [|done]. by intros [= <- <-].
Qed.

Lemma update_object_inv (o : nat) (f : Object -> Object) (d d' : Data) (u : unit) :
  update_object o f d = inr (u, d') ->
  objects d' = alter f o (objects d) /\ active_object d' = active_object d.
Proof.
  unfold update_object. intros H. apply sbind_inr in H as (ob & d1 & Hg & H).
  apply get_object_inv in Hg as [-> Hob]. injection H as _ <-. simpl.
  split; [|done]. apply list_eq. intros j.
  destruct (decide (j = o)) as [->|Hj].
  - rewrite list_lookup_alter_eq, Hob. simpl.
    apply list_lookup_insert_eq. by eapply lookup_lt_Some.
  - by rewrite list_lookup_alter_ne, list_lookup_insert_ne.
Qed.

Lemma shade_smooth_inv (d d' : Data) (u : unit) :
  shade_smooth d = inr (u, d') ->
  exists o, active_object d = Some o /\
            objects d' = alter (set_shading Smooth) o (objects d) /\
            active_object d' = active_object d.
Proof.
  unfold shade_smooth. intros H. apply sbind_inr in H as (o & d1 & Ha & H).
  apply context_active_object_inv in Ha as [-> Ha].
  apply update_object_inv in H. by exists o.
Qed.

Lemma materials_new_inv (s : string) (m : nat) (d d' : Data) :
  materials_new s d = inr (m, d') ->
  objects d' = objects d /\ active_object d' = active_object d.
Proof. by intros [= _ <-]. Qed.

Lemma on_node_tree_inv {A : Type} (m : nat) (body : M A) (a : A) (d d' : Data) :
  on_node_tree m body d = inr (a, d') ->
  objects d' = objects d /\ active_object d' = active_object d.
Proof.
  unfold on_node_tree. destruct (materials d !! m); [|done].
  destruct (body _) as [e|[a' t]]; [done|]. by intros [= _ <-].
Qed.

Lemma keyframe_insert_rotation_inv (h : Host) (o : nat) (frame : Z) (d d' : Data)
  (u : unit) :
  keyframe_insert h o "rotation_euler" frame d = inr (u, d') ->
  objects d' = alter (key_rotation h frame) o (objects d) /\
  active_object d' = active_object d.
Proof.
  unfold keyframe_insert. intros H.
  apply sbind_inr in H as (ob & d1 & Hg & H).
  apply get_object_inv in Hg as [-> Hob].
  apply sbind_inr in H as (xs & d1 & Hx & H).
  apply lift_inr in Hx as [Hx ->]. injection Hx as <-.
  apply update_object_inv in H as [H1 H2]. split; [|done]. rewrite H1.
  apply list_alter_ext; [|done]. intros ob' Hob'.
  rewrite Hob in Hob'. by injection Hob' as <-.
Qed.

Lemma moon_material_inv (h : Host) (m : nat) (d d' : Data) :
  SpaceScene.moon_material h d = inr (m, d') ->
  objects d' = objects d /\ active_object d' = active_object d.
Proof.
  unfold SpaceScene.moon_material. intros H.
  apply sbind_inr in H as (mat & d1 & Hn & H).
  apply materials_new_inv in Hn as [Ho1 Ha1].
  apply sbind_inr in H as (a & d2 & Ht & H).
  apply on_node_tree_inv in Ht as [Ho2 Ha2].
  apply sret_inr in H as [_ ->]. split; congruence.
Qed.

Lemma lookup_snoc {A : Type} (l : list A) (x : A) :
  (l ++ [x]) !! length l = Some x.
Proof. by apply list_lookup_middle. Qed.

Lemma radians_full_turn : radians 360 = (2 * PI)%R.
Proof. unfold radians. lra. Qed.

End OpsFacts.

Import OpsFacts.

(** C8: the orbit of the moon is an ordinary two-keyframe curve on the
    rotation of the pivot.  After [add_moon] the pivot, parented to the
    planet, carries an action on [rotation_euler] alone; each component has
    exactly two keyframes, at the first and at the last frame of the scene;
    the rotation about the orbit's axis goes from 0 to a full turn, 360
    degrees, and the two other components stay 0. *)
Theorem C8_orbit_is_two_keyframe_turn (h : Host) (planet : nat)
  (radius distance : R) (d d' : Data) (moon : nat) :
  SpaceScene.add_moon h planet radius distance d = inr (moon, d') ->
  exists pivot,
    objects d' !! length (objects d) = Some pivot /\
    name pivot = "MoonPivot" /\
    parent pivot = Some planet /\
    animation_data pivot
    = Some (mkAction [orbit_curve h 0 0; orbit_curve h 1 0;
                      orbit_curve h 2 (radians 360)]) /\
    radians 360 = (2 * PI)%R /\
    (SpaceScene.frame_start SpaceScene.scene < SpaceScene.frame_end SpaceScene.scene)%Z.
Proof.
  unfold SpaceScene.add_moon. intros H.
  repeat (let a := fresh "a" in
          let s := fresh "s" in
          let E := fresh "E" in
          apply sbind_inr in H as (a & s & E & H); cbv beta in H).
  apply sret_inr in H as [-> ->].
  apply get_object_inv in E as [-> _].
  apply add_object_inv in E0 as [Ho0 Ha0].
  apply context_active_object_inv in E1 as [-> Ha1].
  rewrite Ha0 in Ha1. injection Ha1 as <-.
  apply update_object_inv in E2 as [Ho2 _].
  apply get_object_inv in E3 as [-> _].
  apply add_object_inv in E4 as [Ho4 Ha4].
  apply context_active_object_inv in E5 as [-> Ha5].
  rewrite Ha4 in Ha5. injection Ha5 as <-.
  apply update_object_inv in E6 as [Ho6 Ha6].
  apply shade_smooth_inv in E7 as (o & Ha7 & Ho7 & _).
  rewrite Ha6, Ha4 in Ha7. injection Ha7 as <-.
  apply moon_material_inv in E8 as [Ho8 _].
  apply update_object_inv in E9 as [Ho9 _].
  apply update_object_inv in E10 as [Ho10 _].
  apply update_object_inv in E11 as [Ho11 _].
  apply update_object_inv in E12 as [Ho12 _].
  apply keyframe_insert_rotation_inv in E13 as [Ho13 _].
  apply update_object_inv in E14 as [Ho14 _].
  apply keyframe_insert_rotation_inv in E15 as [Ho15 _].
  assert (length (objects s2) <> length (objects d)) as Hne.
  { rewrite Ho2, length_alter, Ho0, length_app. simpl. lia. }
  assert (length (objects d) < length (objects s2)) as Hlt.
  { rewrite Ho2, length_alter, Ho0, length_app. simpl. lia. }
  rewrite Ho15, list_lookup_alter_eq, Ho14, list_lookup_alter_eq, Ho13,
    list_lookup_alter_eq, Ho12, list_lookup_alter_eq, Ho11, list_lookup_alter_eq.
  rewrite Ho10, list_lookup_alter_ne by done.
  rewrite Ho9, list_lookup_alter_ne by done.
  rewrite Ho8, Ho7, list_lookup_alter_ne by done.
  rewrite Ho6, list_lookup_alter_ne by done.
  rewrite Ho4, lookup_app_l by done.
  rewrite Ho2, list_lookup_alter_eq, Ho0, lookup_snoc. simpl.
  eexists. split; [reflexivity|]. simpl.
  split; [done|]. split; [done|]. split; [reflexivity|].
  split; [apply radians_full_turn|done].
Qed.

(** C8 on the reference host: the moon is added to the file that holds a
    planet, and its pivot carries the orbit. *)
Lemma C8_orbit_is_two_keyframe_turn_witness :
  exists moon d' pivot,
    SpaceScene.add_moon reference_host 0 0.6 4.0 reference_data = inr (moon, d') /\
    objects d' !! 1 = Some pivot /\
    animation_data pivot
    = Some (mkAction [orbit_curve reference_host 0 0; orbit_curve reference_host 1 0;
                      orbit_curve reference_host 2 (radians 360)]).
Proof.
  destruct (SpaceScene.add_moon reference_host 0 0.6 4.0 reference_data)
    as [e | [moon d']] eqn:E; [by vm_compute in E|].
  destruct (C8_orbit_is_two_keyframe_turn reference_host 0 0.6%R 4.0%R
              reference_data d' moon E) as (pivot & Hp & _ & _ & Ha & _).
  exists moon, d', pivot. split; [reflexivity|]. split; [exact Hp|exact Ha].
Defined.

(* ===================================================================== *)
(** * The asteroid scatterers *)
(* ===================================================================== *)

Module ScatterFacts.

Lemma sbind_run {T A B : Type} (m : St T A) (k : A -> St T B) (s s1 : T) (a : A) :
  m s = inr (a, s1) -> sbind m k s = k a s1.
Proof. intros H. unfold sbind. by rewrite H. Qed.

Lemma insert_snoc {A : Type} (l : list A) (x y : A) :
  <[length l := y]> (l ++ [x]) = l ++ [y].
Proof.
  replace (length l) with (length l + 0) by lia. by rewrite insert_app_r.
Qed.

(** Updating the object that was added last. *)
Lemma update_last (l : list Object) (ob : Object) (f : Object -> Object)
  (ms : list Material) (ts : list string) (a : option nat) (e : nat -> R) :
  update_object (length l) f (mkData (l ++ [ob]) ms ts a e)
  = inr (tt, mkData (l ++ [f ob]) ms ts a e).
Proof.
  unfold update_object, sbind, get_object, with_objects.
  cbn [objects materials textures active_object entropy].
  rewrite lookup_snoc. cbn [objects materials textures active_object entropy].
  by rewrite insert_snoc.
Qed.

Lemma uniform_run (ar : Arith) (a b : R) (d : Data) :
  uniform ar a b d = inr (uniform_value ar a b (entropy d 0), advance d).
Proof. reflexivity. Qed.

Lemma get_material_run (m : nat) (mat : Material) (os : list Object)
  (ms : list Material) (ts : list string) (a : option nat) (e : nat -> R) :
  ms !! m = Some mat ->
  get_material m (mkData os ms ts a e) = inr (mat, mkData os ms ts a e).
Proof. intros H. unfold get_material. cbn [materials]. by rewrite H. Qed.

Lemma add_object_run (o : Object) (d : Data) :
  add_object o d
  = inr (tt, mkData (objects d ++ [o]) (materials d) (textures d)
                    (Some (length (objects d))) (entropy d)).
Proof. reflexivity. Qed.

Lemma context_active_object_run (os : list Object) (ms : list Material)
  (ts : list string) (o : nat) (e : nat -> R) :
  context_active_object (mkData os ms ts (Some o) e)
  = inr (o, mkData os ms ts (Some o) e).
Proof. reflexivity. Qed.

Lemma textures_new_run (s : string) (os : list Object) (ms : list Material)
  (ts : list string) (a : option nat) (e : nat -> R) :
  textures_new s (mkData os ms ts a e) = inr (s, mkData os ms (ts ++ [s]) a e).
Proof. reflexivity. Qed.

Lemma set_active_run (o : nat) (os : list Object) (ms : list Material)
  (ts : list string) (a : option nat) (e : nat -> R) :
  set_active o (mkData os ms ts a e) = inr (tt, mkData os ms ts (Some o) e).
Proof. reflexivity. Qed.

Lemma get_material_dead (m : nat) (os : list Object) (ms : list Material)
  (ts : list string) (a : option nat) (e : nat -> R) :
  ms !! m = None -> get_material m (mkData os ms ts a e) = inl ReferenceError.
Proof. intros H. unfold get_material. cbn [materials]. by rewrite H. Qed.

(** Run the first statement of a sequence with the equation [eqn]. *)
Tactic Notation "run" uconstr(eqn) := rewrite (sbind_run _ _ _ _ _ eqn).

Lemma shade_last (sh : Shading) (l : list Object) (ob : Object)
  (ms : list Material) (ts : list string) (e : nat -> R) :
  (o <- context_active_object ;; update_object o (set_shading sh))
    (mkData (l ++ [ob]) ms ts (Some (length l)) e)
  = inr (tt, mkData (l ++ [set_shading sh ob]) ms ts (Some (length l)) e).
Proof.
  run (context_active_object_run _ _ _ _ _). apply update_last.
Qed.

Lemma add_asteroid_run (ar : Arith) (mat : nat) (inner outer : R) (i : nat)
  (d : Data) :
  GrandFlyby.add_asteroid ar mat inner outer i d
  = inr (tt, mkData (objects d ++
                       [set_name "Icosphere" (flyby_rock ar mat inner outer (entropy d))])
                    (materials d) (textures d) (Some (length (objects d)))
                    (fun j => entropy d (4 + j))).
Proof.
  unfold GrandFlyby.add_asteroid.
  do 4 run (uniform_run _ _ _ _).
  unfold primitive_ico_sphere_add. run (add_object_run _ _).
  run (context_active_object_run _ _ _ _ _).
  run (update_last _ _ _ _ _ _ _).
  unfold shade_flat. rewrite shade_last. reflexivity.
Qed.

Lemma create_asteroid_run (ar : Arith) (mat : nat) (m : Material)
  (inner outer zrange : R) (i : nat) (acc : list nat) (d : Data) :
  materials d !! mat = Some m ->
  SpaceScene.create_asteroid ar mat inner outer zrange i acc d
  = inr (acc ++ [length (objects d)],
         mkData (objects d ++
                   [set_name ("Asteroid_" +:+ SpaceScene.pad3 i)
                      (scene_asteroid ar mat inner outer zrange
                                      ("AstTex_" +:+ pretty i) (entropy d))])
                (materials d) (textures d ++ ["AstTex_" +:+ pretty i])
                (Some (length (objects d)))
                (fun j => entropy d (4 + j))).
Proof.
  intros Hlive. unfold SpaceScene.create_asteroid.
  do 4 run (uniform_run _ _ _ _).
  unfold primitive_ico_sphere_add. run (add_object_run _ _).
  run (context_active_object_run _ _ _ _ _).
  run (update_last _ _ _ _ _ _ _).
  unfold shade_smooth. run (shade_last _ _ _ _ _ _).
  run (textures_new_run _ _ _ _ _ _).
  run (set_active_run _ _ _ _ _ _).
  run (update_last _ _ _ _ _ _ _).
  run (get_material_run _ _ _ _ _ _ _ Hlive).
  run (update_last _ _ _ _ _ _ _).
  reflexivity.
Qed.

(** With a material that is no longer live the pass raises, after the
    asteroid and its texture were made. *)
Lemma create_asteroid_dead (ar : Arith) (mat : nat) (inner outer zrange : R)
  (i : nat) (acc : list nat) (d : Data) :
  materials d !! mat = None ->
  SpaceScene.create_asteroid ar mat inner outer zrange i acc d = inl ReferenceError.
Proof.
  intros Hdead. unfold SpaceScene.create_asteroid.
  do 4 run (uniform_run _ _ _ _).
  unfold primitive_ico_sphere_add. run (add_object_run _ _).
  run (context_active_object_run _ _ _ _ _).
  run (update_last _ _ _ _ _ _ _).
  unfold shade_smooth. run (shade_last _ _ _ _ _ _).
  run (textures_new_run _ _ _ _ _ _).
  run (set_active_run _ _ _ _ _ _).
  run (update_last _ _ _ _ _ _ _).
  unfold sbind at 1. by rewrite (get_material_dead _ _ _ _ _ _ Hdead).
Qed.

Lemma scatter_length (record : nat -> (nat -> R) -> Object) (count : nat) :
  forall start e, length (scatter record start count e) = count.
Proof.
  induction count as [|count IH]; intros start e; simpl; [done|].
  by rewrite IH.
Qed.

(** Pass [k] works from the outputs [4 * k], [4 * k + 1], ... alone. *)
Lemma scatter_lookup (record : nat -> (nat -> R) -> Object) (count : nat) :
  forall start e k,
    k < count ->
    exists e_k,
      (forall j, e_k j = e (4 * k + j)) /\
      scatter record start count e !! k = Some (record (k + start) e_k).
Proof.
  induction count as [|count IH]; intros start e k Hk; [lia|].
  destruct k as [|k].
  - by exists e.
  - destruct (IH (S start) (fun j => e (4 + j)) k) as (e_k & He & Hl); [lia|].
    exists e_k. split.
    + intros j. rewrite He. f_equal. lia.
    + change (scatter record start (S count) e !! S k)
        with (scatter record (S start) count (fun j => e (4 + j)) !! k).
      rewrite Hl. do 2 f_equal. lia.
Qed.

Lemma scatter_Forall (P : Object -> Prop) (record : nat -> (nat -> R) -> Object)
  (count : nat) :
  (forall i e, (forall j, (0 <= e j < 1)%R) -> P (record i e)) ->
  forall start e,
    (forall j, (0 <= e j < 1)%R) -> Forall P (scatter record start count e).
Proof.
  intros HP. induction count as [|count IH]; intros start e He; simpl.
  - constructor.
  - constructor; [by apply HP|]. apply IH. intros j. apply He.
Qed.

Lemma for_each_add_asteroid (ar : Arith) (mat : nat) (inner outer : R)
  (count : nat) :
  forall start d,
    exists d',
      for_each (seq start count) (GrandFlyby.add_asteroid ar mat inner outer) d
      = inr (tt, d') /\
      objects d'
      = objects d ++
        scatter (fun _ e => set_name "Icosphere" (flyby_rock ar mat inner outer e))
                start count (entropy d) /\
      forall j, entropy d' j = entropy d (4 * count + j).
Proof.
  induction count as [|count IH]; intros start d; simpl.
  - exists d. split; [done|]. by rewrite app_nil_r.
  - run (add_asteroid_run _ _ _ _ _ _).
    edestruct IH as (d' & Hrun & Hobj & Hent). exists d'.
    split; [exact Hrun|]. split.
    + rewrite Hobj. simpl. by rewrite <- app_assoc.
    + intros j. rewrite Hent. simpl. f_equal. lia.
Qed.

Lemma fold_each_create_asteroid (ar : Arith) (mat : nat) (m : Material)
  (inner outer zrange : R) (count : nat) :
  forall start acc d,
    materials d !! mat = Some m ->
    exists d',
      fold_each (seq start count) acc
                (SpaceScene.create_asteroid ar mat inner outer zrange) d
      = inr (acc ++ seq (length (objects d)) count, d') /\
      objects d'
      = objects d ++
        scatter (fun i e =>
                   set_name ("Asteroid_" +:+ SpaceScene.pad3 i)
                     (scene_asteroid ar mat inner outer zrange
                                     ("AstTex_" +:+ pretty i) e))
                start count (entropy d) /\
      forall j, entropy d' j = entropy d (4 * count + j).
Proof.
  induction count as [|count IH]; intros start acc d Hlive; simpl.
  - exists d. by rewrite !app_nil_r.
  - run (create_asteroid_run _ _ _ _ _ _ _ _ _ Hlive).
    match goal with
    | |- context [fold_each _ ?a _ ?s] =>
        destruct (IH (S start) a s Hlive) as (d' & Hrun & Hobj & Hent)
    end.
    exists d'. split; [|split].
    + rewrite Hrun. simpl. rewrite length_app, <- app_assoc. simpl.
      by rewrite Nat.add_1_r.
    + rewrite Hobj. simpl. by rewrite <- app_assoc.
    + intros j. rewrite Hent. simpl. f_equal. lia.
Qed.

(** ** The arithmetic of a pass *)

Lemma Rabs_bound (x b : R) : (Rabs x <= b)%R -> (- b <= x <= b)%R.
Proof.
  intros H. pose proof (Rle_abs x) as H1. pose proof (Rle_abs (- x)) as H2.
  rewrite Rabs_Ropp in H2. lra.
Qed.

Lemma rnd_exact (ar : Arith) (n : Z) :
  conforming ar -> (Z.abs n <= 2 ^ 53)%Z -> rnd ar (IZR n) = IZR n.
Proof. intros (_ & _ & Hint & _) Hn. by apply Hint. Qed.

Lemma rnd_zero (ar : Arith) : conforming ar -> rnd ar 0 = 0%R.
Proof. intros Hc. by apply (rnd_exact ar 0 Hc). Qed.

(** [uniform] grows with the output of the generator. *)
Lemma uniform_value_mono (ar : Arith) (a b u v : R) :
  conforming ar -> (a <= b)%R -> (u <= v)%R ->
  (uniform_value ar a b u <= uniform_value ar a b v)%R.
Proof.
  intros Hc Hab Huv. pose proof (rnd_zero ar Hc) as H0.
  destruct Hc as (Hmono & _).
  unfold uniform_value, fadd, fmul, fsub.
  assert (0 <= rnd ar (b - a))%R as Hw.
  { rewrite <- H0. apply Hmono. lra. }
  apply Hmono. apply Rplus_le_compat_l. apply Hmono.
  by apply Rmult_le_compat_l.
Qed.

Lemma uniform_value_range (ar : Arith) (a b u : R) :
  conforming ar -> (a <= b)%R -> (0 <= u < 1)%R ->
  (uniform_value ar a b 0 <= uniform_value ar a b u
   <= uniform_value ar a b 1)%R.
Proof.
  intros Hc Hab Hu. split; apply uniform_value_mono; try done; lra.
Qed.

(** Between integers the ends of the range are the integers themselves. *)
Lemma uniform_value_ends (ar : Arith) (a b : Z) :
  conforming ar ->
  (Z.abs a <= 2 ^ 53)%Z -> (Z.abs b <= 2 ^ 53)%Z -> (Z.abs (b - a) <= 2 ^ 53)%Z ->
  uniform_value ar (IZR a) (IZR b) 0 = IZR a /\
  uniform_value ar (IZR a) (IZR b) 1 = IZR b.
Proof.
  intros Hc Ha Hb Hba. pose proof (rnd_zero ar Hc) as H0.
  unfold uniform_value, fadd, fmul, fsub.
  rewrite <- minus_IZR, (rnd_exact ar (b - a) Hc Hba).
  rewrite Rmult_0_r, H0, Rplus_0_r, (rnd_exact ar a Hc Ha).
  split; [done|].
  rewrite Rmult_1_r, (rnd_exact ar (b - a) Hc Hba), <- plus_IZR.
  replace (a + (b - a))%Z with b by lia. by apply rnd_exact.
Qed.

(** The angle lies between 0 and the program's [2 * math.pi]. *)
Lemma angle_range (ar : Arith) (u : R) :
  conforming ar -> (0 <= u < 1)%R ->
  (0 <= uniform_value ar 0 (fmul ar 2 (fpi ar)) u <= fmul ar 2 (fpi ar))%R.
Proof.
  intros Hc Hu. pose proof (rnd_zero ar Hc) as H0.
  pose proof (uniform_value_range ar 0 (fmul ar 2 (fpi ar)) u Hc) as Hr.
  destruct Hc as (_ & Hidem & _ & _ & _ & _ & _ & Htau).
  specialize (Hr (proj1 Htau) Hu).
  assert (uniform_value ar 0 (fmul ar 2 (fpi ar)) 0 = 0%R) as E0.
  { unfold uniform_value, fadd, fmul at 1. by rewrite Rmult_0_r, H0, Rplus_0_l. }
  assert (uniform_value ar 0 (fmul ar 2 (fpi ar)) 1 = fmul ar 2 (fpi ar)) as E1.
  { unfold uniform_value, fadd, fsub, fmul.
    by rewrite Rminus_0_r, Rmult_1_r, Rplus_0_l, !Hidem. }
  by rewrite E0, E1 in Hr.
Qed.

(** One coordinate: the product with the cosine or the sine as the
    library returns it, rounded and stored, against the exact product. *)
Lemma coordinate_error (ar : Arith) (r t t0 : R) :
  conforming ar -> (1 <= r <= 1000)%R -> (-1 <= t0 <= 1)%R ->
  (Rabs (t - t0) <= / 2 ^ 52)%R ->
  (- (r * (/ 2 ^ 24 + / 2 ^ 50)) <= single ar (fmul ar r t) - r * t0
   <= r * (/ 2 ^ 24 + / 2 ^ 50))%R.
Proof.
  intros (_ & _ & _ & Herr & _ & Hserr & _) Hr Ht0 Ht.
  apply Rabs_bound in Ht. unfold fmul.
  set (B := (r * (1 + / 2 ^ 52))%R).
  assert (- B <= r * t <= B)%R as Hq by (unfold B; nra).
  assert (Rabs (r * t) <= B)%R as Hqa by (by apply Rabs_le).
  assert (- (r * / 2 ^ 52) <= r * (t - t0) <= r * / 2 ^ 52)%R as Hd by nra.
  assert (Rabs (r * t) <= 2 ^ 20)%R as Hdom by (unfold B in Hqa; lra).
  pose proof (Rabs_bound _ _ (Herr _ Hdom)) as Hp.
  set (p := rnd ar (r * t)) in *.
  assert (Rabs p <= B + B / 2 ^ 53 + / 2 ^ 149)%R as Hpa.
  { apply Rabs_le. lra. }
  assert (Rabs p <= 2 ^ 20)%R as Hdom' by (unfold B in Hpa; lra).
  pose proof (Rabs_bound _ _ (Hserr _ Hdom')) as Hx.
  unfold B in *. lra.
Qed.

Lemma norm_perturbed (r m c s ex ey : R) :
  (0 <= m)%R -> (9 * m <= 2 * r)%R -> (c * c + s * s = 1)%R ->
  (- m <= ex <= m)%R -> (- m <= ey <= m)%R ->
  (Rabs (sqrt ((r * c + ex) * (r * c + ex) + (r * s + ey) * (r * s + ey)) - r)
   <= 3 * m)%R.
Proof.
  intros Hm Hr Hcs Hex Hey.
  assert (-1 <= c <= 1)%R as Hc by nra.
  assert (-1 <= s <= 1)%R as Hs by nra.
  assert (- m <= c * ex <= m)%R as Hcex by nra.
  assert (- m <= s * ey <= m)%R as Hsey by nra.
  assert (0 <= ex * ex <= m * m)%R as Hex2 by nra.
  assert (0 <= ey * ey <= m * m)%R as Hey2 by nra.
  replace ((r * c + ex) * (r * c + ex) + (r * s + ey) * (r * s + ey))%R
    with (r * r * (c * c + s * s) + 2 * r * (c * ex + s * ey) + ex * ex + ey * ey)%R
    by ring.
  rewrite Hcs, Rmult_1_r.
  set (X := (r * r + 2 * r * (c * ex + s * ey) + ex * ex + ey * ey)%R).
  assert ((r - 3 * m) * (r - 3 * m) <= X)%R as Hlo by (unfold X; nra).
  assert (X <= (r + 3 * m) * (r + 3 * m))%R as Hhi by (unfold X; nra).
  assert (0 <= r - 3 * m)%R as Hpos by lra.
  apply sqrt_le_1_alt in Hlo, Hhi.
  rewrite sqrt_square in Hlo by lra. rewrite sqrt_square in Hhi by lra.
  apply Rabs_le. lra.
Qed.

(** The stored position of a record lies at the drawn radius, up to the
    rounding of the products and of the storage. *)
Lemma stored_radius (ar : Arith) (r ang z : R) :
  conforming ar -> (1 <= r <= 1000)%R -> (0 <= ang <= 8)%R ->
  (Rabs (planar_radius origin
           (single ar (fmul ar r (fcos ar ang)),
            single ar (fmul ar r (fsin ar ang)), z) - r)
   <= r / 2 ^ 22)%R.
Proof.
  intros Hc Hr Hang.
  pose proof Hc as (_ & _ & _ & _ & _ & _ & Htrig & _).
  destruct (Htrig ang Hang) as [Hcos Hsin].
  pose proof (coordinate_error ar r _ _ Hc Hr (COS_bound ang) Hcos) as Hx.
  pose proof (coordinate_error ar r _ _ Hc Hr (SIN_bound ang) Hsin) as Hy.
  unfold planar_radius, origin, vx, vy. cbn [fst snd].
  rewrite !Rminus_0_r.
  set (x := single ar (fmul ar r (fcos ar ang))) in *.
  set (y := single ar (fmul ar r (fsin ar ang))) in *.
  set (m := (r * (/ 2 ^ 24 + / 2 ^ 50))%R) in *.
  pose proof (sin2_cos2 ang) as Hsc. unfold Rsqr in Hsc.
  pose proof (norm_perturbed r m (cos ang) (sin ang) (x - r * cos ang)
                (y - r * sin ang)) as Hn.
  replace (r * cos ang + (x - r * cos ang))%R with x in Hn by ring.
  replace (r * sin ang + (y - r * sin ang))%R with y in Hn by ring.
  assert (0 <= m)%R as Hm by (unfold m; lra).
  assert (9 * m <= 2 * r)%R as Hm' by (unfold m; lra).
  specialize (Hn Hm Hm' ltac:(lra) Hx Hy).
  unfold m in Hn. lra.
Qed.

End ScatterFacts.
Import ScatterFacts.

Lemma flyby_rock_drawn (ar : Arith) (mat : nat) (inner outer : R)
  (e : nat -> R) (ob : Object) :
  conforming ar -> (inner <= outer)%R ->
  (1 <= uniform_value ar inner outer 0)%R ->
  (uniform_value ar inner outer 1 <= 1000)%R ->
  (forall j, (0 <= e j < 1)%R) ->
  placement ob = placement (flyby_rock ar mat inner outer e) ->
  drawn ar origin (uniform_value ar inner outer 0) (uniform_value ar inner outer 1)
        (uniform_value ar (-5) 5 0) (uniform_value ar (-5) 5 1)
        (uniform_value ar (rnd ar 0.2) (rnd ar 0.8) 0)
        (uniform_value ar (rnd ar 0.2) (rnd ar 0.8) 1) ob.
Proof.
  intros Hc Hio Hlo Hhi He [= Hloc Hprim].
  pose proof (uniform_value_range ar inner outer (e 0) Hc Hio (He 0)) as Hr.
  pose proof (angle_range ar (e 1) Hc (He 1)) as Hang.
  exists (uniform_value ar inner outer (e 0)),
    (uniform_value ar 0 (fmul ar 2 (fpi ar)) (e 1)),
    (uniform_value ar (-5) 5 (e 2)),
    (uniform_value ar (rnd ar 0.2) (rnd ar 0.8) (e 3)), 1.
  split; [done|]. split; [done|].
  split; [apply uniform_value_range; [done|lra|done]|].
  split.
  { apply uniform_value_range; [done| |done].
    destruct Hc as (Hmono & _). apply Hmono. lra. }
  split; [done|]. split; [done|].
  rewrite Hloc. apply stored_radius; [done|lra|].
  destruct Hc as (_ & _ & _ & _ & _ & _ & _ & Htau). lra.
Qed.

Lemma scene_asteroid_drawn (ar : Arith) (mat : nat) (inner outer zrange : R)
  (tex : string) (e : nat -> R) (ob : Object) :
  conforming ar -> (inner <= outer)%R -> (0 <= zrange)%R ->
  (1 <= uniform_value ar inner outer 0)%R ->
  (uniform_value ar inner outer 1 <= 1000)%R ->
  (forall j, (0 <= e j < 1)%R) ->
  placement ob = placement (scene_asteroid ar mat inner outer zrange tex e) ->
  drawn ar SpaceScene.PLANET_LOC
        (uniform_value ar inner outer 0) (uniform_value ar inner outer 1)
        (uniform_value ar (- zrange) zrange 0) (uniform_value ar (- zrange) zrange 1)
        (uniform_value ar (rnd ar 0.1) (rnd ar 0.4) 0)
        (uniform_value ar (rnd ar 0.1) (rnd ar 0.4) 1) ob.
Proof.
  intros Hc Hio Hz Hlo Hhi He [= Hloc Hprim].
  pose proof (uniform_value_range ar inner outer (e 1) Hc Hio (He 1)) as Hr.
  pose proof (angle_range ar (e 0) Hc (He 0)) as Hang.
  pose proof Hc as (Hmono & Hidem & _ & _ & _ & _ & _ & Htau).
  assert (forall p, fadd ar 0 (fmul ar p (fcos ar (uniform_value ar 0 (fmul ar 2 (fpi ar)) (e 0))))
                    = fmul ar p (fcos ar (uniform_value ar 0 (fmul ar 2 (fpi ar)) (e 0))))
    as Hx.
  { intros p. unfold fadd, fmul. by rewrite Rplus_0_l, Hidem. }
  assert (forall p, fadd ar 0 (fmul ar p (fsin ar (uniform_value ar 0 (fmul ar 2 (fpi ar)) (e 0))))
                    = fmul ar p (fsin ar (uniform_value ar 0 (fmul ar 2 (fpi ar)) (e 0))))
    as Hy.
  { intros p. unfold fadd, fmul. by rewrite Rplus_0_l, Hidem. }
  assert (fadd ar 0 (uniform_value ar (- zrange) zrange (e 2))
          = uniform_value ar (- zrange) zrange (e 2)) as Hzz.
  { unfold uniform_value, fadd. by rewrite Rplus_0_l, Hidem. }
  unfold SpaceScene.PLANET_LOC, vx, vy, vz in Hloc. cbn [fst snd] in Hloc.
  rewrite Hx, Hy, Hzz in Hloc.
  exists (uniform_value ar inner outer (e 1)),
    (uniform_value ar 0 (fmul ar 2 (fpi ar)) (e 0)),
    (uniform_value ar (- zrange) zrange (e 2)),
    (uniform_value ar (rnd ar 0.1) (rnd ar 0.4) (e 3)), 2.
  split; [done|]. split; [done|].
  split; [apply uniform_value_range; [done|lra|done]|].
  split.
  { apply uniform_value_range; [done| |done]. apply Hmono. lra. }
  split; [done|]. split; [done|].
  rewrite Hloc. change SpaceScene.PLANET_LOC with origin.
  apply stored_radius; [done|lra|lra].
Qed.

Lemma scatter_scattered (ar : Arith) (axis : Vec)
  (inner outer hlo hhi slo shi : R) (count : nat)
  (record : nat -> (nat -> R) -> Object) (rec : (nat -> R) -> Vec * Primitive)
  (d d' : Data) :
  (0 <= inner)%R ->
  (forall i e, (forall j, (0 <= e j < 1)%R) ->
               drawn ar axis inner outer hlo hhi slo shi (record i e)) ->
  (forall i e, placement (record i e) = rec e) ->
  (forall j, (0 <= entropy d j < 1)%R) ->
  objects d' = objects d ++ scatter record 0 count (entropy d) ->
  (forall j, entropy d' j = entropy d (4 * count + j)) ->
  scattered ar axis inner outer hlo hhi slo shi count (entropy d) rec
            (objects d) d'.
Proof.
  intros Hin Hrec Hplace He Hobj Hent.
  exists (scatter record 0 count (entropy d)).
  split; [done|]. split; [apply scatter_length|].
  assert (Forall (drawn ar axis inner outer hlo hhi slo shi)
                 (scatter record 0 count (entropy d))) as Hdrawn.
  { by apply scatter_Forall. }
  split.
  { eapply Forall_impl; [exact Hdrawn|].
    intros ob (r & ang & z & size & sub & Hr & _ & _ & _ & _ & _ & Htol).
    apply Rabs_bound in Htol. lra. }
  split; [done|]. split; [|done].
  intros k Hk.
  destruct (scatter_lookup record count 0 (entropy d) k Hk) as (e_k & He_k & Hl).
  exists e_k. eexists. split; [done|]. split; [exact Hl|]. apply Hplace.
Qed.

Lemma materials_new_entropy (s : string) (m : nat) (d d' : Data) :
  materials_new s d = inr (m, d') -> entropy d' = entropy d.
Proof. by intros [= _ <-]. Qed.

Lemma on_node_tree_entropy {A : Type} (m : nat) (body : M A) (a : A) (d d' : Data) :
  on_node_tree m body d = inr (a, d') -> entropy d' = entropy d.
Proof.
  unfold on_node_tree. destruct (materials d !! m); [|done].
  destruct (body _) as [e|[a' t]]; [done|]. by intros [= _ <-].
Qed.

Lemma flyby_asteroid_material_inv (h : Host) (m : nat) (d d' : Data) :
  GrandFlyby.asteroid_material h d = inr (m, d') ->
  objects d' = objects d /\ entropy d' = entropy d.
Proof.
  unfold GrandFlyby.asteroid_material. intros H.
  apply sbind_inr in H as (mat & d1 & Hn & H).
  pose proof (materials_new_entropy _ _ _ _ Hn) as He1.
  apply materials_new_inv in Hn as [Ho1 _].
  apply sbind_inr in H as (a & d2 & Ht & H).
  pose proof (on_node_tree_entropy _ _ _ _ _ Ht) as He2.
  apply on_node_tree_inv in Ht as [Ho2 _].
  apply sret_inr in H as [_ ->]. split; congruence.
Qed.

(** ** The pass at the sample numbers *)

(** Decide the tests of a table at a given argument. *)
Ltac table_eval :=
  repeat match goal with
         | |- context [Req_dec_T ?x ?k] =>
             let E := fresh "E" in
             destruct (Req_dec_T x k) as [E|E];
             [try (exfalso; unfold lit02, lit08, cos64, sin64, x64, y64 in E; lra)
             |try (exfalso; apply E; reflexivity)]
         end.

Lemma sample_rnd_other (x : R) :
  x <> 0.2%R -> x <> 0.8%R -> x <> (lit08 - lit02)%R ->
  x <> (30 * cos64)%R -> x <> (30 * sin64)%R ->
  rnd sample_arith x = x.
Proof.
  intros H1 H2 H3 H4 H5. unfold sample_arith. cbn [rnd table].
  repeat (destruct (Req_dec_T _ _); [done|]). done.
Qed.

(** Results that the binary64 format holds exactly. *)
Ltac exact_here x :=
  rewrite (sample_rnd_other x)
    by (unfold lit02, lit08, cos64, sin64, pi64; let E := fresh "E" in intros E; lra).

Lemma sample_products :
  rnd sample_arith (30 * cos64) = x64 /\ rnd sample_arith (30 * sin64) = y64.
Proof.
  unfold sample_arith. cbn [rnd table]. split; table_eval; done.
Qed.

Lemma sample_stored :
  single sample_arith x64 = xy32 /\ single sample_arith y64 = xy32 /\
  single sample_arith (-5) = (-5)%R.
Proof.
  unfold sample_arith. cbn [single table]. repeat split; table_eval; done.
Qed.

Lemma sample_trig :
  fcos sample_arith quarter_pi64 = cos64 /\ fsin sample_arith quarter_pi64 = sin64.
Proof.
  unfold sample_arith. cbn [fcos fsin table]. split; table_eval; done.
Qed.

(** The first rock of the sample run: radius 30 is drawn, a quarter of
    [math.pi] as angle, and the position is stored as the same single
    precision number twice. *)
Lemma sample_position (mat : nat) :
  location (flyby_rock sample_arith mat 30 60 sample_draws) = (xy32, xy32, (-5)%R).
Proof.
  assert (sample_draws 0 = 0%R) as D0 by reflexivity.
  assert (sample_draws 1 = (/ 8)%R) as D1 by reflexivity.
  assert (sample_draws 2 = 0%R) as D2 by reflexivity.
  assert (uniform_value sample_arith 30 60 0 = 30%R) as Hr.
  { unfold uniform_value, fadd, fmul, fsub.
    exact_here (60 - 30)%R. exact_here ((60 - 30) * 0)%R.
    exact_here (30 + (60 - 30) * 0)%R. lra. }
  assert (fmul sample_arith 2 (fpi sample_arith) = (2 * pi64)%R) as Htau.
  { unfold fmul. change (fpi sample_arith) with pi64. by exact_here (2 * pi64)%R. }
  assert (uniform_value sample_arith 0 (2 * pi64) (/ 8) = quarter_pi64) as Hang.
  { unfold uniform_value, fadd, fmul, fsub.
    exact_here (2 * pi64 - 0)%R. exact_here ((2 * pi64 - 0) * / 8)%R.
    exact_here (0 + (2 * pi64 - 0) * / 8)%R. unfold pi64, quarter_pi64. lra. }
  assert (uniform_value sample_arith (-5) 5 0 = (-5)%R) as Hz.
  { unfold uniform_value, fadd, fmul, fsub.
    exact_here (5 - -5)%R. exact_here ((5 - -5) * 0)%R.
    exact_here (-5 + (5 - -5) * 0)%R. lra. }
  unfold flyby_rock. cbn [location]. rewrite D0, D1, D2, Hr, Htau, Hang, Hz.
  destruct sample_trig as [-> ->]. unfold fmul.
  destruct sample_products as [-> ->].
  by destruct sample_stored as (-> & -> & ->).
Qed.

Lemma sample_radius_below : (planar_radius origin (xy32, xy32, (-5)%R) < 30)%R.
Proof.
  unfold planar_radius, origin, vx, vy. cbn [fst snd]. rewrite !Rminus_0_r.
  rewrite <- (sqrt_square 30) by lra.
  apply sqrt_lt_1_alt. unfold xy32. lra.
Qed.

(** Evaluate a number of a binary format. *)
Ltac float_eval :=
  repeat match goal with
         | |- context [float_value ?x] =>
             lazymatch x with
             | SpecFloat.S754_finite _ _ _ => fail
             | _ =>
                 let v := eval vm_compute in x in
                 replace x with v by (vm_compute; reflexivity)
             end
         end;
  unfold float_value; cbn [SpecFloat.cond_Zopp powerRZ Pos.to_nat Pos.iter_op].

(** The numbers of the sample pass are the ones binary64 arithmetic and
    the conversion to single precision produce: the products of 30 with
    the cosine and the sine, their single-precision values, a quarter of
    [math.pi] as [uniform] computes it from the output 1/8, and the
    literals 0.2 and 0.8 with their difference. *)
Lemma sample_numbers_binary :
  let thirty := binary64 30 0 in
  let c := binary64 6369051672525773 (-53) in
  let s := binary64 6369051672525772 (-53) in
  let p := binary64 884279719003555 (-48) in
  let fifth := PrimFloat.div (binary64 1 0) (binary64 5 0) in
  let four_fifths := PrimFloat.div (binary64 4 0) (binary64 5 0) in
  float_value (FloatOps.Prim2SF c) = cos64 /\
  float_value (FloatOps.Prim2SF s) = sin64 /\
  float_value (FloatOps.Prim2SF p) = pi64 /\
  float_value (FloatOps.Prim2SF
                 (PrimFloat.mul (PrimFloat.mul (binary64 2 0) p) (binary64 1 (-3))))
  = quarter_pi64 /\
  float_value (FloatOps.Prim2SF (PrimFloat.mul thirty c)) = x64 /\
  float_value (FloatOps.Prim2SF (PrimFloat.mul thirty s)) = y64 /\
  float_value (to_binary32 (PrimFloat.mul thirty c)) = xy32 /\
  float_value (to_binary32 (PrimFloat.mul thirty s)) = xy32 /\
  float_value (FloatOps.Prim2SF fifth) = lit02 /\
  float_value (FloatOps.Prim2SF four_fifths) = lit08 /\
  float_value (FloatOps.Prim2SF (PrimFloat.sub four_fifths fifth)) = diff0802.
Proof.
  cbv zeta.
  unfold cos64, sin64, pi64, quarter_pi64, x64, y64, xy32, lit02, lit08, diff0802.
  repeat split; float_eval; simpl; lra.
Qed.

Lemma scatter_head (record : nat -> (nat -> R) -> Object) (start count : nat)
  (e : nat -> R) :
  scatter record start (S count) e !! 0 = Some (record start e).
Proof. reflexivity. Qed.

(** C2, as stated, fails: in the arithmetic of the program a record can
    lie inside the inner radius.  With the radius drawn at 30 and the angle
    at a quarter of [math.pi], the two products, rounded to binary64 and
    stored in single precision, both become 2780457 / 2^17, and the
    distance of that point from the axis is below 30. *)
Lemma C2_stored_radius_below_inner :
  exists d' ob,
    GrandFlyby.add_asteroid_field sample_arith reference_host 250 30 60 sample_data
    = inr (tt, d') /\
    objects d' !! length (objects sample_data) = Some ob /\
    (planar_radius origin (location ob) < 30)%R.
Proof.
  destruct (GrandFlyby.asteroid_material reference_host sample_data)
    as [e | [mat d1]] eqn:E; [by vm_compute in E|].
  unfold GrandFlyby.add_asteroid_field, range. 
  destruct (for_each_add_asteroid sample_arith mat 30 60 250 0 d1)
    as (d' & Hrun & Ho & _).
  apply flyby_asteroid_material_inv in E as Hinv. destruct Hinv as [Hobj Hent].
  exists d', (set_name "Icosphere" (flyby_rock sample_arith mat 30 60 sample_draws)).
  split; [by rewrite (sbind_run _ _ _ _ _ E)|]. split.
  - rewrite Ho, Hobj, Hent, lookup_app_r, Nat.sub_diag by done.
    exact (scatter_head
             (fun _ e => set_name "Icosphere" (flyby_rock sample_arith mat 30 60 e))
             0 249 sample_draws).
  - change (location (set_name "Icosphere"
                        (flyby_rock sample_arith mat 30 60 sample_draws)))
      with (location (flyby_rock sample_arith mat 30 60 sample_draws)).
    rewrite sample_position. apply sample_radius_below.
Qed.

Lemma exact_arith_conforming : conforming exact_arith.
Proof.
  unfold conforming, exact_arith, fmul. cbn [rnd single fcos fsin fpi].
  pose proof PI_RGT_0. pose proof PI_4.
  split; [done|]. split; [done|]. split; [done|].
  split.
  { intros x _. rewrite Rminus_diag, Rabs_R0.
    pose proof (Rabs_pos x). lra. }
  split; [done|]. split.
  { intros x _. rewrite Rminus_diag, Rabs_R0.
    pose proof (Rabs_pos x). lra. }
  split; [|lra].
  intros a _. rewrite !Rminus_diag, Rabs_R0. lra.
Qed.

(** C2, amended: with inner radius 30, outer radius 60 and count 250 both
    scatterers add exactly 250 objects.  Each record is made of four
    outputs of the generator of its own, none drawn twice, skipped or
    rejected: a radius r with 30 <= r <= 60, an angle between 0 and the
    program's [2 * math.pi], a height and a size between the values that
    [random.uniform] gives at 0 and at 1.  The position is the polar point
    of radius and angle, computed in Python floats and stored in single
    precision, so its planar radius is r up to that rounding: it differs
    from r by at most r / 2^22 and lies between 30 * (1 - 2^-22) and
    60 * (1 + 2^-22).  The arithmetic is taken as the IEEE formats and the
    C library guarantee it ([conforming]), the outputs of the generator in
    [0, 1), and the material of [create_asteroid_field] live. *)
Theorem C2_annulus_scatter (ar : Arith) :
  conforming ar ->
  (forall h mat d d1,
     (forall j, (0 <= entropy d j < 1)%R) ->
     GrandFlyby.asteroid_material h d = inr (mat, d1) ->
     exists d',
       GrandFlyby.add_asteroid_field ar h 250 30 60 d = inr (tt, d') /\
       scattered ar origin 30 60 (-5) 5
                 (uniform_value ar (rnd ar 0.2) (rnd ar 0.8) 0)
                 (uniform_value ar (rnd ar 0.2) (rnd ar 0.8) 1)
                 250 (entropy d)
                 (fun e => placement (flyby_rock ar mat 30 60 e)) (objects d) d') /\
  (forall mat zrange d,
     (0 <= zrange)%R -> is_Some (materials d !! mat) ->
     (forall j, (0 <= entropy d j < 1)%R) ->
     exists d',
       SpaceScene.create_asteroid_field ar mat 250 30 60 zrange d
       = inr (seq (length (objects d)) 250, d') /\
       scattered ar SpaceScene.PLANET_LOC 30 60
                 (uniform_value ar (- zrange) zrange 0)
                 (uniform_value ar (- zrange) zrange 1)
                 (uniform_value ar (rnd ar 0.1) (rnd ar 0.4) 0)
                 (uniform_value ar (rnd ar 0.1) (rnd ar 0.4) 1)
                 250 (entropy d)
                 (fun e => placement (scene_asteroid ar mat 30 60 zrange "" e))
                 (objects d) d').
Proof.
  intros Hc.
  destruct (uniform_value_ends ar 30 60 Hc) as [E30 E60]; [lia..|].
  destruct (uniform_value_ends ar (-5) 5 Hc) as [E5m E5]; [lia..|].
  replace (IZR (-5)) with (-5)%R in E5m, E5 by lra.
  split.
  - intros h mat d d1 He Hmat. unfold GrandFlyby.add_asteroid_field.
    run Hmat.
    apply flyby_asteroid_material_inv in Hmat as [Hobj Hent].
    destruct (for_each_add_asteroid ar mat 30 60 250 0 d1) as (d' & Hrun & Ho & Hd).
    exists d'. split; [exact Hrun|].
    rewrite <- Hobj, <- Hent.
    apply (scatter_scattered ar origin 30 60 (-5) 5 _ _ 250
             (fun _ e => set_name "Icosphere" (flyby_rock ar mat 30 60 e))).
    + lra.
    + intros i e He'.
      pose proof (flyby_rock_drawn ar mat 30 60 e
                    (set_name "Icosphere" (flyby_rock ar mat 30 60 e)) Hc) as Hd'.
      rewrite E30, E60, E5m, E5 in Hd'. apply Hd'; [lra|lra|lra|done|done].
    + done.
    + intros j. by rewrite Hent.
    + done.
    + done.
  - intros mat zrange d Hz [m Hlive] He. unfold SpaceScene.create_asteroid_field.
    destruct (fold_each_create_asteroid ar mat m 30 60 zrange 250 0 [] d Hlive)
      as (d' & Hrun & Ho & Hd).
    exists d'. split; [exact Hrun|].
    apply (scatter_scattered ar SpaceScene.PLANET_LOC 30 60 _ _ _ _ 250
             (fun i e => set_name ("Asteroid_" +:+ SpaceScene.pad3 i)
                           (scene_asteroid ar mat 30 60 zrange
                                           ("AstTex_" +:+ pretty i) e))).
    + lra.
    + intros i e He'.
      pose proof (scene_asteroid_drawn ar mat 30 60 zrange ("AstTex_" +:+ pretty i) e
                    (set_name ("Asteroid_" +:+ SpaceScene.pad3 i)
                       (scene_asteroid ar mat 30 60 zrange
                                       ("AstTex_" +:+ pretty i) e)) Hc) as Hd'.
      rewrite E30, E60 in Hd'. apply Hd'; [lra|done|lra|lra|done|done].
    + done.
    + done.
    + done.
    + done.
Qed.

(** C2 amended, in arithmetic without rounding: on the reference host, in
    the file that holds a planet, with a generator that keeps returning one
    half. *)
Lemma C2_annulus_scatter_witness :
  (exists mat d',
     GrandFlyby.add_asteroid_field exact_arith reference_host 250 30 60 reference_data
     = inr (tt, d') /\
     scattered exact_arith origin 30 60 (-5) 5
               (uniform_value exact_arith (rnd exact_arith 0.2) (rnd exact_arith 0.8) 0)
               (uniform_value exact_arith (rnd exact_arith 0.2) (rnd exact_arith 0.8) 1)
               250 (entropy reference_data)
               (fun e => placement (flyby_rock exact_arith mat 30 60 e))
               (objects reference_data) d').
Proof.
  assert (forall j, (0 <= entropy reference_data j < 1)%R) as He.
  { intros j. simpl. lra. }
  destruct (GrandFlyby.asteroid_material reference_host reference_data)
    as [e | [mat d1]] eqn:E; [by vm_compute in E|].
  exists mat.
  exact (proj1 (C2_annulus_scatter exact_arith exact_arith_conforming)
           reference_host mat reference_data d1 He E).
Defined.

(* ===================================================================== *)
(** * The material recipes *)
(* ===================================================================== *)

Module RecipeFacts.

Lemma reach_linked (w : list (nat * nat)) (fuel : nat) :
  forall a b, reach fuel w a b = true -> linked w a b.
Proof.
  induction fuel as [|fuel IH]; intros a b H; simpl in H;
    apply existsb_exists in H as ([x y] & Hin & H); simpl in H;
    apply list_elem_of_In in Hin;
    destruct (Nat.eqb_spec x a) as [->|]; try done;
    destruct (Nat.eqb_spec y b) as [->|]; try done;
    try (by apply linked_once).
  eapply linked_more; [exact Hin|]. by apply IH.
Qed.

(** Ranks that grow along every link grow along every path. *)
Lemma linked_ranks (ranks : list nat) (w : list (nat * nat)) :
  Forall (fun e => exists x y, ranks !! fst e = Some x /\ ranks !! snd e = Some y /\
                               x < y) w ->
  forall a b, linked w a b ->
              exists x y, ranks !! a = Some x /\ ranks !! b = Some y /\ x < y.
Proof.
  intros Hw a b H. rewrite Forall_forall in Hw.
  induction H as [a b Hin | a b c Hin _ IH].
  - exact (Hw _ Hin).
  - destruct (Hw _ Hin) as (x & y & Hx & Hy & Hxy). simpl in Hx, Hy.
    destruct IH as (y' & z & Hy' & Hz & Hyz).
    rewrite Hy in Hy'. injection Hy' as <-.
    exists x, z. repeat split; [done|done|lia].
Qed.

Lemma check_graph_sound (n : nat) (ranks : list nat) (w : list (nat * nat)) :
  check_graph n ranks w = true -> sound_graph n w.
Proof.
  unfold check_graph. rewrite !andb_true_iff.
  intros ((((Hb & Hr) & Hf) & Hin) & Hout).
  split; [|split; [|split; [|split]]].
  - apply Forall_forall. intros e He. apply list_elem_of_In in He.
    rewrite forallb_forall in Hb. specialize (Hb e He).
    apply andb_true_iff in Hb as [H1 H2].
    apply Nat.ltb_lt in H1. by apply Nat.ltb_lt in H2.
  - intros a Ha.
    destruct (linked_ranks ranks w) with (a := a) (b := a)
      as (x & y & Hx & Hy & Hxy); [|done|].
    + apply Forall_forall. intros e He. apply list_elem_of_In in He.
      rewrite forallb_forall in Hr. specialize (Hr e He).
      destruct (ranks !! fst e) as [x|]; [|done].
      destruct (ranks !! snd e) as [y|]; [|done].
      exists x, y. apply Nat.ltb_lt in Hr. done.
    + rewrite Hx in Hy. injection Hy as <-. lia.
  - intros a Ha. rewrite forallb_forall in Hf.
    assert (In a (seq 0 n)) as Hs by (apply in_seq; lia).
    specialize (Hf a Hs). apply orb_true_iff in Hf as [H0 | Hreach].
    + left. by apply Nat.eqb_eq.
    + right. by eapply reach_linked.
  - apply Nat.eqb_eq in Hin.
    destruct (filter (fun e => snd e = 0) w) as [|[a b] [|? ?]] eqn:E;
      simpl in Hin; try lia.
    exists a. assert ((a, b) ∈ filter (fun e => snd e = 0) w) as He.
    { rewrite E. by apply list_elem_of_singleton. }
    apply list_elem_of_filter in He as [He _]. simpl in He. by subst b.
  - apply Nat.eqb_eq in Hout. by apply nil_length_inv.
Qed.

Lemma nodes_clear_inv (t t' : NodeTree) (u : unit) :
  nodes_clear t = inr (u, t') ->
  length (nodes t') = 0 /\ kinds t' = [] /\ wiring t' = [].
Proof. by intros [= _ <-]. Qed.

Lemma ramp_element_inv (n i : nat) (t t' : NodeTree) (s : nat * nat) :
  SceneRecipes.ramp_element n i t = inr (s, t') -> t' = t /\ fst s = n.
Proof.
  unfold SceneRecipes.ramp_element. intros H.
  apply sbind_inr in H as (node & t1 & Hn & H).
  apply get_node_inv in Hn as [-> _].
  destruct (color_ramp node) as [elements|]; [|done].
  destruct (elements !! i); [|done]. by apply sret_inr in H as [-> ->].
Qed.

(** Take the body of a recipe apart, one statement at a time. *)
Ltac invert_recipe H :=
  lazymatch type of H with
  | sbind _ _ _ = inr _ =>
      let a := fresh "a" in
      let t := fresh "t" in
      let E := fresh "E" in
      apply sbind_inr in H as (a & t & E & H);
      invert_recipe E; cbv beta in H; invert_recipe H
  | nodes_clear _ = inr _ => apply nodes_clear_inv in H as (? & ? & ?)
  | SceneRecipes.ramp_element _ _ _ = inr _ =>
      apply ramp_element_inv in H as (-> & ?)
  | nodes_new _ _ _ = inr _ => apply nodes_new_inv in H as (-> & ? & ? & ?)
  | input_named _ _ _ = inr _ => apply input_named_inv in H as (-> & ?)
  | input_at _ _ _ = inr _ => apply input_at_inv in H as (-> & ?)
  | output_named _ _ _ = inr _ => apply output_named_inv in H as (-> & ?)
  | set_default _ _ _ = inr _ => apply set_default_inv in H as (? & ? & ?)
  | set_node_attr _ _ _ _ = inr _ =>
      apply set_node_attr_inv in H as (? & ? & ?)
  | set_ramp_element _ _ _ _ = inr _ =>
      apply set_ramp_element_inv in H as (? & ? & ?)
  | SpaceScene.set_input_of _ _ _ _ = inr _ =>
      apply set_input_of_inv in H as (? & ? & ?)
  | links_new _ _ _ = inr _ => apply links_new_inv in H as (? & ? & ?)
  end.

(** The skeleton of every material function: a new material, the body run
    on its tree, and a continuation. *)
Lemma new_material_inv {A : Type} (s : string) (body : M unit)
  (k : nat -> Op A) (d : Data) (r : A * Data) :
  (mat <- materials_new s ;; on_node_tree mat body ;; k mat) d = inr r ->
  exists t d1,
    body (mkNodeTree [] []) = inr (tt, t) /\
    adds_material s t d d1 /\
    k (length (materials d)) d1 = inr r.
Proof.
  intros H. apply sbind_inr in H as (mat & d0 & Hnew & H).
  injection Hnew as <- <-.
  apply sbind_inr in H as (u & d1 & Hbody & H).
  unfold on_node_tree, with_materials in Hbody.
  cbn [materials objects textures active_object entropy] in Hbody.
  rewrite lookup_snoc in Hbody. cbn [node_tree material_name] in Hbody.
  destruct (body _) as [e | [[] t]] eqn:E; [done|].
  injection Hbody as _ <-. exists t. eexists. split; [done|]. split; [|exact H].
  unfold adds_material. cbn [materials objects textures active_object entropy].
  by rewrite insert_snoc.
Qed.

Lemma recipe_links (h : Host) (types : list string) (w : list (nat * nat))
  (t : NodeTree) :
  kinds t = (fun type => bl_idname (new_node h type)) <$> types ->
  wiring t = w ->
  recipe_tree h types w t.
Proof.
  intros Hk Hw. unfold recipe_tree. split; [done|].
  split.
  { unfold kinds in Hk. apply (f_equal length) in Hk.
    by rewrite !length_fmap in Hk. }
  split; [done|]. by rewrite <- wiring_length, Hw.
Qed.

End RecipeFacts.

Import RecipeFacts.









(** X6: [add_sun] of both scripts, on every host on which it runs to its
    end, returns the handle of one new sphere, smooth and active, whose
    only material slot holds the one new material; the tree of that
    material is blackbody into emission into output, a sound graph
    ([sound_graph]).  The objects and materials that were there are
    untouched.  Nothing is said of the names, which the host settles. *)
Theorem X6_add_sun (h : Host) (s : string) (radius : R) (loc : Vec) (kelvin : R)
  (d d' : Data) (sun : nat) :
  SceneRecipes.add_sun h s radius loc kelvin d = inr (sun, d') \/
  FlybyRecipes.add_sun h s radius loc kelvin d = inr (sun, d') ->
  sun = length (objects d) /\
  exists ob m,
    objects d' = objects d ++ [ob] /\
    anonymous ob = new_sphere "" 96 48 radius loc [length (materials d)] /\
    materials d' = materials d ++ [m] /\ use_nodes m = true /\
    active_object d' = Some sun /\
    textures d' = textures d /\ entropy d' = entropy d /\
    recipe_tree h sun_types sun_wiring (node_tree m) /\
    sound_graph 3 sun_wiring.
Proof.
  assert (forall body : M unit,
    (primitive_uv_sphere_add 96 48 radius loc ;;
     sun <- context_active_object ;;
     update_object sun (set_name s) ;;
     shade_smooth ;;
     mat <- materials_new (s +:+ "_Mat") ;;
     on_node_tree mat body ;;
     update_object sun (append_material mat) ;;
     sret sun) d = inr (sun, d') ->
    sun = length (objects d) /\
    exists t,
      body (mkNodeTree [] []) = inr (tt, t) /\
      objects d'
      = objects d ++ [new_sphere s 96 48 radius loc [length (materials d)]] /\
      materials d' = materials d ++ [mkMaterial (s +:+ "_Mat") true t] /\
      active_object d' = Some sun /\
      textures d' = textures d /\ entropy d' = entropy d) as Hskel.
  { intros body H. unfold primitive_uv_sphere_add in H.
    rewrite (sbind_run _ _ _ _ _ (add_object_run _ _)) in H.
    rewrite (sbind_run _ _ _ _ _ (context_active_object_run _ _ _ _ _)) in H.
    rewrite (sbind_run _ _ _ _ _ (update_last _ _ _ _ _ _ _)) in H.
    unfold shade_smooth in H.
    rewrite (sbind_run _ _ _ _ _ (shade_last _ _ _ _ _ _)) in H.
    apply new_material_inv in H as (t & d1 & Hbody & Hadd & H).
    destruct d1 as [os ms ts ao en]. unfold adds_material in Hadd.
    cbn [objects materials textures active_object entropy] in Hadd.
    destruct Hadd as (-> & -> & -> & -> & ->).
    cbn [objects materials textures active_object entropy] in H.
    rewrite (sbind_run _ _ _ _ _ (update_last _ _ _ _ _ _ _)) in H.
    apply sret_inr in H as [-> ->]. split; [done|]. exists t.
    by repeat split. }
  assert (sound_graph 3 sun_wiring) as Hsound.
  { apply (check_graph_sound 3 [2; 1; 0]). vm_compute. reflexivity. }
  intros [H | H].
  - unfold SceneRecipes.add_sun in H. apply Hskel in H as (-> & t & Hbody & Hrest).
    split; [done|]. destruct Hrest as (? & ? & ? & ? & ?).
    exists (new_sphere s 96 48 radius loc [length (materials d)]),
           (mkMaterial (s +:+ "_Mat") true t).
    repeat (split; [done|]). split; [|done]. simpl.
    invert_recipe Hbody. chain_facts. by apply recipe_links.
  - unfold FlybyRecipes.add_sun in H. apply Hskel in H as (-> & t & Hbody & Hrest).
    split; [done|]. destruct Hrest as (? & ? & ? & ? & ?).
    exists (new_sphere s 96 48 radius loc [length (materials d)]),
           (mkMaterial (s +:+ "_Mat") true t).
    repeat (split; [done|]). split; [|done]. simpl.
    invert_recipe Hbody. chain_facts. by apply recipe_links.
Qed.

(** X6 on the host of the remaining recipes, with the sun of
    space_scene.py. *)
Lemma X6_add_sun_witness :
  exists sun d' m,
    SceneRecipes.add_sun FullHost.full_host "Sun" 2.5 (15, -8, 6)%R
                         SceneRecipes.SUN_TEMP_K reference_data
    = inr (sun, d') /\
    sun = 1 /\
    materials d' = [m] /\
    recipe_tree FullHost.full_host sun_types sun_wiring (node_tree m).
Proof.
  destruct (SceneRecipes.add_sun FullHost.full_host "Sun" 2.5 (15, -8, 6)%R
              SceneRecipes.SUN_TEMP_K reference_data)
    as [e | [sun d']] eqn:E; [by vm_compute in E|].
  destruct (X6_add_sun FullHost.full_host "Sun" 2.5%R (15, -8, 6)%R
              SceneRecipes.SUN_TEMP_K reference_data d' sun (or_introl E))
    as (Hsun & ob & m & _ & _ & Hmat & _ & _ & _ & _ & Htree & _).
  exists sun, d', m. split; [reflexivity|]. split; [exact Hsun|].
  split; [exact Hmat|exact Htree].
Defined.







(* ===================================================================== *)
(** * More on the interpolation helper *)
(* ===================================================================== *)

(** X12: the mode that [apply_interp] writes is one the host offers.  On
    a host whose interpolation enum is [items], when the desired mode,
    BEZIER or LINEAR is among [items], every keyframe of the action carries
    afterwards a mode of [items], so that no assignment of the mode is one
    the host has to refuse. *)
Theorem X12_keyed_mode_offered (h : Host) (action : Action) (desired : string)
  (items : list string) :
  interpolation_enum h = inr items ->
  desired ∈ items \/ "BEZIER" ∈ items \/ "LINEAR" ∈ items ->
  Forall (fun fcu =>
            Forall (fun kp => interpolation kp ∈ items) (keyframe_points fcu))
         (fcurves (SpaceScene.apply_interp h action desired)).
Proof.
  intros Hitems Hoffered.
  assert (forall fcus,
            Exists (fun fcu => keyframe_points fcu <> []) fcus ->
            SpaceScene.probe_allowed h fcus = inr (list_to_set items)) as Hprobe.
  { intros fcus Hex. induction fcus as [|fcu fcus IH]; [by inversion Hex|].
    simpl. destruct (keyframe_points fcu) as [|kp kps] eqn:Hk.
    - apply IH. inversion Hex as [? ? Hne|]; [by rewrite Hk in Hne|done].
    - by rewrite Hitems. }
  apply Forall_forall. intros fcu Hfcu. apply Forall_forall. intros kp Hkp.
  unfold SpaceScene.apply_interp in Hfcu. simpl in Hfcu.
  apply list_elem_of_fmap in Hfcu as (fcu0 & -> & Hfcu0). simpl in Hkp.
  apply list_elem_of_fmap in Hkp as (kp0 & -> & Hkp0). simpl.
  assert (SpaceScene.allowed_modes h action = list_to_set items) as ->.
  { unfold SpaceScene.allowed_modes. rewrite Hprobe; [done|].
    apply Exists_exists. exists fcu0. split; [done|]. intros Hnil.
    rewrite Hnil in Hkp0. by apply elem_of_nil in Hkp0. }
  unfold SpaceScene.use_mode.
  destruct (decide (desired ∈ (list_to_set items : gset string))) as [Hd|Hd];
    [|destruct (decide ("BEZIER" ∈ (list_to_set items : gset string))) as [Hb|Hb]];
    rewrite elem_of_list_to_set in *; [done|done|].
  by destruct Hoffered as [? | [? | ?]].
Qed.

(** X12 at the reference host, which offers SINE: the keyframes of the
    sample action are set to a mode of the host's enum. *)
Lemma X12_keyed_mode_offered_witness :
  Forall (fun fcu =>
            Forall (fun kp =>
                      interpolation kp
                      ∈ ["CONSTANT"; "LINEAR"; "BEZIER"; "SINE"; "QUAD"; "CUBIC";
                         "QUART"; "QUINT"; "EXPO"; "CIRC"; "BACK"; "BOUNCE";
                         "ELASTIC"])
                   (keyframe_points fcu))
         (fcurves (SpaceScene.apply_interp reference_host two_key_action "SINE")).
Proof.
  apply (X12_keyed_mode_offered reference_host two_key_action "SINE" _ eq_refl).
  left. compute_done.
Defined.

(** X13: calls of [apply_interp] compose.  The call does not change what
    the next probe finds; of two calls in a row the second decides, so a
    repeated call changes nothing; and an action none of whose curves has a
    keyframe comes back as it was. *)
Theorem X13_apply_interp_composes (h : Host) (action : Action)
  (first second : string) :
  SpaceScene.allowed_modes h (SpaceScene.apply_interp h action first)
  = SpaceScene.allowed_modes h action /\
  SpaceScene.apply_interp h (SpaceScene.apply_interp h action first) second
  = SpaceScene.apply_interp h action second /\
  SpaceScene.apply_interp h (SpaceScene.apply_interp h action first) first
  = SpaceScene.apply_interp h action first /\
  (Forall (fun fcu => keyframe_points fcu = []) (fcurves action) ->
   SpaceScene.apply_interp h action first = action).
Proof.
  assert (forall mode fcus,
            SpaceScene.probe_allowed h
              ((fun fcu =>
                  mkFCurve (data_path fcu) (array_index fcu)
                           (SpaceScene.set_interpolation mode <$> keyframe_points fcu))
                 <$> fcus)
            = SpaceScene.probe_allowed h fcus) as Hprobe.
  { intros mode fcus. induction fcus as [|fcu fcus IH]; [done|].
    rewrite fmap_cons. simpl. destruct (keyframe_points fcu); simpl; [exact IH|done]. }
  assert (SpaceScene.allowed_modes h (SpaceScene.apply_interp h action first)
          = SpaceScene.allowed_modes h action) as Hallowed.
  { unfold SpaceScene.allowed_modes, SpaceScene.apply_interp. simpl.
    by rewrite Hprobe. }
  assert (forall mode,
            SpaceScene.apply_interp h (SpaceScene.apply_interp h action first) mode
            = SpaceScene.apply_interp h action mode) as Htwice.
  { intros mode. unfold SpaceScene.apply_interp at 1. rewrite Hallowed.
    unfold SpaceScene.apply_interp. simpl. f_equal.
    rewrite <- list_fmap_compose. apply list_fmap_ext. intros _ fcu _. simpl.
    f_equal. rewrite <- list_fmap_compose. by apply list_fmap_ext. }
  split; [exact Hallowed|]. split; [apply Htwice|]. split; [apply Htwice|].
  intros Hno. clear Hallowed Htwice. unfold SpaceScene.apply_interp.
  generalize (SpaceScene.use_mode first (SpaceScene.allowed_modes h action)).
  intros mode. destruct action as [fcus].
  simpl in *. f_equal. induction Hno as [|fcu fcus Hfcu _ IH]; [done|].
  rewrite fmap_cons, IH. f_equal. destruct fcu as [p i kps]. simpl in *.
  by subst kps.
Qed.

(** X13 at an action whose only curve has no keyframe. *)
Lemma X13_apply_interp_composes_witness :
  SpaceScene.apply_interp reference_host (mkAction [mkFCurve "location" 0 []]) "SINE"
  = mkAction [mkFCurve "location" 0 []].
Proof.
  apply (X13_apply_interp_composes reference_host
           (mkAction [mkFCurve "location" 0 []]) "SINE" "SINE").
  repeat constructor.
Defined.

(* ===================================================================== *)
(** * The scatterers at every count and every pair of radii *)
(* ===================================================================== *)

Module FieldFacts.

Lemma for_each_add_asteroid_blocks (ar : Arith) (mat : nat) (inner outer : R)
  (count : nat) :
  forall start d d',
    for_each (seq start count) (GrandFlyby.add_asteroid ar mat inner outer) d
    = inr (tt, d') ->
    materials d' = materials d /\ textures d' = textures d /\
    active_object d' = active_after d count.
Proof.
  induction count as [|count IH]; intros start d d'; simpl.
  - by intros [= <-].
  - run (add_asteroid_run _ _ _ _ _ _). intros H.
    apply IH in H as (Hm & Ht & Ha). rewrite Hm, Ht, Ha.
    split; [done|]. split; [done|].
    destruct count as [|c]; simpl; [by rewrite Nat.add_0_r|].
    rewrite length_app. simpl. f_equal. lia.
Qed.

Lemma fold_each_create_asteroid_blocks (ar : Arith) (mat : nat) (m : Material)
  (inner outer zrange : R) (count : nat) :
  forall start acc d r d',
    materials d !! mat = Some m ->
    fold_each (seq start count) acc
              (SpaceScene.create_asteroid ar mat inner outer zrange) d
    = inr (r, d') ->
    materials d' = materials d /\
    textures d' = textures d ++ ((fun i => "AstTex_" +:+ pretty i) <$> seq start count) /\
    active_object d' = active_after d count.
Proof.
  induction count as [|count IH]; intros start acc d r d' Hlive; simpl.
  - intros [= _ <-]. by rewrite app_nil_r.
  - run (create_asteroid_run _ _ _ _ _ _ _ _ _ Hlive). intros H.
    apply IH in H as (Hm & Ht & Ha); [|exact Hlive]. rewrite Hm, Ht, Ha. simpl.
    split; [done|]. split; [by rewrite <- app_assoc|].
    destruct count as [|c]; simpl; [by rewrite Nat.add_0_r|].
    rewrite length_app. simpl. f_equal. lia.
Qed.

End FieldFacts.

Import FieldFacts.

(** X14: [create_asteroid_field] of space_scene.py, whatever the rounding
    of the platform, the count and the radii.  With count 0 the file is
    left as it was.  With a material that is no longer in the file and a
    count above 0 the call raises ReferenceError.  With a material of the
    file the call returns the handles of the asteroids it made, in the
    order of making; asteroid [k] is shaded smooth, carries the one
    material and one displacement, whose texture is the [k]-th texture
    added to the file; the objects that were there are untouched and no
    material is added. *)
Theorem X14_scene_asteroid_field (ar : Arith) (mat count : nat)
  (inner outer zrange : R) (d : Data) :
  SpaceScene.create_asteroid_field ar mat 0 inner outer zrange d = inr ([], d) /\
  (materials d !! mat = None -> 0 < count ->
   SpaceScene.create_asteroid_field ar mat count inner outer zrange d
   = inl ReferenceError) /\
  (is_Some (materials d !! mat) ->
   exists d',
     SpaceScene.create_asteroid_field ar mat count inner outer zrange d
     = inr (seq (length (objects d)) count, d') /\
     length (objects d') = length (objects d) + count /\
     (forall k, k < length (objects d) -> objects d' !! k = objects d !! k) /\
     (forall k, k < count ->
        exists ob tex,
          objects d' !! (length (objects d) + k) = Some ob /\
          shading ob = Smooth /\ material_slots ob = [mat] /\
          fst <$> displacement ob = [tex] /\
          textures d' !! (length (textures d) + k) = Some tex) /\
     materials d' = materials d /\
     length (textures d') = length (textures d) + count /\
     active_object d' = active_after d count).
Proof.
  split; [reflexivity|]. split.
  { intros Hdead Hcount. unfold SpaceScene.create_asteroid_field, range.
    destruct count as [|count]; [lia|]. simpl. unfold sbind at 1.
    by rewrite (create_asteroid_dead _ _ _ _ _ _ _ _ Hdead). }
  intros [m Hlive].
  unfold SpaceScene.create_asteroid_field, range.
  destruct (fold_each_create_asteroid ar mat m inner outer zrange count 0 [] d Hlive)
    as (d' & Hrun & Ho & Hd).
  pose proof (fold_each_create_asteroid_blocks _ _ _ _ _ _ _ _ _ _ _ _ Hlive Hrun)
    as (Hm & Ht & Ha).
  exists d'. split; [exact Hrun|].
  split; [by rewrite Ho, length_app, scatter_length|].
  split; [intros k Hk; by rewrite Ho, lookup_app_l|].
  split.
  { intros k Hk.
    destruct (scatter_lookup
                (fun i e =>
                   set_name ("Asteroid_" +:+ SpaceScene.pad3 i)
                     (scene_asteroid ar mat inner outer zrange
                                     ("AstTex_" +:+ pretty i) e))
                count 0 (entropy d) k Hk) as (e_k & _ & Hl).
    rewrite Nat.add_0_r in Hl. eexists. exists ("AstTex_" +:+ pretty k).
    split; [by rewrite Ho, lookup_app_r, Nat.add_sub' by lia|].
    split; [done|]. split; [done|]. split; [done|].
    rewrite Ht, lookup_app_r, Nat.add_sub', list_lookup_fmap by lia.
    by rewrite lookup_seq_lt. }
  split; [done|].
  split; [by rewrite Ht, length_app, length_fmap, length_seq|].
  done.
Qed.

(** X14 with three asteroids between the radii of the script: in the file
    that holds a planet and one material, and in the file that holds no
    material. *)
Lemma X14_scene_asteroid_field_witness :
  (exists d',
     SpaceScene.create_asteroid_field exact_arith 0 3 SpaceScene.ASTEROID_INNER
       SpaceScene.ASTEROID_OUTER SpaceScene.ASTEROID_Z
       (with_materials reference_data [mkMaterial "AsteroidMaterial" true clean_tree])
     = inr ([1; 2; 3], d') /\
     length (objects d') = 4) /\
  SpaceScene.create_asteroid_field exact_arith 0 3 SpaceScene.ASTEROID_INNER
    SpaceScene.ASTEROID_OUTER SpaceScene.ASTEROID_Z reference_data
  = inl ReferenceError.
Proof.
  split.
  - destruct (proj2 (proj2 (X14_scene_asteroid_field exact_arith 0 3
                       SpaceScene.ASTEROID_INNER SpaceScene.ASTEROID_OUTER
                       SpaceScene.ASTEROID_Z
                       (with_materials reference_data
                          [mkMaterial "AsteroidMaterial" true clean_tree])))
                (mk_is_Some _ _ eq_refl))
      as (d' & Hrun & Hlen & _).
    exists d'. split; [exact Hrun|exact Hlen].
  - apply (proj1 (proj2 (X14_scene_asteroid_field exact_arith 0 3
                    SpaceScene.ASTEROID_INNER SpaceScene.ASTEROID_OUTER
                    SpaceScene.ASTEROID_Z reference_data))).
    + reflexivity.
    + lia.
Defined.

(** X15: [add_asteroid_field] of grand_flyby.py, whatever the rounding of
    the platform, fails only where its material recipe fails, with the same
    exception; where the recipe returns, the loop never raises, whatever
    the count and the radii.  It adds [count] rocks after the objects that
    were there and leaves those untouched, every rock carries the one
    material of the recipe, is shaded flat and has no modifier, and the
    material is made even when no rock is. *)
Theorem X15_flyby_asteroid_field (ar : Arith) (h : Host) (count : nat)
  (inner outer : R) (d : Data) :
  (forall e,
     GrandFlyby.asteroid_material h d = inl e ->
     GrandFlyby.add_asteroid_field ar h count inner outer d = inl e) /\
  (forall mat d1,
     GrandFlyby.asteroid_material h d = inr (mat, d1) ->
     exists d',
       GrandFlyby.add_asteroid_field ar h count inner outer d = inr (tt, d') /\
       length (objects d') = length (objects d) + count /\
       (forall k, k < length (objects d) -> objects d' !! k = objects d !! k) /\
       (forall k, k < count ->
          exists ob,
            objects d' !! (length (objects d) + k) = Some ob /\
            shading ob = Flat /\ material_slots ob = [mat] /\
            displacement ob = []) /\
       materials d' = materials d1 /\ textures d' = textures d1 /\
       active_object d' = active_after d count).
Proof.
  split.
  - intros e He. unfold GrandFlyby.add_asteroid_field, sbind. by rewrite He.
  - intros mat d1 Hmat. unfold GrandFlyby.add_asteroid_field, range.
    run Hmat.
    assert (active_object d1 = active_object d) as Hact.
    { unfold GrandFlyby.asteroid_material in Hmat.
      apply sbind_inr in Hmat as (m & d2 & Hn & Hmat).
      apply materials_new_inv in Hn as [_ Ha1].
      apply sbind_inr in Hmat as (a & d3 & Ht & Hmat).
      apply on_node_tree_inv in Ht as [_ Ha2].
      apply sret_inr in Hmat as [_ ->]. congruence. }
    apply flyby_asteroid_material_inv in Hmat as [Hobj Hent].
    destruct (for_each_add_asteroid ar mat inner outer count 0 d1)
      as (d' & Hrun & Ho & Hd).
    pose proof (for_each_add_asteroid_blocks _ _ _ _ _ _ _ _ Hrun) as (Hm & Ht & Ha).
    rewrite Hobj, Hent in Ho.
    exists d'. split; [exact Hrun|].
    split; [by rewrite Ho, length_app, scatter_length|].
    split; [intros k Hk; by rewrite Ho, lookup_app_l|].
    split.
    { intros k Hk.
      destruct (scatter_lookup
                  (fun _ e => set_name "Icosphere" (flyby_rock ar mat inner outer e))
                  count 0 (entropy d) k Hk) as (e_k & _ & Hl).
      eexists. split; [by rewrite Ho, lookup_app_r, Nat.add_sub' by lia|]. done. }
    split; [done|]. split; [done|].
    rewrite Ha. unfold active_after. by rewrite Hobj, Hact.
Qed.

(** X15 with three rocks between the radii 30 and 60, on the reference
    host. *)
Lemma X15_flyby_asteroid_field_witness :
  exists d',
    GrandFlyby.add_asteroid_field exact_arith reference_host 3 30 60 reference_data
    = inr (tt, d') /\
    length (objects d') = 4.
Proof.
  destruct (GrandFlyby.asteroid_material reference_host reference_data)
    as [e | [mat d1]] eqn:E; [by vm_compute in E|].
  destruct (proj2 (X15_flyby_asteroid_field exact_arith reference_host 3 30 60
                     reference_data) mat d1 E) as (d' & Hrun & Hlen & _).
  exists d'. split; [exact Hrun|exact Hlen].
Defined.

(* ===================================================================== *)
(** * The moon and the keyed moves *)
(* ===================================================================== *)

Module MoveFacts.







Lemma get_object_run (o : nat) (ob : Object) (d : Data) :
  objects d !! o = Some ob -> get_object o d = inr (ob, d).
Proof. intros H. unfold get_object. by rewrite H. Qed.

Lemma update_object_run (o : nat) (f : Object -> Object) (ob : Object) (d : Data) :
  objects d !! o = Some ob ->
  update_object o f d = inr (tt, with_objects d (<[o := f ob]> (objects d))).
Proof. intros H. unfold update_object. by run (get_object_run _ _ _ H). Qed.

Lemma keyframe_insert_location (h : Host) (o : nat) (frame : Z) (ob : Object)
  (d : Data) :
  objects d !! o = Some ob ->
  keyframe_insert h o "location" frame d
  = inr (tt, with_objects d (<[o := key_location h frame ob]> (objects d))).
Proof.
  intros H. unfold keyframe_insert. run (get_object_run _ _ _ H).
  unfold sbind at 1, lift. simpl. by rewrite (update_object_run _ _ _ _ H).
Qed.

(** One call of [keyframe_vec] on the location of a live object. *)
Lemma keyframe_vec_location (h : Host) (obj : nat) (frame : Z) (v : Vec)
  (d : Data) (ob : Object) :
  objects d !! obj = Some ob ->
  SceneRecipes.keyframe_vec h obj "location" frame v d
  = inr (tt, with_objects d
               (<[obj := key_location h frame (SceneRecipes.set_location v ob)]>
                  (objects d))).
Proof.
  intros Hob. assert (obj < length (objects d)) as Hlt by (by eapply lookup_lt_Some).
  unfold SceneRecipes.keyframe_vec.
  assert ((ob0 <- get_object obj ;;
           ob' <- lift (SceneRecipes.object_setattr "location" v ob0) ;;
           update_object obj (fun _ => ob')) d
          = inr (tt, with_objects d
                       (<[obj := SceneRecipes.set_location v ob]> (objects d))))
    as Hset.
  { run (get_object_run _ _ _ Hob). unfold sbind at 1, lift. simpl.
    by rewrite (update_object_run _ _ _ _ Hob). }
  run Hset.
  rewrite (keyframe_insert_location h obj frame (SceneRecipes.set_location v ob));
    [|by apply list_lookup_insert_eq].
  unfold with_objects. cbn [objects materials textures active_object entropy].
  by rewrite list_insert_insert_eq.
Qed.

End MoveFacts.

Import MoveFacts.



(** X17: [keyframe_vec] twice on the location of an object that has no
    animation yet.  With two frames [f1 < f2] the object ends at the second
    place and its action has one curve per component of the location, each
    with the two keyframes in the order of time; at one and the same frame
    the second call replaces the keyframe of the first.  No other object
    changes.  On a handle that is not a live object the call fails with a
    reference error. *)
Theorem X17_keyframe_vec_twice (h : Host) (obj : nat) (f1 f2 : Z) (v1 v2 : Vec)
  (d : Data) :
  (forall attr,
     objects d !! obj = None ->
     SceneRecipes.keyframe_vec h obj attr f1 v1 d = inl ReferenceError) /\
  (forall ob,
     objects d !! obj = Some ob -> animation_data ob = None ->
     ((f1 < f2)%Z ->
      (SceneRecipes.keyframe_vec h obj "location" f1 v1 ;;
       SceneRecipes.keyframe_vec h obj "location" f2 v2) d
      = inr (tt, with_objects d (<[obj := travels h f1 f2 v1 v2 ob]> (objects d)))) /\
     (f1 = f2 ->
      (SceneRecipes.keyframe_vec h obj "location" f1 v1 ;;
       SceneRecipes.keyframe_vec h obj "location" f2 v2) d
      = inr (tt, with_objects d (<[obj := rekeyed h f2 v2 ob]> (objects d))))).
Proof.
  split.
  { intros attr Hnone.
    unfold SceneRecipes.keyframe_vec, sbind, get_object. by rewrite Hnone. }
  intros ob Hob Hanim.
  assert (obj < length (objects d)) as Hlt by (by eapply lookup_lt_Some).
  assert (forall ob2,
    (SceneRecipes.keyframe_vec h obj "location" f1 v1 ;;
     SceneRecipes.keyframe_vec h obj "location" f2 v2) d
    = inr (tt, with_objects d (<[obj := ob2]> (objects d)))
    <-> key_location h f2
          (SceneRecipes.set_location v2
             (key_location h f1 (SceneRecipes.set_location v1 ob))) = ob2) as Hrun.
  { intros ob2. run (keyframe_vec_location h obj f1 v1 d ob Hob).
    rewrite (keyframe_vec_location h obj f2 v2 _
               (key_location h f1 (SceneRecipes.set_location v1 ob)));
      [|by apply list_lookup_insert_eq].
    unfold with_objects. simpl. rewrite list_insert_insert_eq.
    split; [|by intros <-].
    intros [= Heq].
    apply (f_equal (fun l => l !! obj)) in Heq.
    rewrite !list_lookup_insert_eq in Heq by done. by injection Heq. }
  split.
  - intros Hf. apply Hrun.
    unfold key_location, travels, location_curve, SceneRecipes.set_location,
      set_animation_data. simpl. rewrite Hanim. simpl.
    assert ((f2 <? f1)%Z = false) as -> by lia.
    assert ((f2 =? f1)%Z = false) as -> by lia.
    destruct v1 as [[x1 y1] z1], v2 as [[x2 y2] z2]. reflexivity.
  - intros <-. apply Hrun.
    unfold key_location, rekeyed, location_curve, SceneRecipes.set_location,
      set_animation_data. simpl. rewrite Hanim. simpl.
    rewrite Z.ltb_irrefl, Z.eqb_refl.
    destruct v1 as [[x1 y1] z1], v2 as [[x2 y2] z2]. reflexivity.
Qed.

(** X17 for the planet of the reference file, moved between the first and
    the last frame of the scene. *)
Lemma X17_keyframe_vec_twice_witness :
  exists ob,
    objects reference_data !! 0 = Some ob /\
    (SceneRecipes.keyframe_vec reference_host 0 "location" 1 (0, -14, 4)%R ;;
     SceneRecipes.keyframe_vec reference_host 0 "location" 300 (10, -6, 3)%R)
      reference_data
    = inr (tt, with_objects reference_data
                 (<[0 := travels reference_host 1 300 (0, -14, 4)%R (10, -6, 3)%R ob]>
                    (objects reference_data))).
Proof.
  eexists. split; [reflexivity|].
  apply (proj2 (X17_keyframe_vec_twice reference_host 0 1 300 (0, -14, 4)%R
                  (10, -6, 3)%R reference_data)); [reflexivity|reflexivity|lia].
Defined.

(* ===================================================================== *)
(** * The engine block, the world of the scene and the camera path *)
(* ===================================================================== *)

Module SetupFacts.

Lemma safe_set_inr (obj : Struct) (prop : string) (v : value) :
  exists obj', safe_set obj prop v = inr obj' /\ dom obj' = dom obj.
Proof.
  destruct (safe_set_returns obj prop v) as [obj' H]. exists obj'.
  split; [done|]. by apply safe_set_frame in H as [? _].
Qed.

Lemma setattr_engine (r : Struct) (a : Attr) (id : string) :
  r !! "engine" = Some a -> attr_accepts a (VStr id) = true ->
  exists r',
    setattr r "engine" (VStr id) = inr r' /\
    attr_value <$> r' !! "engine" = Some (VStr id) /\
    forall k, k <> "engine" -> r' !! k = r !! k.
Proof.
  intros Ha Hv. unfold setattr. rewrite Ha, Hv. eexists. split; [done|].
  split; [by rewrite lookup_insert_eq|].
  intros k Hk. by rewrite lookup_insert_ne.
Qed.

(** [clean_scene] in closed form, where the host's operators return. *)
Lemma clean_scene_run (purge : Data -> result Data) (b : WorldSetup.Blend)
  (d1 : Data) :
  purge (WorldSetup.blend_data b) = inr d1 ->
  WorldSetup.clean_scene purge b
  = inr (tt, WorldSetup.mkBlend d1
               (<["World" := WorldSetup.mkWorld true clean_tree]> (WorldSetup.worlds b))
               (Some "World")).
Proof.
  intros Hp.
  unfold WorldSetup.clean_scene, WorldSetup.delete_selected,
    WorldSetup.worlds_get, WorldSetup.worlds_new, WorldSetup.set_scene_world,
    WorldSetup.on_world_tree, nodes_clear, sbind, sret. rewrite Hp. simpl.
  destruct (WorldSetup.worlds b !! "World") as [w|] eqn:Hw; simpl.
  - by rewrite Hw.
  - rewrite lookup_insert_eq. simpl. by rewrite insert_insert_eq.
Qed.

Lemma clean_scene_refused (purge : Data -> result Data) (b : WorldSetup.Blend)
  (e : exn) :
  purge (WorldSetup.blend_data b) = inl e -> WorldSetup.clean_scene purge b = inl e.
Proof.
  intros Hp. unfold WorldSetup.clean_scene, WorldSetup.delete_selected, sbind.
  by rewrite Hp.
Qed.

End SetupFacts.

Import SetupFacts.

(** X18: the engine block of both scripts.  The scripts go for the
    preferred Eevee when they want Eevee and the enum they read lists one,
    and for Cycles otherwise, and the engine is assigned without a guard.
    Whatever the enum lists, what happens is decided by the host's setter
    at the engine picked: where the setter accepts it, the block returns
    with the engine set, the settings of the engine not picked untouched
    and no attribute added to or removed from the settings of the picked
    one; where the setter refuses it, the block fails with the setter's
    type error. *)
Theorem X18_engine_block (use_eevee : bool) (engine_items : gset string)
  (s : SceneRecipes.RenderState) (a : Attr) :
  SceneRecipes.render s !! "engine" = Some a ->
  selects use_eevee engine_items s
          (attr_accepts a (VStr (engine_pick use_eevee engine_items)))
          (SceneRecipes.select_engine use_eevee engine_items s) /\
  selects use_eevee engine_items s
          (attr_accepts a (VStr (engine_pick use_eevee engine_items)))
          (FlybyRecipes.select_engine use_eevee engine_items s).
Proof.
  intros Ha.
  unfold selects, engine_pick, SceneRecipes.select_engine,
    FlybyRecipes.select_engine.
  cbv zeta.
  destruct (if use_eevee then SceneRecipes.eevee_id engine_items else None)
    as [id|] eqn:Hpick.
  - destruct (attr_accepts a (VStr id)) eqn:Hacc.
    + destruct (setattr_engine _ _ id Ha Hacc) as (r' & -> & Hv & Hframe).
      split.
      * simpl.
        destruct (safe_set_inr (SceneRecipes.eevee s) "use_bloom" (VBool true))
          as (e1 & -> & D1). simpl.
        destruct (safe_set_inr e1 "bloom_intensity" (VFloat 0.04))
          as (e2 & -> & D2). simpl.
        destruct (safe_set_inr e2 "use_gtao" (VBool true)) as (e3 & -> & D3).
        simpl.
        destruct (safe_set_inr e3 "volumetric_end"
                    (VFloat (SceneRecipes.NEBULA_SIZE * 1.2))) as (e4 & -> & D4).
        simpl.
        destruct (safe_set_inr e4 "volumetric_start" (VFloat 0.1))
          as (e5 & -> & D5).
        simpl. eexists. split; [done|]. simpl.
        split; [done|]. split; [done|]. split; [congruence|].
        split; [done|]. split; [|done].
        intros ->. exfalso. clear -Hpick. destruct use_eevee; [|done].
        unfold SceneRecipes.eevee_id in Hpick. by repeat case_decide.
      * simpl.
        destruct (safe_set_inr (SceneRecipes.eevee s) "use_bloom" (VBool true))
          as (e1 & -> & D1). simpl.
        destruct (safe_set_inr e1 "bloom_intensity" (VFloat 0.05))
          as (e2 & -> & D2). simpl.
        destruct (safe_set_inr e2 "volumetric_end"
                    (VFloat (FlybyRecipes.NEBULA_SIZE * 1.5))) as (e3 & -> & D3).
        simpl. eexists. split; [done|]. simpl.
        split; [done|]. split; [done|]. split; [congruence|].
        split; [done|]. split; [|done].
        intros ->. exfalso. clear -Hpick. destruct use_eevee; [|done].
        unfold SceneRecipes.eevee_id in Hpick. by repeat case_decide.
    + unfold setattr. rewrite Ha, Hacc. by split.
  - destruct (attr_accepts a (VStr "CYCLES")) eqn:Hacc.
    + destruct (setattr_engine _ _ "CYCLES" Ha Hacc) as (r' & -> & Hv & Hframe).
      split.
      * simpl.
        destruct (safe_set_inr (SceneRecipes.cycles s) "samples" (VFloat 128))
          as (c1 & -> & D1). simpl.
        destruct (safe_set_inr c1 "use_adaptive_sampling" (VBool true))
          as (c2 & -> & D2). simpl.
        eexists. split; [done|]. simpl.
        split; [done|]. split; [done|]. split; [done|]. split; [congruence|].
        by split.
      * simpl. eexists. split; [done|]. simpl. by repeat split.
    + unfold setattr. rewrite Ha, Hacc. by split.
Qed.

(** X18 on a host whose enum lists Eevee Next alone and whose setter
    accepts Eevee Next and Cycles, and on a host that knows the workbench
    alone, where the pick falls on Cycles and the setter refuses it. *)
Lemma X18_engine_block_witness :
  selects true {["BLENDER_EEVEE_NEXT"]}
          (render_settings ["BLENDER_EEVEE_NEXT"; "CYCLES"] "CYCLES" ∅ ∅)
          true
          (SceneRecipes.select_engine true {["BLENDER_EEVEE_NEXT"]}
             (render_settings ["BLENDER_EEVEE_NEXT"; "CYCLES"] "CYCLES" ∅ ∅)) /\
  FlybyRecipes.select_engine true {["BLENDER_WORKBENCH"]}
    (render_settings ["BLENDER_WORKBENCH"] "BLENDER_WORKBENCH" ∅ ∅)
  = inl TypeError.
Proof.
  split.
  - exact (proj1 (X18_engine_block true {["BLENDER_EEVEE_NEXT"]}
                    (render_settings ["BLENDER_EEVEE_NEXT"; "CYCLES"] "CYCLES" ∅ ∅)
                    (engine_attr ["BLENDER_EEVEE_NEXT"; "CYCLES"] "CYCLES")
                    eq_refl)).
  - exact (proj2 (X18_engine_block true {["BLENDER_WORKBENCH"]}
                    (render_settings ["BLENDER_WORKBENCH"] "BLENDER_WORKBENCH" ∅ ∅)
                    (engine_attr ["BLENDER_WORKBENCH"] "BLENDER_WORKBENCH")
                    eq_refl)).
Defined.

(** X19: [clean_scene] with the operators of the host, which decide what
    [select_all] and [delete] remove.  Where they refuse, [clean_scene]
    fails with their exception; where they return, it returns with the
    data they left and makes "World" the world of the scene, with nodes in
    use and a tree without nodes, whatever that world held before and
    whether or not it existed; the other worlds stay.  So the starfield
    recipe that both scripts run next on the world of the scene starts
    from a clean tree: where it runs to its end, the world "World" has
    exactly the starfield topology. *)
Theorem X19_world_rebuilt (purge : Data -> result Data) (h : Host)
  (b : WorldSetup.Blend) :
  (forall e,
     purge (WorldSetup.blend_data b) = inl e ->
     WorldSetup.clean_scene purge b = inl e) /\
  (forall d1,
     purge (WorldSetup.blend_data b) = inr d1 ->
     exists b1,
       WorldSetup.clean_scene purge b = inr (tt, b1) /\
       WorldSetup.blend_data b1 = d1 /\
       WorldSetup.scene_world b1 = Some "World" /\
       WorldSetup.worlds b1 !! "World" = Some (WorldSetup.mkWorld true clean_tree) /\
       (forall k, k <> "World" ->
                  WorldSetup.worlds b1 !! k = WorldSetup.worlds b !! k)) /\
  (forall b',
     WorldSetup.flyby_world purge h b = inr (tt, b') \/
     WorldSetup.scene_world_setup purge h b = inr (tt, b') ->
     purge (WorldSetup.blend_data b) = inr (WorldSetup.blend_data b') /\
     WorldSetup.scene_world b' = Some "World" /\
     (exists t,
        WorldSetup.worlds b' !! "World" = Some (WorldSetup.mkWorld true t) /\
        starfield_topology h t) /\
     (forall k, k <> "World" ->
                WorldSetup.worlds b' !! k = WorldSetup.worlds b !! k)).
Proof.
  split; [intros e He; by apply clean_scene_refused|]. split.
  { intros d1 Hp. eexists. split; [by apply clean_scene_run|]. simpl.
    repeat (split; [done|]). split; [by rewrite lookup_insert_eq|].
    intros k Hk. by rewrite lookup_insert_ne. }
  assert (forall (build : M unit) b',
    (forall t, build clean_tree = inr (tt, t) -> starfield_topology h t) ->
    (WorldSetup.clean_scene purge ;; WorldSetup.on_scene_world build) b
    = inr (tt, b') ->
    purge (WorldSetup.blend_data b) = inr (WorldSetup.blend_data b') /\
    WorldSetup.scene_world b' = Some "World" /\
    (exists t,
       WorldSetup.worlds b' !! "World" = Some (WorldSetup.mkWorld true t) /\
       starfield_topology h t) /\
    (forall k, k <> "World" ->
               WorldSetup.worlds b' !! k = WorldSetup.worlds b !! k)) as Hboth.
  { intros build b' Htop.
    destruct (purge (WorldSetup.blend_data b)) as [e | d1] eqn:Hp.
    - unfold sbind at 1. by rewrite (clean_scene_refused _ _ _ Hp).
    - run (clean_scene_run purge b d1 Hp).
      unfold WorldSetup.on_scene_world, WorldSetup.on_world_tree. simpl.
      rewrite lookup_insert_eq. simpl.
      destruct (build clean_tree) as [e | [[] t]] eqn:Hb; [done|].
      intros [= <-]. simpl. repeat (split; [done|]).
      split.
      + exists t. split; [by rewrite lookup_insert_eq|]. by apply Htop.
      + intros k Hk. by rewrite !lookup_insert_ne. }
  intros b' [H | H].
  - apply (Hboth _ _ (fun t Ht => starfield_topology_of_added h t
                                    (starfield_shape_flyby _ _ _ _ _ _ Ht)) H).
  - apply (Hboth _ _ (fun t Ht => starfield_topology_of_added h t
                                    (starfield_shape_scene _ _ _ _ _ _ Ht)) H).
Qed.

(** X19 on the reference host, for a file that has no world yet and
    operators that reach every object. *)
Lemma X19_world_rebuilt_witness :
  exists b' t,
    WorldSetup.flyby_world reference_purge reference_host reference_blend
    = inr (tt, b') /\
    objects (WorldSetup.blend_data b') = [] /\
    WorldSetup.worlds b' !! "World" = Some (WorldSetup.mkWorld true t) /\
    starfield_topology reference_host t.
Proof.
  destruct (WorldSetup.flyby_world reference_purge reference_host reference_blend)
    as [e | [[] b']] eqn:E; [by vm_compute in E|].
  destruct (proj2 (proj2 (X19_world_rebuilt reference_purge reference_host
                            reference_blend)) b' (or_introl E))
    as (Hp & _ & (t & Hw & Ht) & _).
  exists b', t. split; [reflexivity|].
  split; [by injection Hp as <-|].
  split; [exact Hw|exact Ht].
Defined.

(** X20: [build_camera_path] fails with an index error when the curve
    that the host creates has no spline or an empty first spline.
    Otherwise it returns the curve "FlyPath" with resolution 64, used as a
    path that lasts to the last frame; its first spline has two control
    points more than the host gave it, the first three at start, mid and
    end with automatic handles, and the points after them are points of
    the host that the function never touched, the added ones among them.
    On the two-point curve of the host the path so has four control
    points, and the fourth is a fresh point left where the host put it. *)
Theorem X20_camera_path (ch : CameraPath.CurveHost) (start mid end_ : Vec) :
  let path := CameraPath.primitive_bezier_curve ch start in
  let fresh := CameraPath.fresh_point ch in
  (CameraPath.splines path !! 0 = None \/ CameraPath.splines path !! 0 = Some [] ->
   CameraPath.build_camera_path ch start mid end_ = inl (IndexError 0)) /\
  (forall p0 rest,
     CameraPath.splines path !! 0 = Some (p0 :: rest) ->
     CameraPath.build_camera_path ch start mid end_
     = inr (CameraPath.mkCurve "FlyPath" (CameraPath.curve_location path)
              (<[0 := [auto_point start; auto_point mid; auto_point end_]
                      ++ drop 2 (rest ++ [fresh; fresh])]>
                 (CameraPath.splines path))
              64 true GrandFlyby.FRAME_END)) /\
  (forall p0 p1,
     CameraPath.splines path !! 0 = Some [p0; p1] ->
     exists curve,
       CameraPath.build_camera_path ch start mid end_ = inr curve /\
       CameraPath.splines curve !! 0
       = Some [auto_point start; auto_point mid; auto_point end_; fresh]).
Proof.
  intros path fresh.
  assert (forall p0 rest,
     CameraPath.splines path !! 0 = Some (p0 :: rest) ->
     CameraPath.build_camera_path ch start mid end_
     = inr (CameraPath.mkCurve "FlyPath" (CameraPath.curve_location path)
              (<[0 := [auto_point start; auto_point mid; auto_point end_]
                      ++ drop 2 (rest ++ [fresh; fresh])]>
                 (CameraPath.splines path))
              64 true GrandFlyby.FRAME_END)) as Hrun.
  { intros p0 rest Hs. unfold CameraPath.build_camera_path. fold path. rewrite Hs.
    unfold CameraPath.points_add. fold fresh.
    destruct rest as [|p1 [|p2 rest]]; simpl; try reflexivity.
    by rewrite <- app_assoc. }
  split; [|split].
  - unfold CameraPath.build_camera_path. fold path. by intros [-> | ->].
  - exact Hrun.
  - intros p0 p1 Hs. rewrite (Hrun _ _ Hs). eexists. split; [reflexivity|]. simpl.
    apply list_lookup_insert_eq. by eapply lookup_lt_Some.
Qed.

(** X20 on the bezier primitive of the host, with the three places of the
    script. *)
Lemma X20_camera_path_witness :
  exists curve,
    CameraPath.build_camera_path FullHost.reference_curve_host
      (-120, -80, 40)%R (-20, 30, 15)%R (90, 0, -20)%R = inr curve /\
    CameraPath.splines curve !! 0
    = Some [auto_point (-120, -80, 40)%R; auto_point (-20, 30, 15)%R;
            auto_point (90, 0, -20)%R;
            CameraPath.fresh_point FullHost.reference_curve_host].
Proof.
  apply (proj2 (proj2 (X20_camera_path FullHost.reference_curve_host
                         (-120, -80, 40)%R (-20, 30, 15)%R (90, 0, -20)%R))
           (CameraPath.mkBezierPoint (-1, 0, 0)%R "ALIGNED" "ALIGNED")
           (CameraPath.mkBezierPoint (1, 0, 0)%R "ALIGNED" "ALIGNED")).
  reflexivity.
Defined.

(* ===================================================================== *)
(** * The bodies of the fly-by *)
(* ===================================================================== *)

Module BodiesFacts.







End BodiesFacts.

Import BodiesFacts.


